(** * fp-ts-node: fp-ts wrappers around Node's [fs/promises] and [path]

    Shallow embedding of [src/src/fs/promises.ts] (TaskEither wrappers of
    [node:fs/promises]) and of the path wrappers in [src/unnamed/part_000]
    (IOEither wrappers of [path]).

    The JavaScript side is modelled as follows:
    - a JavaScript value is [value]; objects live in a heap ([list obj]) and
      are referred to by [VRef l], so that object identity is observable
      ([error instanceof Error ? error : Error(msg)] returns the very same
      reference in one branch and a freshly allocated one in the other);
    - the host platform (Node) is a function [host] from the name of the
      primitive and its arguments to an [outcome] (the promise resolves or
      rejects, or the synchronous call returns or throws); the runtime
      records every call it performs in the [w_trace] of the world;
    - a [TaskEither] / [IOEither] is a deferred computation [M either]
      running in an explicit state monad over the world. *)

From Stdlib Require Import String Ascii List ZArith Bool Lia.
Import ListNotations.
Open Scope string_scope.

(** ** JavaScript values and the heap *)

Module Js.

Inductive value : Type :=
  | VUndefined
  | VNull
  | VBool (b : bool)
  | VNum (z : Z)
  | VStr (s : string)
  | VRef (l : nat).

(** Heap objects: [Error] instances (including Node's system errors, which
    carry a [code] such as EEXIST), and plain records (Stats, option bags,
    parsed paths, file handles, ...). *)
Inductive obj : Type :=
  | OError (message : string) (code : option string)
  | ORecord (fields : list (string * value)).

Definition heap := list obj.

(** [v instanceof Error] *)
Definition instanceof_Error (h : heap) (v : value) : bool :=
  match v with
  | VRef l =>
      match nth_error h l with
      | Some (OError _ _) => true
      | _ => false
      end
  | _ => false
  end.

(** JavaScript truthiness (numbers: 0 is falsy). *)
Definition truthy (v : value) : bool :=
  match v with
  | VUndefined | VNull => false
  | VBool b => b
  | VNum z => negb (Z.eqb z 0)
  | VStr s => negb (String.eqb s "")
  | VRef _ => true
  end.

Fixpoint field (k : string) (fs : list (string * value)) : value :=
  match fs with
  | [] => VUndefined
  | (k', v) :: fs' => if String.eqb k k' then v else field k fs'
  end.

(** Property read [o.k] on a value (undefined on non-objects here). *)
Definition get (h : heap) (o : value) (k : string) : value :=
  match o with
  | VRef l =>
      match nth_error h l with
      | Some (ORecord fs) => field k fs
      | Some (OError m _) => if String.eqb k "message" then VStr m else VUndefined
      | None => VUndefined
      end
  | _ => VUndefined
  end.

(** Settled promise / completed synchronous call of a host primitive. *)
Inductive outcome : Type :=
  | Returns (v : value)
  | Throws (v : value).

(** fp-ts [Either]. *)
Inductive either : Type :=
  | Left (e : value)
  | Right (a : value).

End Js.

Import Js.

(** ** The runtime: world, host platform and the state monad *)

Module Runtime.

Section Runtime.

Context {FS : Type}.

(** One call performed on the host platform: primitive name and arguments. *)
Definition host_call : Type := (string * list value)%type.

(** The host platform: the primitive named [name] called on [args], in a
    given file-system state and heap, settles with an outcome and may change
    the file system and allocate objects (Stats, errors, ...). *)
Definition host_fn : Type :=
  string -> list value -> FS * heap -> outcome * (FS * heap).

Record world : Type := mkWorld {
  w_fs : FS;
  w_heap : heap;
  w_trace : list host_call
}.

Definition M (A : Type) : Type := world -> A * world.

Definition ret {A} (a : A) : M A := fun w => (a, w).

Definition bind {A B} (m : M A) (k : A -> M B) : M B :=
  fun w => let '(a, w1) := m w in k a w1.

End Runtime.

Arguments host_fn : clear implicits.
Arguments world : clear implicits.
Arguments M : clear implicits.

Notation "x <- m ;; k" := (bind m (fun x => k))
  (at level 61, m at next level, right associativity).

End Runtime.

Import Runtime.

(** ** fp-ts [tryCatch] and the shared [toError] helper *)

Module Wrap.

Section Wrap.

Context {FS : Type} (host : host_fn FS).

(** The runtime performs one call of a host primitive and records it. *)
Definition invoke (name : string) (args : list value) : M FS outcome :=
  fun w =>
    let '(r, (fs', h')) := host name args (w_fs w, w_heap w) in
    (r, mkWorld fs' h' (w_trace w ++ [(name, args)])%list).

(** [p.then(k)]: a resolved value is mapped by [k], a rejection passes. *)
Definition then_ (p : M FS outcome) (k : value -> value) : M FS outcome :=
  r <- p ;;
  match r with
  | Returns v => ret (Returns (k v))
  | Throws e => ret (Throws e)
  end.

(** [Error(message)]: allocates a fresh Error object. *)
Definition new_Error (message : string) : M FS value :=
  fun w =>
    (VRef (List.length (w_heap w)),
     mkWorld (w_fs w) (w_heap w ++ [OError message None])%list (w_trace w)).

(** [const toError = (error, defaultMessage) =>
       error instanceof Error ? error : Error(defaultMessage);] *)
Definition toError (error : value) (defaultMessage : string) : M FS value :=
  fun w =>
    if instanceof_Error (w_heap w) error then (error, w)
    else new_Error defaultMessage w.

(** fp-ts [tryCatch(f, onRejected)] (TaskEither and IOEither alike): runs
    [f]; a value becomes [right], a rejection or throw [reason] becomes
    [left(onRejected(reason))]. *)
Definition tryCatch (f : M FS outcome) (onRejected : value -> M FS value)
  : M FS either :=
  r <- f ;;
  match r with
  | Returns v => ret (Right v)
  | Throws reason => e <- onRejected reason ;; ret (Left e)
  end.

End Wrap.

End Wrap.

Import Wrap.

(** ** [src/src/fs/promises.ts] *)

Module FsPromises.

Section FsPromises.

Context {FS : Type} (host : host_fn FS).

Let invoke := invoke host.

Definition access (path mode : value) : M FS either :=
  tryCatch (then_ (invoke "access" [path; mode]) (fun _ => path))
    (fun reason => toError reason "Unexpected error while accessing path").

Definition appendFile (path data options : value) : M FS either :=
  tryCatch (then_ (invoke "appendFile" [path; data; options]) (fun _ => path))
    (fun reason => toError reason "Unexpected error appending file").

Definition chmod (path mode : value) : M FS either :=
  tryCatch (then_ (invoke "chmod" [path; mode]) (fun _ => path))
    (fun reason => toError reason "Unexpected error while performing chmod").

Definition chown (path uid gid : value) : M FS either :=
  tryCatch (then_ (invoke "chown" [path; uid; gid]) (fun _ => path))
    (fun reason => toError reason "Unexpected error while performing chown").

Definition copyFile (src dest mode : value) : M FS either :=
  tryCatch (then_ (invoke "copyFile" [src; dest; mode]) (fun _ => dest))
    (fun reason => toError reason "Unexpected error during copyFile").

Definition cp (src dest opts : value) : M FS either :=
  tryCatch (then_ (invoke "cp" [src; dest; opts]) (fun _ => dest))
    (fun reason => toError reason "Unexpected error during cp").

Definition lchown (path uid gid : value) : M FS either :=
  tryCatch (then_ (invoke "lchown" [path; uid; gid]) (fun _ => path))
    (fun reason => toError reason "Unexpected error duriong lchown").

Definition lutimes (path atime mtime : value) : M FS either :=
  tryCatch (then_ (invoke "lutimes" [path; atime; mtime]) (fun _ => path))
    (fun reason => toError reason "Unexpected error during lutimes").

Definition link (existingPath newPath : value) : M FS either :=
  tryCatch (then_ (invoke "link" [existingPath; newPath]) (fun _ => newPath))
    (fun reason => toError reason "Unexpected error during link").

Definition lstat (path options : value) : M FS either :=
  tryCatch (invoke "lstat" [path; options])
    (fun reason => toError reason "").

Definition mkdir (path options : value) : M FS either :=
  tryCatch (then_ (invoke "mkdir" [path; options]) (fun _ => path))
    (fun reason => toError reason "").

Definition mkdtemp (prefix options : value) : M FS either :=
  tryCatch (invoke "mkdtemp" [prefix; options])
    (fun reason => toError reason "").

Definition open (path flags mode : value) : M FS either :=
  tryCatch (invoke "open" [path; flags; mode])
    (fun reason => toError reason "").

Definition opendir (path options : value) : M FS either :=
  tryCatch (invoke "opendir" [path; options])
    (fun reason => toError reason "").

Definition readdir (path options : value) : M FS either :=
  tryCatch (invoke "readdir" [path; options])
    (fun reason => toError reason "").

Definition readFile (path options : value) : M FS either :=
  tryCatch (invoke "readFile" [path; options])
    (fun reason => toError reason "").

Definition readLink (path options : value) : M FS either :=
  tryCatch (invoke "readlink" [path; options])
    (fun reason => toError reason "").

Definition realpath (path options : value) : M FS either :=
  tryCatch (invoke "realpath" [path; options])
    (fun reason => toError reason "").

Definition rename (oldPath newPath : value) : M FS either :=
  tryCatch (invoke "rename" [oldPath; newPath])
    (fun reason => toError reason "").

Definition rmdir (path options : value) : M FS either :=
  tryCatch (invoke "rmdir" [path; options])
    (fun reason => toError reason "").

Definition rm (path options : value) : M FS either :=
  tryCatch (invoke "rm" [path; options])
    (fun reason => toError reason "").

Definition stat (path options : value) : M FS either :=
  tryCatch (invoke "stat" [path; options])
    (fun reason => toError reason "").

Definition symlink (target path type : value) : M FS either :=
  tryCatch (invoke "symlink" [target; path; type])
    (fun reason => toError reason "").

Definition truncate (path length : value) : M FS either :=
  tryCatch (invoke "truncate" [path; length])
    (fun reason => toError reason "").

Definition unlink (path : value) : M FS either :=
  tryCatch (invoke "unlink" [path])
    (fun reason => toError reason "").

Definition utimes (path atime mtime : value) : M FS either :=
  tryCatch (invoke "utimes" [path; atime; mtime])
    (fun reason => toError reason "").

Definition writeFile (file data options : value) : M FS either :=
  tryCatch (invoke "writeFile" [file; data; options])
    (fun reason => toError reason "").

End FsPromises.

End FsPromises.

(** ** Path wrappers ([src/unnamed/part_000]) *)

Module PathW.

Section PathW.

Context {FS : Type} (host : host_fn FS).

Let invoke := invoke host.

Definition basename (p ext : value) : M FS either :=
  tryCatch (invoke "basename" [p; ext])
    (fun reason => toError reason "Unexpected error getting basename").

Definition dirname (p : value) : M FS either :=
  tryCatch (invoke "dirname" [p])
    (fun reason => toError reason "Unexpected error getting dirname").

Definition extname (p : value) : M FS either :=
  tryCatch (invoke "extname" [p])
    (fun reason => toError reason "Unexpected error getting extname").

Definition format (po : value) : M FS either :=
  tryCatch (invoke "format" [po])
    (fun reason => toError reason "Unexpected error formatting path object").

Definition isAbsolute (p : value) : M FS either :=
  tryCatch (invoke "isAbsolute" [p])
    (fun reason => toError reason "Unexpected error checking for absolute path").

(** [(...paths: string[]) => path.join(...paths)]: the call receives the
    rest arguments spread. *)
Definition join (paths : list value) : M FS either :=
  tryCatch (invoke "join" paths)
    (fun reason => toError reason "Unexpected error joining path segments").

Definition normalize (p : value) : M FS either :=
  tryCatch (invoke "normalize" [p])
    (fun reason => toError reason "Unexpected error normalizing path").

Definition parse (p : value) : M FS either :=
  tryCatch (invoke "parse" [p])
    (fun reason => toError reason "Unexpected error parsing path").

Definition relative (from to : value) : M FS either :=
  tryCatch (invoke "relative" [from; to])
    (fun reason => toError reason "Unexpected error solving the relative path").

Definition resolve (paths : list value) : M FS either :=
  tryCatch (invoke "resolve" paths)
    (fun reason => toError reason "Unexpected error resolving path segments").

End PathW.

End PathW.

(** ** Every exported wrapper, as one call site *)

Module Api.

(** One call of an exported wrapper, with the arguments it receives
    ([undefined] for an omitted optional argument). *)
Inductive call : Type :=
  (* src/src/fs/promises.ts *)
  | Access (path mode : value)
  | AppendFile (path data options : value)
  | Chmod (path mode : value)
  | Chown (path uid gid : value)
  | CopyFile (src dest mode : value)
  | Cp (src dest opts : value)
  | Lchown (path uid gid : value)
  | Lutimes (path atime mtime : value)
  | Link (existingPath newPath : value)
  | Lstat (path options : value)
  | Mkdir (path options : value)
  | Mkdtemp (prefix options : value)
  | Open (path flags mode : value)
  | Opendir (path options : value)
  | Readdir (path options : value)
  | ReadFile (path options : value)
  | ReadLink (path options : value)
  | Realpath (path options : value)
  | Rename (oldPath newPath : value)
  | Rmdir (path options : value)
  | Rm (path options : value)
  | Stat (path options : value)
  | Symlink (target path type : value)
  | Truncate (path length : value)
  | Unlink (path : value)
  | Utimes (path atime mtime : value)
  | WriteFile (file data options : value)
  (* path wrappers, src/unnamed/part_000 *)
  | Basename (p ext : value)
  | Dirname (p : value)
  | Extname (p : value)
  | Format (po : value)
  | IsAbsolute (p : value)
  | Join (paths : list value)
  | Normalize (p : value)
  | Parse (p : value)
  | Relative (from to : value)
  | Resolve (paths : list value).

Section Run.

Context {FS : Type} (host : host_fn FS).

Definition run (c : call) : M FS either :=
  match c with
  | Access p m => FsPromises.access host p m
  | AppendFile p d o => FsPromises.appendFile host p d o
  | Chmod p m => FsPromises.chmod host p m
  | Chown p u g => FsPromises.chown host p u g
  | CopyFile s d m => FsPromises.copyFile host s d m
  | Cp s d o => FsPromises.cp host s d o
  | Lchown p u g => FsPromises.lchown host p u g
  | Lutimes p a m => FsPromises.lutimes host p a m
  | Link e n => FsPromises.link host e n
  | Lstat p o => FsPromises.lstat host p o
  | Mkdir p o => FsPromises.mkdir host p o
  | Mkdtemp p o => FsPromises.mkdtemp host p o
  | Open p f m => FsPromises.open host p f m
  | Opendir p o => FsPromises.opendir host p o
  | Readdir p o => FsPromises.readdir host p o
  | ReadFile p o => FsPromises.readFile host p o
  | ReadLink p o => FsPromises.readLink host p o
  | Realpath p o => FsPromises.realpath host p o
  | Rename o n => FsPromises.rename host o n
  | Rmdir p o => FsPromises.rmdir host p o
  | Rm p o => FsPromises.rm host p o
  | Stat p o => FsPromises.stat host p o
  | Symlink t p ty => FsPromises.symlink host t p ty
  | Truncate p l => FsPromises.truncate host p l
  | Unlink p => FsPromises.unlink host p
  | Utimes p a m => FsPromises.utimes host p a m
  | WriteFile f d o => FsPromises.writeFile host f d o
  | Basename p e => PathW.basename host p e
  | Dirname p => PathW.dirname host p
  | Extname p => PathW.extname host p
  | Format po => PathW.format host po
  | IsAbsolute p => PathW.isAbsolute host p
  | Join ps => PathW.join host ps
  | Normalize p => PathW.normalize host p
  | Parse p => PathW.parse host p
  | Relative f t => PathW.relative host f t
  | Resolve ps => PathW.resolve host ps
  end.

End Run.

(** The host primitive each wrapper calls, with its arguments. *)
Definition prim_of (c : call) : host_call :=
  match c with
  | Access p m => ("access", [p; m])
  | AppendFile p d o => ("appendFile", [p; d; o])
  | Chmod p m => ("chmod", [p; m])
  | Chown p u g => ("chown", [p; u; g])
  | CopyFile s d m => ("copyFile", [s; d; m])
  | Cp s d o => ("cp", [s; d; o])
  | Lchown p u g => ("lchown", [p; u; g])
  | Lutimes p a m => ("lutimes", [p; a; m])
  | Link e n => ("link", [e; n])
  | Lstat p o => ("lstat", [p; o])
  | Mkdir p o => ("mkdir", [p; o])
  | Mkdtemp p o => ("mkdtemp", [p; o])
  | Open p f m => ("open", [p; f; m])
  | Opendir p o => ("opendir", [p; o])
  | Readdir p o => ("readdir", [p; o])
  | ReadFile p o => ("readFile", [p; o])
  | ReadLink p o => ("readlink", [p; o])
  | Realpath p o => ("realpath", [p; o])
  | Rename o n => ("rename", [o; n])
  | Rmdir p o => ("rmdir", [p; o])
  | Rm p o => ("rm", [p; o])
  | Stat p o => ("stat", [p; o])
  | Symlink t p ty => ("symlink", [t; p; ty])
  | Truncate p l => ("truncate", [p; l])
  | Unlink p => ("unlink", [p])
  | Utimes p a m => ("utimes", [p; a; m])
  | WriteFile f d o => ("writeFile", [f; d; o])
  | Basename p e => ("basename", [p; e])
  | Dirname p => ("dirname", [p])
  | Extname p => ("extname", [p])
  | Format po => ("format", [po])
  | IsAbsolute p => ("isAbsolute", [p])
  | Join ps => ("join", ps)
  | Normalize p => ("normalize", [p])
  | Parse p => ("parse", [p])
  | Relative f t => ("relative", [f; t])
  | Resolve ps => ("resolve", ps)
  end.

(** The input a wrapper yields in place of the primitive's (void) result:
    the [.then(() => x)] of its body, if any. *)
Definition echo_of (c : call) : option value :=
  match c with
  | Access p _ | AppendFile p _ _ | Chmod p _ | Chown p _ _
  | Lchown p _ _ | Lutimes p _ _ | Mkdir p _ => Some p
  | CopyFile _ d _ | Cp _ d _ => Some d
  | Link _ n => Some n
  | _ => None
  end.

(** The [defaultMessage] each wrapper passes to [toError]. *)
Definition default_message (c : call) : string :=
  match c with
  | Access _ _ => "Unexpected error while accessing path"
  | AppendFile _ _ _ => "Unexpected error appending file"
  | Chmod _ _ => "Unexpected error while performing chmod"
  | Chown _ _ _ => "Unexpected error while performing chown"
  | CopyFile _ _ _ => "Unexpected error during copyFile"
  | Cp _ _ _ => "Unexpected error during cp"
  | Lchown _ _ _ => "Unexpected error duriong lchown"
  | Lutimes _ _ _ => "Unexpected error during lutimes"
  | Link _ _ => "Unexpected error during link"
  | Basename _ _ => "Unexpected error getting basename"
  | Dirname _ => "Unexpected error getting dirname"
  | Extname _ => "Unexpected error getting extname"
  | Format _ => "Unexpected error formatting path object"
  | IsAbsolute _ => "Unexpected error checking for absolute path"
  | Join _ => "Unexpected error joining path segments"
  | Normalize _ => "Unexpected error normalizing path"
  | Parse _ => "Unexpected error parsing path"
  | Relative _ _ => "Unexpected error solving the relative path"
  | Resolve _ => "Unexpected error resolving path segments"
  | _ => ""
  end.

(** How a wrapper settles once its single primitive call has answered
    [r] and the runtime is in world [w1]. *)
Definition settle {FS : Type} (c : call) (r : outcome) (w1 : world FS)
  : either * world FS :=
  match r with
  | Returns v =>
      (Right (match echo_of c with Some e => e | None => v end), w1)
  | Throws e =>
      if instanceof_Error (w_heap w1) e then (Left e, w1)
      else (Left (VRef (List.length (w_heap w1))),
            mkWorld (w_fs w1) (w_heap w1 ++ [OError (default_message c) None])%list
              (w_trace w1))
  end.

(** The host's answer to the primitive call of [c] in world [w]. *)
Definition answer {FS : Type} (host : host_fn FS) (c : call) (w : world FS)
  : outcome * (FS * heap) :=
  host (fst (prim_of c)) (snd (prim_of c)) (w_fs w, w_heap w).

(** The world right after that call, recorded in the trace. *)
Definition after_call {FS : Type} (c : call) (w : world FS) (st : FS * heap)
  : world FS :=
  mkWorld (fst st) (snd st) (w_trace w ++ [prim_of c])%list.

(** The outcome of [c] when its primitive settles with a value [v] is
    [Right (f v)]. *)
Definition yields_on_success {FS : Type} (host : host_fn FS) (c : call)
    (w : world FS) (f : value -> value) : Prop :=
  forall v st', answer host c w = (Returns v, st') -> fst (run host c w) = Right (f v).

End Api.

Import Api.

(** ** The host's posix [path] module

    The path wrappers forward to Node's [path] module; on a POSIX host that is
    [path.posix] (Node's [lib/path.js]).  The functions below follow that
    implementation: strings are indexed like [charCodeAt], [slice(a, b)] is
    [substring a (b - a)], and a non-string argument makes [validateString]
    throw a [TypeError] with code [ERR_INVALID_ARG_TYPE]. *)

Module NodePosix.

Definition char_at (s : string) (i : Z) : option Ascii.ascii :=
  if (i <? 0)%Z then None else String.get (Z.to_nat i) s.

Definition is_slash (s : string) (i : Z) : bool :=
  match char_at s i with
  | Some c => Ascii.eqb c "/"%char
  | None => false
  end.

Definition is_dot (s : string) (i : Z) : bool :=
  match char_at s i with
  | Some c => Ascii.eqb c "."%char
  | None => false
  end.

Definition len (s : string) : Z := Z.of_nat (String.length s).

(** [s.slice(a, b)] for [0 <= a], [b <= s.length]. *)
Definition slice (s : string) (a b : Z) : string :=
  substring (Z.to_nat a) (Z.to_nat (b - a)) s.

Definition slice_from (s : string) (a : Z) : string := slice s a (len s).

(** [s.lastIndexOf('/')] *)
Fixpoint last_slash_aux (s : string) (i : nat) (acc : Z) : Z :=
  match s with
  | EmptyString => acc
  | String c s' =>
      last_slash_aux s' (S i) (if Ascii.eqb c "/"%char then Z.of_nat i else acc)
  end.

Definition last_index_of_slash (s : string) : Z := last_slash_aux s 0 (-1).

(** [normalizeString(path, allowAboveRoot, '/', isPosixPathSeparator)]:
    the [for (let i = 0; i <= path.length; ++i)] loop; [fuel] bounds the
    remaining iterations. *)
Fixpoint normalize_loop (path : string) (allowAboveRoot : bool) (fuel : nat)
    (i : Z) (res : string) (lastSegmentLength lastSlash dots : Z)
    (code_is_sep : bool) : string :=
  match fuel with
  | O => res
  | S fuel' =>
      if (len path <? i)%Z then res else
      (* if (i < path.length) code = path.charCodeAt(i);
         else if (isPathSeparator(code)) break; else code = '/' *)
      let code :=
        if (i <? len path)%Z
        then Some (is_slash path i, is_dot path i)
        else if code_is_sep then None else Some (true, false) in
      match code with
      | None => res
      | Some (true, _) =>
          let '(res', lsl') :=
            if ((lastSlash =? i - 1)%Z || (dots =? 1)%Z)%bool then
              (res, lastSegmentLength)
            else if (dots =? 2)%Z then
              let up :=
                if ((len res <? 2)%Z || negb (lastSegmentLength =? 2)%Z
                    || negb (is_dot res (len res - 1))
                    || negb (is_dot res (len res - 2)))%bool
                then
                  if (2 <? len res)%Z then
                    let lastSlashIndex := last_index_of_slash res in
                    if (lastSlashIndex =? -1)%Z then Some ("", 0%Z)
                    else
                      let r := slice res 0 lastSlashIndex in
                      Some (r, (len r - 1 - last_index_of_slash r)%Z)
                  else if negb (len res =? 0)%Z then Some ("", 0%Z)
                  else None
                else None in
              match up with
              | Some st => st
              | None =>
                  if allowAboveRoot then
                    ((if (0 <? len res)%Z then res ++ "/.." else ".."), 2%Z)
                  else (res, lastSegmentLength)
              end
            else
              ((if (0 <? len res)%Z then res ++ "/" ++ slice path (lastSlash + 1) i
                else slice path (lastSlash + 1) i),
               (i - lastSlash - 1)%Z) in
          normalize_loop path allowAboveRoot fuel' (i + 1) res' lsl' i 0 true
      | Some (false, isdot) =>
          let dots' := if (isdot && negb (dots =? -1)%Z)%bool then (dots + 1)%Z else (-1)%Z in
          normalize_loop path allowAboveRoot fuel' (i + 1) res lastSegmentLength
            lastSlash dots' false
      end
  end.

Definition normalizeString (path : string) (allowAboveRoot : bool) : string :=
  normalize_loop path allowAboveRoot (S (String.length path)) 0 "" 0 (-1) 0 false.

(** [posix.normalize(path)] for a string [path]. *)
Definition normalize (path : string) : string :=
  if (len path =? 0)%Z then "." else
  let isAbsolute := is_slash path 0 in
  let trailingSeparator := is_slash path (len path - 1) in
  let path' := normalizeString path (negb isAbsolute) in
  if (len path' =? 0)%Z then
    if isAbsolute then "/" else if trailingSeparator then "./" else "."
  else
    let path'' := if trailingSeparator then path' ++ "/" else path' in
    if isAbsolute then "/" ++ path'' else path''.

(** [posix.isAbsolute(path)] *)
Definition isAbsolute (path : string) : bool :=
  (0 <? len path)%Z && is_slash path 0.

(** The [joined] accumulator of [posix.join(...args)]:
    [if (arg.length > 0) joined = joined === undefined ? arg : joined + '/' + arg]. *)
Fixpoint join_acc (joined : option string) (args : list string) : option string :=
  match args with
  | [] => joined
  | arg :: args' =>
      join_acc
        (if (0 <? len arg)%Z then
           match joined with None => Some arg | Some j => Some (j ++ "/" ++ arg) end
         else joined) args'
  end.

(** [posix.join(...args)] for string arguments. *)
Definition join (args : list string) : string :=
  match args with
  | [] => "."
  | _ =>
      match join_acc None args with
      | None => "."
      | Some joined => normalize joined
      end
  end.

(** The right-to-left loop of [posix.resolve(...args)] over the reversed
    arguments followed by [process.cwd()]: [validateString] is applied to
    each visited argument only ([None]: it throws); the loop stops at the
    first absolute one. *)
Fixpoint resolve_acc (rev_args : list value) (resolvedPath : string)
  : option (string * bool) :=
  match rev_args with
  | [] => Some (resolvedPath, false)
  | VStr path :: rest =>
      if (len path =? 0)%Z then resolve_acc rest resolvedPath
      else
        let resolvedPath' := path ++ "/" ++ resolvedPath in
        if is_slash path 0 then Some (resolvedPath', true)
        else resolve_acc rest resolvedPath'
  | _ :: _ => None
  end.

(** [posix.resolve(...args)] with [process.cwd()] equal to [cwd]. *)
Definition resolve (cwd : string) (args : list value) : option string :=
  match resolve_acc (rev args ++ [VStr cwd])%list "" with
  | None => None
  | Some (resolvedPath, resolvedAbsolute) =>
      let resolvedPath' := normalizeString resolvedPath (negb resolvedAbsolute) in
      Some (if resolvedAbsolute then "/" ++ resolvedPath'
            else if (0 <? len resolvedPath')%Z then resolvedPath' else ".")
  end.

(** [posix.resolve(p)] for one string argument (always validates). *)
Definition resolve1 (cwd p : string) : string :=
  match resolve cwd [VStr p] with Some r => r | None => "" end.

(** [a === b] on two [charCodeAt] results (out of range is [NaN]). *)
Definition code_eqb (a b : option Ascii.ascii) : bool :=
  match a, b with
  | Some x, Some y => Ascii.eqb x y
  | _, _ => false
  end.

(** [for (; i < length; i++)] common-prefix scan of [posix.relative]. *)
Fixpoint common_prefix (from to : string) (fuel : nat) (i length lastCommonSep : Z)
  : Z * Z :=
  match fuel with
  | O => (i, lastCommonSep)
  | S fuel' =>
      if (i <? length)%Z then
        if negb (code_eqb (char_at from (1 + i)) (char_at to (1 + i))) then
          (i, lastCommonSep)
        else
          common_prefix from to fuel' (i + 1) length
            (if is_slash from (1 + i) then i else lastCommonSep)
      else (i, lastCommonSep)
  end.

(** [for (i = fromStart + lastCommonSep + 1; i <= fromEnd; ++i)]:
    one [..] per remaining segment of [from]. *)
Fixpoint up_segments (from : string) (fuel : nat) (i fromEnd : Z) (out : string)
  : string :=
  match fuel with
  | O => out
  | S fuel' =>
      if (fromEnd <? i)%Z then out
      else
        let out' :=
          if ((i =? fromEnd)%Z || is_slash from i)%bool
          then out ++ (if (len out =? 0)%Z then ".." else "/..")
          else out in
        up_segments from fuel' (i + 1) fromEnd out'
  end.

(** [posix.relative(from, to)] for string arguments. *)
Definition relative (cwd from0 to0 : string) : string :=
  if String.eqb from0 to0 then "" else
  let from := resolve1 cwd from0 in
  let to := resolve1 cwd to0 in
  if String.eqb from to then "" else
  let fromStart := 1%Z in
  let fromEnd := len from in
  let fromLen := (fromEnd - fromStart)%Z in
  let toStart := 1%Z in
  let toLen := (len to - toStart)%Z in
  let length := Z.min fromLen toLen in
  let '(i, lastCommonSep) :=
    common_prefix from to (Z.to_nat length) 0 length (-1) in
  let tail :=
    if (i =? length)%Z then
      if (length <? toLen)%Z then
        if is_slash to (toStart + i) then inl (slice_from to (toStart + i + 1))
        else if (i =? 0)%Z then inl (slice_from to (toStart + i))
        else inr lastCommonSep
      else if (length <? fromLen)%Z then
        if is_slash from (fromStart + i) then inr i
        else if (i =? 0)%Z then inr 0%Z
        else inr lastCommonSep
      else inr lastCommonSep
    else inr lastCommonSep in
  match tail with
  | inl r => r
  | inr lastCommonSep' =>
      let out :=
        up_segments from (S (String.length from))
          (fromStart + lastCommonSep' + 1) fromEnd "" in
      out ++ slice_from to (toStart + lastCommonSep')
  end.

(** The object returned by [posix.parse]. *)
Record parsed := mkParsed {
  root : string; dir : string; base : string; ext : string; name : string
}.

(** The backward scan [for (; i >= start; --i)] of [posix.parse]; returns
    [startDot], [startPart], [end] and [preDotState]. *)
Fixpoint parse_loop (path : string) (start : Z) (fuel : nat) (i : Z)
    (startDot startPart end_ : Z) (matchedSlash : bool) (preDotState : Z)
  : Z * Z * Z * Z :=
  match fuel with
  | O => (startDot, startPart, end_, preDotState)
  | S fuel' =>
      if (i <? start)%Z then (startDot, startPart, end_, preDotState)
      else if is_slash path i then
        if negb matchedSlash then (startDot, i + 1, end_, preDotState)%Z
        else parse_loop path start fuel' (i - 1) startDot startPart end_
               matchedSlash preDotState
      else
        let '(end', matchedSlash') :=
          if (end_ =? -1)%Z then ((i + 1)%Z, false) else (end_, matchedSlash) in
        let '(startDot', preDotState') :=
          if is_dot path i then
            if (startDot =? -1)%Z then (i, preDotState)
            else if negb (preDotState =? 1)%Z then (startDot, 1%Z)
            else (startDot, preDotState)
          else if negb (startDot =? -1)%Z then (startDot, (-1)%Z)
          else (startDot, preDotState) in
        parse_loop path start fuel' (i - 1) startDot' startPart end'
          matchedSlash' preDotState'
  end.

(** [posix.parse(path)] for a string [path]. *)
Definition parse (path : string) : parsed :=
  if (len path =? 0)%Z then mkParsed "" "" "" "" "" else
  let isAbsolute := is_slash path 0 in
  let root := if isAbsolute then "/" else "" in
  let start := if isAbsolute then 1%Z else 0%Z in
  let '(startDot, startPart, end_, preDotState) :=
    parse_loop path start (String.length path) (len path - 1) (-1) 0 (-1) true 0 in
  let '(base, ext, name) :=
    if negb (end_ =? -1)%Z then
      let start' := if ((startPart =? 0)%Z && isAbsolute)%bool then 1%Z else startPart in
      if ((startDot =? -1)%Z || (preDotState =? 0)%Z
          || ((preDotState =? 1)%Z && (startDot =? end_ - 1)%Z
              && (startDot =? startPart + 1)%Z))%bool
      then (slice path start' end_, "", slice path start' end_)
      else (slice path start' end_, slice path startDot end_,
            slice path start' startDot)
    else ("", "", "") in
  let dir :=
    if (0 <? startPart)%Z then slice path 0 (startPart - 1)
    else if isAbsolute then "/" else "" in
  mkParsed root dir base ext name.

(** Decimal digits of a natural number ([String(n)]). *)
Fixpoint digits (fuel n : nat) (acc : string) : string :=
  match fuel with
  | O => acc
  | S fuel' =>
      let d := String (Ascii.ascii_of_nat (48 + n mod 10)) "" in
      if Nat.ltb n 10 then d ++ acc else digits fuel' (n / 10) (d ++ acc)
  end.

Definition string_of_Z (z : Z) : string :=
  let n := Z.to_nat (Z.abs z) in
  (if (z <? 0)%Z then "-" else "") ++ digits (S n) n "".

(** String conversion of a template literal [`${v}`]. *)
Definition js_string (h : heap) (v : value) : string :=
  match v with
  | VUndefined => "undefined"
  | VNull => "null"
  | VBool b => if b then "true" else "false"
  | VNum z => string_of_Z z
  | VStr s => s
  | VRef l =>
      match nth_error h l with
      | Some (OError m _) => if String.eqb m "" then "Error" else "Error: " ++ m
      | _ => "[object Object]"
      end
  end.

(** Strict equality [===]. *)
Definition strict_eqb (a b : value) : bool :=
  match a, b with
  | VUndefined, VUndefined | VNull, VNull => true
  | VBool x, VBool y => Bool.eqb x y
  | VNum x, VNum y => Z.eqb x y
  | VStr x, VStr y => String.eqb x y
  | VRef x, VRef y => Nat.eqb x y
  | _, _ => false
  end.

(** [a || b] *)
Definition js_or (a b : value) : value := if truthy a then a else b.

(** [ext ? `${ext[0] === '.' ? '' : '.'}${ext}` : ''] *)
Definition formatExt (h : heap) (ext : value) : string :=
  if truthy ext then
    let first_is_dot :=
      match ext with VStr e => is_dot e 0 | _ => false end in
    (if first_is_dot then "" else ".") ++ js_string h ext
  else "".

(** [_format('/', pathObject)] once [validateObject] has passed. *)
Definition format_fields (h : heap) (po : value) : string :=
  let dir := js_or (get h po "dir") (get h po "root") in
  let base :=
    if truthy (get h po "base") then js_string h (get h po "base")
    else js_string h (js_or (get h po "name") (VStr "")) ++ formatExt h (get h po "ext") in
  if negb (truthy dir) then base
  else if strict_eqb dir (get h po "root") then js_string h dir ++ base
  else js_string h dir ++ "/" ++ base.

(** The object [posix.parse] returns. *)
Definition parsed_obj (r : parsed) : obj :=
  ORecord [("root", VStr (root r)); ("dir", VStr (dir r)); ("base", VStr (base r));
           ("ext", VStr (ext r)); ("name", VStr (name r))].

(** [validateString] / [validateObject] failure: a [TypeError]. *)
Definition throw_type_error (h : heap) : outcome * heap :=
  (Throws (VRef (List.length h)),
   (h ++ [OError "The argument must be of type string" (Some "ERR_INVALID_ARG_TYPE")])%list).

Definition arg (args : list value) (i : nat) : value := nth i args VUndefined.

Fixpoint all_strings (args : list value) : option (list string) :=
  match args with
  | [] => Some []
  | VStr s :: rest =>
      match all_strings rest with Some ss => Some (s :: ss) | None => None end
  | _ :: _ => None
  end.

(** The posix [path] primitives the wrappers call, on a process whose
    working directory is [cwd]; [None] for a name this module does not
    model. *)
Definition path_prim (cwd : string) (fname : string) (args : list value) (h : heap)
  : option (outcome * heap) :=
  if String.eqb fname "normalize" then
    Some match arg args 0 with
         | VStr p => (Returns (VStr (normalize p)), h)
         | _ => throw_type_error h
         end
  else if String.eqb fname "isAbsolute" then
    Some match arg args 0 with
         | VStr p => (Returns (VBool (isAbsolute p)), h)
         | _ => throw_type_error h
         end
  else if String.eqb fname "join" then
    Some match all_strings args with
         | Some ss => (Returns (VStr (join ss)), h)
         | None => throw_type_error h
         end
  else if String.eqb fname "resolve" then
    Some match resolve cwd args with
         | Some r => (Returns (VStr r), h)
         | None => throw_type_error h
         end
  else if String.eqb fname "relative" then
    Some match arg args 0, arg args 1 with
         | VStr f, VStr t => (Returns (VStr (relative cwd f t)), h)
         | _, _ => throw_type_error h
         end
  else if String.eqb fname "parse" then
    Some match arg args 0 with
         | VStr p =>
             (Returns (VRef (List.length h)), (h ++ [parsed_obj (parse p)])%list)
         | _ => throw_type_error h
         end
  else if String.eqb fname "format" then
    Some match arg args 0 with
         | VRef l => (Returns (VStr (format_fields h (VRef l))), h)
         | _ => throw_type_error h
         end
  else None.

End NodePosix.

(** A host whose [path] module is [NodePosix] (working directory [cwd]);
    every other primitive is answered by [other]. *)
Definition node_host {FS : Type} (cwd : string) (other : host_fn FS) : host_fn FS :=
  fun fname args st =>
    match NodePosix.path_prim cwd fname args (snd st) with
    | Some (r, h') => (r, (fst st, h'))
    | None => other fname args st
    end.

(** ** [mkdir] on an existing directory

    The doc comment of [mkdir] in [promises.ts] quotes the platform
    contract: "Calling [fsPromises.mkdir()] when [path] is a directory that
    exists results in a rejection only when [recursive] is false." *)

Module MkdirContract.

(** [options.recursive], read as a condition ([undefined] for a numeric
    mode or a missing option). *)
Definition recursive_option (h : heap) (options : value) : bool :=
  truthy (get h options "recursive").

Definition mkdir_contract {FS : Type} (is_dir : FS -> value -> Prop)
    (host : host_fn FS) : Prop :=
  forall p options fs h, is_dir fs p ->
    (recursive_option h options = false ->
       exists e st', host "mkdir" [p; options] (fs, h) = (Throws e, st')) /\
    (recursive_option h options = true ->
       exists v st', host "mkdir" [p; options] (fs, h) = (Returns v, st')).

(** A small host whose file system is the list of existing directories. *)
Definition dir_is (fs : list string) (p : value) : Prop :=
  match p with VStr s => In s fs | _ => False end.

Definition dirs_host : host_fn (list string) :=
  fun fname args st =>
    let '(fs, h) := st in
    if String.eqb fname "mkdir" then
      match args with
      | [VStr p; options] =>
          if existsb (String.eqb p) fs then
            if recursive_option h options then (Returns VUndefined, (fs, h))
            else (Throws (VRef (List.length h)),
                  (fs, h ++ [OError ("EEXIST: file already exists, mkdir " ++ p)
                                (Some "EEXIST")])%list)
          else (Returns VUndefined, (p :: fs, h))
      | _ => (Throws (VRef (List.length h)),
              (fs, h ++ [OError "The argument must be of type string"
                           (Some "ERR_INVALID_ARG_TYPE")])%list)
      end
    else (Returns VUndefined, (fs, h)).

End MkdirContract.

(** ** Sample hosts and worlds *)

Module Hosts.

(** Every primitive settles with [v]. *)
Definition resolves_with (v : value) : host_fn unit :=
  fun _ _ st => (Returns v, st).

(** Every primitive rejects with a freshly created system error. *)
Definition rejects_with_system_error (code message : string) : host_fn unit :=
  fun _ _ st =>
    (Throws (VRef (List.length (snd st))),
     (fst st, snd st ++ [OError message (Some code)])%list).

(** Every primitive throws the value [v] (a string, a number, ...). *)
Definition throws_value (v : value) : host_fn unit :=
  fun _ _ st => (Throws v, st).

Definition w0 : world unit := mkWorld tt [] [].

End Hosts.

(** ** Shape of a path as [posix.parse] scans it

    A non-empty path that is not made of slashes only is [X ++ seg ++ T]:
    [T] its trailing slashes, [seg] its last segment (no slash) and [X]
    empty or ending in a slash. [seg_scan seg] is what the backward scan of
    [posix.parse] learns about the dots of [seg]: the index of its last dot
    (relative to [seg]) and [preDotState]. *)

Module ParseShape.

Fixpoint all_slash (s : string) : Prop :=
  match s with
  | EmptyString => True
  | String c s' => c = "/"%char /\ all_slash s'
  end.

Fixpoint no_slash (s : string) : Prop :=
  match s with
  | EmptyString => True
  | String c s' => c <> "/"%char /\ no_slash s'
  end.

Definition ends_slash (X : string) : Prop :=
  X = EmptyString \/ exists X0, X = X0 ++ "/".

Fixpoint seg_scan (s : string) : option nat * Z :=
  match s with
  | EmptyString => (None, 0%Z)
  | String c s' =>
      let '(sd, pds) := seg_scan s' in
      match sd with
      | None => if Ascii.eqb c "."%char then (Some 0, pds) else (None, pds)
      | Some r =>
          (Some (S r),
           if Ascii.eqb c "."%char then (if negb (pds =? 1)%Z then 1%Z else pds)
           else (-1)%Z)
      end
  end.

Definition abs_index (n : nat) (rel : option nat) : Z :=
  match rel with None => (-1)%Z | Some r => Z.of_nat (n + r) end.

Definition starts_slash (X : string) : bool :=
  match X with
  | String c _ => Ascii.eqb c "/"%char
  | EmptyString => false
  end.

(** What [posix.parse] returns on [X ++ seg ++ T], read off the shape:
    the scan stops at the slash ending [X] (at index 0 of an absolute
    path it stops before it), and the fields are slices of [X] and
    [seg]. *)
Definition shape_parse (X seg : string) : NodePosix.parsed :=
  let isAbsolute := starts_slash X in
  let startPart := if String.eqb X "/" then 0%Z else NodePosix.len X in
  let end_ := (NodePosix.len X + NodePosix.len seg)%Z in
  let startDot := abs_index (String.length X) (fst (seg_scan seg)) in
  let preDotState := snd (seg_scan seg) in
  let '(base, ext, name) :=
    if ((startDot =? -1)%Z || (preDotState =? 0)%Z
        || ((preDotState =? 1)%Z && (startDot =? end_ - 1)%Z
            && (startDot =? startPart + 1)%Z))%bool
    then (seg, "", seg)
    else (seg, NodePosix.slice seg (startDot - NodePosix.len X) (NodePosix.len seg),
          NodePosix.slice seg 0 (startDot - NodePosix.len X)) in
  NodePosix.mkParsed (if isAbsolute then "/" else "")
    (if (0 <? startPart)%Z then NodePosix.slice X 0 (startPart - 1)
     else if isAbsolute then "/" else "")
    seg ext name.

(** [posix.format] of the object [posix.parse] returned for [r]. *)
Definition format_parsed (r : NodePosix.parsed) : string :=
  NodePosix.format_fields [NodePosix.parsed_obj r] (VRef 0).

(** [posix.parse('//..')]: the parsed path whose [format] re-parses
    differently. *)
Definition parse_dotdot_quirk : NodePosix.parsed :=
  NodePosix.mkParsed "/" "/" ".." "" "..".

End ParseShape.

(** ** [posix.basename], [posix.dirname] and [posix.extname]

    The three remaining [path] functions the wrappers of [part_000] call,
    translated from Node's [lib/path.js] (posix). *)

Module NodePosixNames.

Import NodePosix.

(** The loop [for (i = path.length - 1; i >= 0; --i)] of
    [posix.basename(path)] without a suffix; returns [start] and [end]. *)
Fixpoint basename_loop (path : string) (fuel : nat) (i start end_ : Z)
    (matchedSlash : bool) : Z * Z :=
  match fuel with
  | O => (start, end_)
  | S fuel' =>
      if (i <? 0)%Z then (start, end_)
      else if is_slash path i then
        if negb matchedSlash then ((i + 1)%Z, end_)
        else basename_loop path fuel' (i - 1) start end_ matchedSlash
      else if (end_ =? -1)%Z then
        basename_loop path fuel' (i - 1) start (i + 1) false
      else basename_loop path fuel' (i - 1) start end_ matchedSlash
  end.

(** The loop of [posix.basename(path, suffix)] when
    [0 < suffix.length <= path.length]; returns [start], [end] and
    [firstNonSlashEnd]. *)
Fixpoint basename_suffix_loop (path suffix : string) (fuel : nat)
    (i start end_ : Z) (matchedSlash : bool) (extIdx firstNonSlashEnd : Z)
  : Z * Z * Z :=
  match fuel with
  | O => (start, end_, firstNonSlashEnd)
  | S fuel' =>
      if (i <? 0)%Z then (start, end_, firstNonSlashEnd)
      else if is_slash path i then
        if negb matchedSlash then ((i + 1)%Z, end_, firstNonSlashEnd)
        else basename_suffix_loop path suffix fuel' (i - 1) start end_
               matchedSlash extIdx firstNonSlashEnd
      else
        let '(matchedSlash', firstNonSlashEnd') :=
          if (firstNonSlashEnd =? -1)%Z then (false, (i + 1)%Z)
          else (matchedSlash, firstNonSlashEnd) in
        let '(extIdx', end') :=
          if (0 <=? extIdx)%Z then
            if code_eqb (char_at path i) (char_at suffix extIdx) then
              if (extIdx - 1 =? -1)%Z then ((extIdx - 1)%Z, i)
              else ((extIdx - 1)%Z, end_)
            else ((-1)%Z, firstNonSlashEnd')
          else (extIdx, end_) in
        basename_suffix_loop path suffix fuel' (i - 1) start end' matchedSlash'
          extIdx' firstNonSlashEnd'
  end.

(** [posix.basename(path, suffix)] for a string [path]; [suffix] is [None]
    when it is [undefined]. *)
Definition basename (path : string) (suffix : option string) : string :=
  let plain :=
    let '(start, end_) :=
      basename_loop path (String.length path) (len path - 1)%Z 0%Z (-1)%Z true in
    if (end_ =? -1)%Z then "" else slice path start end_ in
  match suffix with
  | Some sfx =>
      if ((0 <? len sfx)%Z && (len sfx <=? len path)%Z)%bool then
        if String.eqb sfx path then "" else
        let '(start, end_, firstNonSlashEnd) :=
          basename_suffix_loop path sfx (String.length path) (len path - 1)%Z
            0%Z (-1)%Z true (len sfx - 1)%Z (-1)%Z in
        let end' :=
          if (start =? end_)%Z then firstNonSlashEnd
          else if (end_ =? -1)%Z then len path
          else end_ in
        slice path start end'
      else plain
  | None => plain
  end.

(** The loop [for (i = path.length - 1; i >= 1; --i)] of
    [posix.dirname(path)]; returns [end]. *)
Fixpoint dirname_loop (path : string) (fuel : nat) (i end_ : Z)
    (matchedSlash : bool) : Z :=
  match fuel with
  | O => end_
  | S fuel' =>
      if (i <? 1)%Z then end_
      else if is_slash path i then
        if negb matchedSlash then i
        else dirname_loop path fuel' (i - 1) end_ matchedSlash
      else dirname_loop path fuel' (i - 1) end_ false
  end.

(** [posix.dirname(path)] for a string [path]. *)
Definition dirname (path : string) : string :=
  if (len path =? 0)%Z then "." else
  let hasRoot := is_slash path 0 in
  let end_ := dirname_loop path (String.length path) (len path - 1)%Z (-1)%Z true in
  if (end_ =? -1)%Z then (if hasRoot then "/" else ".")
  else if (hasRoot && (end_ =? 1)%Z)%bool then "//"
  else slice path 0 end_.

(** The loop [for (i = path.length - 1; i >= 0; --i)] of
    [posix.extname(path)]; returns [startDot], [startPart], [end] and
    [preDotState]. *)
Fixpoint extname_loop (path : string) (fuel : nat) (i : Z)
    (startDot startPart end_ : Z) (matchedSlash : bool) (preDotState : Z)
  : Z * Z * Z * Z :=
  match fuel with
  | O => (startDot, startPart, end_, preDotState)
  | S fuel' =>
      if (i <? 0)%Z then (startDot, startPart, end_, preDotState)
      else if is_slash path i then
        if negb matchedSlash then (startDot, i + 1, end_, preDotState)%Z
        else extname_loop path fuel' (i - 1) startDot startPart end_
               matchedSlash preDotState
      else
        let '(end', matchedSlash') :=
          if (end_ =? -1)%Z then ((i + 1)%Z, false) else (end_, matchedSlash) in
        let '(startDot', preDotState') :=
          if is_dot path i then
            if (startDot =? -1)%Z then (i, preDotState)
            else if negb (preDotState =? 1)%Z then (startDot, 1%Z)
            else (startDot, preDotState)
          else if negb (startDot =? -1)%Z then (startDot, (-1)%Z)
          else (startDot, preDotState) in
        extname_loop path fuel' (i - 1) startDot' startPart end'
          matchedSlash' preDotState'
  end.

(** [posix.extname(path)] for a string [path]. *)
Definition extname (path : string) : string :=
  let '(startDot, startPart, end_, preDotState) :=
    extname_loop path (String.length path) (len path - 1)%Z (-1)%Z 0%Z (-1)%Z true 0%Z in
  if ((startDot =? -1)%Z || (end_ =? -1)%Z || (preDotState =? 0)%Z
      || ((preDotState =? 1)%Z && (startDot =? end_ - 1)%Z
          && (startDot =? startPart + 1)%Z))%bool
  then ""
  else slice path startDot end_.

End NodePosixNames.

(** [posix.parse('/..')]: the one parsed path whose [ext] is not what
    [posix.extname] returns. *)
Definition parsed_root_dotdot : NodePosix.parsed :=
  NodePosix.mkParsed "/" "/" ".." "." ".".

(** ** Segments of a normalized path *)

Module PathSegments.

Import NodePosix ParseShape.

(** Every character is a ['.']. *)
Fixpoint all_dots (s : string) : bool :=
  match s with
  | EmptyString => true
  | String c s' => Ascii.eqb c "."%char && all_dots s'
  end.

(** What the [dots] counter of [normalizeString] holds once it has read
    the characters [s] of the current segment. *)
Definition dots_of (s : string) : Z := if all_dots s then len s else (-1)%Z.

(** A segment [normalizeString] may write: not empty, without a
    separator, not ['.'], and ['..'] only when [allowAboveRoot]. *)
Definition seg_ok (allowAboveRoot : bool) (w : string) : Prop :=
  w <> "" /\ no_slash w /\ w <> "." /\ (w = ".." -> allowAboveRoot = true).

(** A string [normalizeString] may return: segments allowed by [seg_ok]
    joined by single separators. *)
Definition canonical (allowAboveRoot : bool) (s : string) : Prop :=
  exists l, Forall (seg_ok allowAboveRoot) l /\ s = String.concat "/" l.

(** [s.split('/')]; [cur] is the part of the current piece already read. *)
Fixpoint split_aux (s cur : string) : list string :=
  match s with
  | EmptyString => [cur]
  | String c s' =>
      if Ascii.eqb c "/"%char then cur :: split_aux s' ""
      else split_aux s' (cur ++ String c "")
  end.

Definition split_segs (s : string) : list string := split_aux s "".

(** The documented reading of [normalizeString], one segment at a time, on
    a stack of the segments kept so far (last one first): empty and ['.']
    segments are dropped, ['..'] removes the segment before it, or is kept
    when there is none to remove and [allowAboveRoot] holds. *)
Definition norm_step (allowAboveRoot : bool) (st : list string) (w : string)
  : list string :=
  if (String.eqb w "" || String.eqb w ".")%bool then st
  else if String.eqb w ".." then
    match st with
    | top :: rest =>
        if String.eqb top ".." then (if allowAboveRoot then ".." :: st else st)
        else rest
    | [] => if allowAboveRoot then [".."] else []
    end
  else w :: st.

Definition norm_spec (allowAboveRoot : bool) (path : string) : string :=
  String.concat "/" (rev (fold_left (norm_step allowAboveRoot) (split_segs path) [])).

(** What the loop of [normalizeString] keeps in [res] and
    [lastSegmentLength] for a stack [st] of segments. *)
Definition stack_inv (st : list string) (res : string) (lastSegmentLength : Z) : Prop :=
  res = String.concat "/" (rev st) /\
  Forall (fun w => w <> "" /\ no_slash w) st /\
  match st with w :: _ => lastSegmentLength = len w | [] => True end.

(** A segment [norm_step] keeps as it is: not empty, without a separator,
    neither ['.'] nor ['..']. *)
Definition plain_seg (w : string) : Prop :=
  w <> "" /\ no_slash w /\ w <> "." /\ w <> "..".

(** The stacks [norm_step] builds: plain segments above a run of ['..'],
    which is empty unless [allowAboveRoot]. *)
Definition normal_stack (allowAboveRoot : bool) (st : list string) : Prop :=
  exists names ups, st = (names ++ ups)%list /\ Forall plain_seg names /\
    Forall (eq "..") ups /\ (allowAboveRoot = false -> ups = []).

End PathSegments.


(** * Properties of the wrappers *)

Ltac unfold_wrappers :=
  unfold FsPromises.access, FsPromises.appendFile, FsPromises.chmod,
    FsPromises.chown, FsPromises.copyFile, FsPromises.cp, FsPromises.lchown,
    FsPromises.lutimes, FsPromises.link, FsPromises.lstat, FsPromises.mkdir,
    FsPromises.mkdtemp, FsPromises.open, FsPromises.opendir,
    FsPromises.readdir, FsPromises.readFile, FsPromises.readLink,
    FsPromises.realpath, FsPromises.rename, FsPromises.rmdir, FsPromises.rm,
    FsPromises.stat, FsPromises.symlink, FsPromises.truncate,
    FsPromises.unlink, FsPromises.utimes, FsPromises.writeFile,
    PathW.basename, PathW.dirname, PathW.extname, PathW.format,
    PathW.isAbsolute, PathW.join, PathW.normalize, PathW.parse,
    PathW.relative, PathW.resolve.

Section RunFacts.

Context {FS : Type} (host : host_fn FS).

(** Every wrapper performs its primitive call once and settles. *)
Lemma run_spec (c : call) (w : world FS) :
  run host c w =
  let '(r, (fs', h')) := host (fst (prim_of c)) (snd (prim_of c)) (w_fs w, w_heap w) in
  settle c r (mkWorld fs' h' (w_trace w ++ [prim_of c])%list).
Proof.
  destruct c; unfold run; unfold_wrappers;
    unfold tryCatch, then_, invoke, bind, ret, toError, new_Error;
    destruct (host _ _ _) as [[v | e] [fs' h']]; cbn -[instanceof_Error];
    try reflexivity; destruct (instanceof_Error _ _); reflexivity.
Qed.


Lemma run_answer (c : call) (w : world FS) :
  run host c w = settle c (fst (answer host c w)) (after_call c w (snd (answer host c w))).
Proof.
  rewrite run_spec. unfold answer, after_call.
  destruct (host _ _ _) as [r [fs' h']]. reflexivity.
Qed.

Lemma run_success (c : call) (w : world FS) (v : value) (st' : FS * heap) :
  answer host c w = (Returns v, st') ->
  run host c w =
  (Right (match echo_of c with Some e => e | None => v end), after_call c w st').
Proof. intros H. rewrite run_answer, H. reflexivity. Qed.

Lemma run_throws (c : call) (w : world FS) (e : value) (st' : FS * heap) :
  answer host c w = (Throws e, st') ->
  run host c w =
  if instanceof_Error (snd st') e then (Left e, after_call c w st')
  else (Left (VRef (List.length (snd st'))),
        mkWorld (fst st') (snd st' ++ [OError (default_message c) None])%list
          (w_trace w ++ [prim_of c])%list).
Proof. intros H. rewrite run_answer, H. reflexivity. Qed.

Lemma nth_error_snoc {A} (l : list A) (x : A) :
  nth_error (l ++ [x])%list (List.length l) = Some x.
Proof. rewrite nth_error_app2, Nat.sub_diag by lia. reflexivity. Qed.

Lemma instanceof_Error_snoc (h : heap) (x : obj) (v : value) :
  instanceof_Error h v = true -> instanceof_Error (h ++ [x])%list v = true.
Proof.
  destruct v as [| | | | | l]; try discriminate. simpl.
  destruct (nth_error h l) eqn:E; try discriminate.
  rewrite (nth_error_app1 h [x]); [rewrite E; auto |].
  apply nth_error_Some. congruence.
Qed.

End RunFacts.

Section WrapperFacts.

Context {FS : Type} (host : host_fn FS).

(** C1: when the primitive call of a wrapper settles with a value [v], the
    outcome is [Right]: [v] itself, or for the wrappers that end in
    [.then(() => x)] (void primitives) the designated input [x]. *)
Theorem wrapper_success_payload (c : call) (w : world FS) (v : value)
    (st' : FS * heap) (Hret : answer host c w = (Returns v, st')) :
  fst (run host c w) = Right (match echo_of c with Some e => e | None => v end).
Proof. rewrite (run_success host c w v st' Hret). reflexivity. Qed.

(** C2: when the primitive throws or rejects with an [Error] object [e],
    the outcome is [Left e]: the very same reference, and no object is
    allocated (the heap is the one the primitive left). *)
Theorem wrapper_forwards_structured_error (c : call) (w : world FS) (e : value)
    (st' : FS * heap) (Hthrow : answer host c w = (Throws e, st'))
    (Herr : instanceof_Error (snd st') e = true) :
  run host c w = (Left e, after_call c w st').
Proof. rewrite (run_throws host c w e st' Hthrow), Herr. reflexivity. Qed.

(** C3: when the primitive throws or rejects with a value that is not an
    [Error], the outcome is [Left] of a freshly allocated [Error] whose
    message is the wrapper's default message; the defaults are
    "Unexpected error getting basename" for [basename] and the empty string
    for [lstat], [mkdir] and [open]. *)
Theorem wrapper_generic_error (c : call) (w : world FS) (e : value)
    (st' : FS * heap) (Hthrow : answer host c w = (Throws e, st'))
    (Hnot : instanceof_Error (snd st') e = false) :
  (exists l w',
     run host c w = (Left (VRef l), w') /\
     nth_error (snd st') l = None /\
     nth_error (w_heap w') l = Some (OError (default_message c) None) /\
     get (w_heap w') (VRef l) "message" = VStr (default_message c)) /\
  (forall p x, default_message (Basename p x) = "Unexpected error getting basename") /\
  (forall p o, default_message (Lstat p o) = "") /\
  (forall p o, default_message (Mkdir p o) = "") /\
  (forall p f m, default_message (Open p f m) = "").
Proof.
  rewrite (run_throws host c w e st' Hthrow), Hnot.
  split; [| repeat split].
  exists (List.length (snd st')).
  eexists; split; [reflexivity |]. cbn [w_heap].
  split; [apply nth_error_None; lia |].
  split; [apply nth_error_snoc |].
  unfold get. rewrite nth_error_snoc. reflexivity.
Qed.

(** C5: every wrapper is total (its outcome is an [either], whatever the
    primitive does), and a [Left] payload is always an [Error] object. *)
Theorem wrapper_left_is_Error (c : call) (w : world FS) :
  match run host c w with
  | (Left e, w') => instanceof_Error (w_heap w') e = true
  | (Right _, _) => True
  end.
Proof.
  rewrite run_answer.
  destruct (answer host c w) as [[v | e] st']; cbn -[instanceof_Error]; [exact I |].
  destruct (instanceof_Error (snd st') e) eqn:E; cbn -[instanceof_Error]; [exact E |].
  unfold instanceof_Error. rewrite nth_error_snoc. reflexivity.
Qed.

(** C6: running a wrapper performs exactly one host call, the primitive of
    the wrapper with the wrapper's arguments (no retry, no batching), and the
    outcome, a single value, is determined by that one call's answer. *)
Theorem wrapper_single_call (c : call) (w : world FS) :
  w_trace (snd (run host c w)) = (w_trace w ++ [prim_of c])%list /\
  (forall host' : host_fn FS,
     answer host' c w = answer host c w -> run host' c w = run host c w).
Proof.
  split.
  - rewrite run_answer.
    destruct (answer host c w) as [[v | e] st']; cbn -[instanceof_Error]; [reflexivity |].
    destruct (instanceof_Error _ _); reflexivity.
  - intros host' Hsame. rewrite (run_answer host' c w), (run_answer host c w), Hsame.
    reflexivity.
Qed.


(** C4 (amended): [access], [appendFile], [chmod], [chown], [lchown],
    [lutimes] and [mkdir] yield their [path] argument on success, [copyFile]
    and [cp] their [dest], [link] its [newPath]; [rename], [rmdir], [rm],
    [symlink], [truncate], [unlink], [utimes] and [writeFile] yield the
    primitive's own result (which is [undefined]), not a path. *)
Theorem void_wrappers_success_payload (w : world FS) (a b d : value) :
  yields_on_success host (Access a b) w (fun _ => a) /\
  yields_on_success host (AppendFile a b d) w (fun _ => a) /\
  yields_on_success host (Chmod a b) w (fun _ => a) /\
  yields_on_success host (Chown a b d) w (fun _ => a) /\
  yields_on_success host (CopyFile a b d) w (fun _ => b) /\
  yields_on_success host (Cp a b d) w (fun _ => b) /\
  yields_on_success host (Lchown a b d) w (fun _ => a) /\
  yields_on_success host (Lutimes a b d) w (fun _ => a) /\
  yields_on_success host (Link a b) w (fun _ => b) /\
  yields_on_success host (Mkdir a b) w (fun _ => a) /\
  yields_on_success host (Rename a b) w (fun v => v) /\
  yields_on_success host (Rmdir a b) w (fun v => v) /\
  yields_on_success host (Rm a b) w (fun v => v) /\
  yields_on_success host (Symlink a b d) w (fun v => v) /\
  yields_on_success host (Truncate a b) w (fun v => v) /\
  yields_on_success host (Unlink a) w (fun v => v) /\
  yields_on_success host (Utimes a b d) w (fun v => v) /\
  yields_on_success host (WriteFile a b d) w (fun v => v).
Proof.
  repeat split; intros v st' H; rewrite (run_success host _ w v st' H); reflexivity.
Qed.

End WrapperFacts.

(** C1 witness: [readFile] on a host whose call settles with the contents. *)
Lemma wrapper_success_payload_witness :
  fst (run (Hosts.resolves_with (VStr "file contents"))
         (ReadFile (VStr "notes.txt") VUndefined) Hosts.w0)
  = Right (VStr "file contents").
Proof.
  apply (wrapper_success_payload (Hosts.resolves_with (VStr "file contents"))
           (ReadFile (VStr "notes.txt") VUndefined) Hosts.w0
           (VStr "file contents") (tt, [])).
  reflexivity.
Defined.

(** C2 witness: [writeFile] on a path lacking permission, the host
    rejecting with an EACCES system error. *)
Lemma wrapper_forwards_structured_error_witness :
  run (Hosts.rejects_with_system_error "EACCES" "EACCES: permission denied")
    (WriteFile (VStr "/etc/shadow") (VStr "x") VUndefined) Hosts.w0
  = (Left (VRef 0),
     mkWorld tt [OError "EACCES: permission denied" (Some "EACCES")]
       [("writeFile", [VStr "/etc/shadow"; VStr "x"; VUndefined])]).
Proof.
  apply (wrapper_forwards_structured_error
           (Hosts.rejects_with_system_error "EACCES" "EACCES: permission denied")
           (WriteFile (VStr "/etc/shadow") (VStr "x") VUndefined) Hosts.w0
           (VRef 0) (tt, [OError "EACCES: permission denied" (Some "EACCES")]));
    reflexivity.
Defined.

(** C3 witness: [basename] on a host that throws a string. *)
Lemma wrapper_generic_error_witness :
  exists l w',
    run (Hosts.throws_value (VStr "boom")) (Basename (VStr "/a/b/c.txt") VUndefined)
      Hosts.w0 = (Left (VRef l), w') /\
    nth_error (w_heap w') l = Some (OError "Unexpected error getting basename" None).
Proof.
  destruct (proj1 (wrapper_generic_error (Hosts.throws_value (VStr "boom"))
           (Basename (VStr "/a/b/c.txt") VUndefined) Hosts.w0
           (VStr "boom") (tt, []) eq_refl eq_refl))
    as (l & w' & Hrun & _ & Hl & _).
  exists l, w'. split; [exact Hrun | exact Hl].
Defined.

(** C4: [rename], [symlink] and [writeFile] succeed with [undefined], not
    with a path argument. *)
Lemma rename_symlink_writeFile_no_echo :
  fst (run (Hosts.resolves_with VUndefined)
         (Rename (VStr "old.txt") (VStr "new.txt")) Hosts.w0) = Right VUndefined /\
  fst (run (Hosts.resolves_with VUndefined)
         (Rename (VStr "old.txt") (VStr "new.txt")) Hosts.w0) <> Right (VStr "new.txt") /\
  fst (run (Hosts.resolves_with VUndefined)
         (Rename (VStr "old.txt") (VStr "new.txt")) Hosts.w0) <> Right (VStr "old.txt") /\
  fst (run (Hosts.resolves_with VUndefined)
         (Symlink (VStr "target") (VStr "link") VUndefined) Hosts.w0)
    <> Right (VStr "link") /\
  fst (run (Hosts.resolves_with VUndefined)
         (WriteFile (VStr "out.txt") (VStr "data") VUndefined) Hosts.w0)
    <> Right (VStr "out.txt").
Proof. vm_compute. repeat split; discriminate. Qed.

(** ** The path wrappers on a posix host *)

Section PosixPath.

Context {FS : Type} (other : host_fn FS) (cwd : string).

Let host := node_host cwd other.

Lemma all_strings_empties (segs : list value) :
  Forall (fun v => v = VStr "") segs ->
  NodePosix.all_strings segs = Some (map (fun _ => "") segs).
Proof.
  induction 1 as [| v segs Hv _ IH]; [reflexivity |].
  subst v. cbn [NodePosix.all_strings]. rewrite IH. reflexivity.
Qed.

Lemma join_acc_empties (joined : option string) (segs : list value) :
  NodePosix.join_acc joined (map (fun _ => "") segs) = joined.
Proof. induction segs as [| v segs IH]; [reflexivity | exact IH]. Qed.

Lemma posix_join_empties (segs : list value) :
  NodePosix.join (map (fun _ => "") segs) = ".".
Proof.
  unfold NodePosix.join. destruct segs as [| v segs]; [reflexivity |].
  simpl map. cbn -[map]. rewrite (join_acc_empties None segs). reflexivity.
Qed.

(** C8: [normalize("")] succeeds with ["."], and [join] of no segment or
    of zero-length segments only succeeds with ["."]. *)
Theorem normalize_join_empty (w : world FS) :
  fst (run host (Normalize (VStr "")) w) = Right (VStr ".") /\
  (forall segs : list value,
     Forall (fun v => v = VStr "") segs ->
     fst (run host (Join segs) w) = Right (VStr ".")).
Proof.
  split.
  - rewrite run_answer. reflexivity.
  - intros segs Hsegs. rewrite run_answer.
    unfold answer, host, node_host. cbn [prim_of fst snd].
    unfold NodePosix.path_prim. cbn -[NodePosix.join NodePosix.all_strings].
    rewrite (all_strings_empties segs Hsegs), posix_join_empties. reflexivity.
Qed.

(** C9: [relative(p, p)] succeeds with the empty string, and so does
    [relative(from, to)] whenever [from] and [to] resolve to the same path
    against the working directory. *)
Theorem relative_same_path (w : world FS) (p from to : string) :
  fst (run host (Relative (VStr p) (VStr p)) w) = Right (VStr "") /\
  (NodePosix.resolve cwd [VStr from] = NodePosix.resolve cwd [VStr to] ->
   fst (run host (Relative (VStr from) (VStr to)) w) = Right (VStr "")).
Proof.
  split.
  - rewrite run_answer. unfold answer, host, node_host. cbn [prim_of fst snd].
    unfold NodePosix.path_prim. cbn -[NodePosix.relative].
    unfold NodePosix.relative. rewrite String.eqb_refl. reflexivity.
  - intros Hres. rewrite run_answer. unfold answer, host, node_host.
    cbn [prim_of fst snd].
    unfold NodePosix.path_prim. cbn -[NodePosix.relative].
    unfold NodePosix.relative, NodePosix.resolve1. rewrite Hres.
    destruct (String.eqb from to); [reflexivity |].
    rewrite String.eqb_refl. reflexivity.
Qed.

End PosixPath.

(** ** [mkdir] on an existing directory *)

Section MkdirExisting.

Import MkdirContract.

Context {FS : Type} (is_dir : FS -> value -> Prop) (host : host_fn FS).

(** C10: on a platform that honours the documented [mkdir] contract,
    [mkdir(path, options)] on an existing directory is a failure when
    [options.recursive] is false, and a success yielding [path] when it is
    true: the wrapper rejects only when [recursive] is false. *)
Theorem mkdir_existing_directory (Hc : mkdir_contract is_dir host)
    (path options : value) (w : world FS) (Hdir : is_dir (w_fs w) path) :
  (recursive_option (w_heap w) options = false ->
     exists e, fst (run host (Mkdir path options) w) = Left e) /\
  (recursive_option (w_heap w) options = true ->
     fst (run host (Mkdir path options) w) = Right path).
Proof.
  destruct (Hc path options (w_fs w) (w_heap w) Hdir) as [Hnr Hr].
  split.
  - intros Hf. destruct (Hnr Hf) as (e & st' & He).
    rewrite (run_throws host (Mkdir path options) w e st' He).
    destruct (instanceof_Error _ _); eexists; reflexivity.
  - intros Ht. destruct (Hr Ht) as (v & st' & Hv).
    rewrite (run_success host (Mkdir path options) w v st' Hv). reflexivity.
Qed.

End MkdirExisting.

Lemma dirs_host_contract :
  MkdirContract.mkdir_contract MkdirContract.dir_is MkdirContract.dirs_host.
Proof.
  intros p options fs h Hdir.
  destruct p as [| | | | s |]; try contradiction.
  assert (Hin : existsb (String.eqb s) fs = true).
  { apply existsb_exists. exists s. split; [exact Hdir | apply String.eqb_refl]. }
  unfold MkdirContract.dirs_host. cbn -[existsb MkdirContract.recursive_option].
  rewrite Hin. split; intros Hrec; rewrite Hrec; eauto.
Qed.

(** C10 witness: [mkdir("/tmp/a", {recursive: false})] when [/tmp/a] is a
    directory. *)
Lemma mkdir_existing_directory_witness :
  exists e,
    fst (run MkdirContract.dirs_host
           (Mkdir (VStr "/tmp/a") (VRef 0))
           (mkWorld ["/tmp/a"] [ORecord [("recursive", VBool false)]] [])) = Left e.
Proof.
  apply (proj1 (mkdir_existing_directory MkdirContract.dir_is MkdirContract.dirs_host
                  dirs_host_contract (VStr "/tmp/a") (VRef 0)
                  (mkWorld ["/tmp/a"] [ORecord [("recursive", VBool false)]] [])
                  (or_introl eq_refl))).
  reflexivity.
Defined.

(** ** [posix.parse] on the shape [X ++ seg ++ T] *)

Module ParseFacts.

Import NodePosix ParseShape.

Local Open Scope string_scope.

Lemma length_app (a b : string) : String.length (a ++ b) = String.length a + String.length b.
Proof. induction a; simpl; auto. Qed.

Lemma app_assoc_s (a b c : string) : (a ++ b) ++ c = a ++ (b ++ c).
Proof. induction a; simpl; congruence. Qed.

Lemma app_nil_r_s (a : string) : a ++ "" = a.
Proof. induction a; simpl; congruence. Qed.

Lemma get_app_r (a b : string) (k : nat) :
  String.get (String.length a + k) (a ++ b) = String.get k b.
Proof. induction a; simpl; auto. Qed.

Lemma substring_app_r (a b : string) (k m : nat) :
  substring (String.length a + k) m (a ++ b) = substring k m b.
Proof. induction a; simpl; auto. Qed.

Lemma substring_prefix (a b : string) : substring 0 (String.length a) (a ++ b) = a.
Proof. induction a; simpl; [destruct b; reflexivity | congruence]. Qed.

Lemma char_at_nat (s : string) (k : nat) : char_at s (Z.of_nat k) = String.get k s.
Proof.
  unfold char_at. rewrite (proj2 (Z.ltb_ge _ _)) by lia.
  rewrite Nat2Z.id. reflexivity.
Qed.

Lemma char_at_app (a b : string) (k : nat) :
  char_at (a ++ b) (Z.of_nat (String.length a + k)) = String.get k b.
Proof. rewrite char_at_nat, get_app_r. reflexivity. Qed.

Lemma len_app (a b : string) : len (a ++ b) = (len a + len b)%Z.
Proof. unfold len. rewrite length_app. lia. Qed.

Lemma len_nat (a : string) : len a = Z.of_nat (String.length a).
Proof. reflexivity. Qed.

Lemma is_slash_at (A r : string) (c : Ascii.ascii) :
  is_slash (A ++ String c r) (len A) = Ascii.eqb c "/"%char.
Proof.
  unfold is_slash. rewrite len_nat, <- (Nat.add_0_r (String.length A)), char_at_app.
  reflexivity.
Qed.

Lemma is_dot_at (A r : string) (c : Ascii.ascii) :
  is_dot (A ++ String c r) (len A) = Ascii.eqb c "."%char.
Proof.
  unfold is_dot. rewrite len_nat, <- (Nat.add_0_r (String.length A)), char_at_app.
  reflexivity.
Qed.

Lemma snoc_app (A r : string) (c : Ascii.ascii) :
  A ++ String c r = (A ++ String c "") ++ r.
Proof. rewrite app_assoc_s. reflexivity. Qed.

Lemma len_snoc (A : string) (c : Ascii.ascii) : len (A ++ String c "") = (len A + 1)%Z.
Proof. rewrite len_app. reflexivity. Qed.

Section Scan.

Variable start : Z.

(** The trailing slashes are skipped. *)
Lemma slash_phase (T A : string) (fuel : nat) (sd sp e pds : Z) :
  all_slash T -> (start <= len A)%Z -> String.length T <= fuel ->
  parse_loop (A ++ T) start fuel (len A + len T - 1) sd sp e true pds =
  parse_loop (A ++ T) start (fuel - String.length T) (len A - 1) sd sp e true pds.
Proof.
  revert A fuel. induction T as [| c T IH]; intros A fuel HT Hstart Hfuel.
  - rewrite Nat.sub_0_r. f_equal. unfold len at 2. simpl. lia.
  - destruct HT as [Hc HT]. subst c.
    rewrite (snoc_app A T "/"%char).
    replace (len A + len (String "/" T) - 1)%Z
      with (len (A ++ "/") + len T - 1)%Z
      by (rewrite ?len_app; unfold len; simpl; lia).
    rewrite (IH (A ++ "/") fuel HT) by (rewrite ?len_app; unfold len in *; simpl in *; lia).
    simpl in Hfuel. rewrite len_snoc.
    replace (fuel - String.length T) with (S (fuel - S (String.length T))) by lia.
    cbn [parse_loop].
    replace (len A + 1 - 1)%Z with (len A) by lia.
    rewrite (proj2 (Z.ltb_ge _ _)) by lia.
    rewrite <- snoc_app, is_slash_at. reflexivity.
Qed.

(** The last segment is scanned; the state records its end, its last dot
    and [preDotState]. *)
Lemma seg_phase (sg A B : string) (fuel : nat) (sp : Z) :
  no_slash sg -> sg <> "" -> (start <= len A)%Z -> String.length sg <= fuel ->
  parse_loop (A ++ sg ++ B) start fuel (len A + len sg - 1) (-1) sp (-1) true 0 =
  parse_loop (A ++ sg ++ B) start (fuel - String.length sg) (len A - 1)
    (abs_index (String.length A) (fst (seg_scan sg))) sp (len A + len sg) false
    (snd (seg_scan sg)).
Proof.
  revert A fuel. induction sg as [| c sg IH]; intros A fuel Hns Hne Hstart Hfuel;
    [congruence |].
  destruct Hns as [Hc Hns].
  destruct (string_dec sg "") as [-> | Hne'].
  - simpl in Hfuel. destruct fuel as [| fuel]; [lia |].
    replace (len A + len (String c "") - 1)%Z with (len A)
      by (unfold len; simpl; lia).
    cbn [parse_loop].
    rewrite (proj2 (Z.ltb_ge _ _)) by lia.
    change (String c "" ++ B) with (String c B).
    rewrite is_slash_at, is_dot_at.
    destruct (Ascii.eqb_spec c "/"%char) as [E | _]; [contradiction |].
    cbn -[len abs_index]. rewrite Nat.sub_0_r.
    replace (len (String c "")) with 1%Z by reflexivity.
    destruct (Ascii.eqb c "."%char); simpl fst; simpl snd; unfold abs_index;
      [rewrite Nat.add_0_r, <- len_nat |]; reflexivity.
  - change (String c sg ++ B) with (String c (sg ++ B)).
    rewrite (snoc_app A (sg ++ B) c).
    replace (len A + len (String c sg) - 1)%Z
      with (len (A ++ String c "") + len sg - 1)%Z
      by (rewrite ?len_app; unfold len; simpl; lia).
    rewrite (IH (A ++ String c "") fuel Hns Hne')
      by (rewrite ?len_app; unfold len in *; simpl in *; lia).
    rewrite <- snoc_app.
    simpl in Hfuel.
    replace (fuel - String.length sg) with (S (fuel - S (String.length sg))) by lia.
    cbn [parse_loop].
    rewrite len_snoc. replace (len A + 1 - 1)%Z with (len A) by lia.
    rewrite (proj2 (Z.ltb_ge _ _)) by lia.
    rewrite is_slash_at, is_dot_at.
    destruct (Ascii.eqb_spec c "/"%char) as [E | _]; [contradiction |].
    replace (len A + 1 + len sg)%Z with (len A + len (String c sg))%Z
      by (unfold len; simpl; lia).
    rewrite (proj2 (Z.eqb_neq _ (-1))) by (unfold len; simpl; lia).
    simpl seg_scan. rewrite length_app. simpl String.length.
    destruct (seg_scan sg) as [[r |] pds]; simpl fst; simpl snd.
    + unfold abs_index.
      rewrite (proj2 (Z.eqb_neq _ (-1))) by lia.
      replace (String.length A + 1 + r) with (String.length A + S r) by lia.
      destruct (Ascii.eqb c "."%char); [destruct (negb (pds =? 1)%Z) |];
        reflexivity.
    + unfold abs_index. rewrite Z.eqb_refl.
      destruct (Ascii.eqb c "."%char); simpl;
        [rewrite Nat.add_0_r, <- len_nat |]; reflexivity.
Qed.

End Scan.

Lemma seg_scan_none (s : string) :
  fst (seg_scan s) = None -> snd (seg_scan s) = 0%Z.
Proof.
  induction s as [| c s IH]; [reflexivity |]. simpl.
  destruct (seg_scan s) as [[r |] pds]; simpl in *; [discriminate |].
  destruct (Ascii.eqb c "."%char); simpl; [discriminate | auto].
Qed.

Lemma seg_scan_zero (s : string) (pds : Z) :
  seg_scan s = (Some 0, pds) -> pds = 0%Z.
Proof.
  destruct s as [| c s]; simpl; [discriminate |].
  pose proof (seg_scan_none s) as Hn.
  destruct (seg_scan s) as [[r |] pds']; simpl in *; [discriminate |].
  destruct (Ascii.eqb c "."%char); intros E; inversion E; subst;
    apply Hn; reflexivity.
Qed.

Lemma seg_scan_dotdot (s : string) :
  seg_scan s = (Some 1, 1%Z) -> String.length s = 2 -> s = "..".
Proof.
  destruct s as [| c [| d [| e s]]]; intros E H; simpl in H; try discriminate H.
  simpl in E.
  destruct (Ascii.eqb d "."%char) eqn:Ed; simpl in E;
    [| destruct (Ascii.eqb c "."%char); discriminate].
  destruct (Ascii.eqb c "."%char) eqn:Ec; [| discriminate].
  apply Ascii.eqb_eq in Ed. apply Ascii.eqb_eq in Ec. subst. reflexivity.
Qed.

Lemma substring_app_l (a b : string) (k m : nat) :
  k + m <= String.length a -> substring k m (a ++ b) = substring k m a.
Proof.
  revert k m. induction a as [| c a IH]; intros k m H; simpl in H.
  - destruct k, m; simpl in *; try lia; destruct b; reflexivity.
  - destruct k as [| k]; simpl.
    + destruct m as [| m]; [reflexivity |]. rewrite IH; [reflexivity | lia].
    + apply IH. lia.
Qed.

Lemma slice_app_r (X Y : string) (i j : Z) :
  (len X <= i)%Z -> slice (X ++ Y) i j = slice Y (i - len X) (j - len X).
Proof.
  intros H. unfold slice.
  replace (Z.to_nat i) with (String.length X + Z.to_nat (i - len X))
    by (unfold len in *; lia).
  rewrite substring_app_r. f_equal. f_equal. lia.
Qed.

Lemma substring_zero (s : string) (n : nat) : substring n 0 s = "".
Proof. revert n. induction s; destruct n; simpl; auto. Qed.

Lemma slice_app_l (X Y : string) (i j : Z) :
  (0 <= i)%Z -> (j <= len X)%Z -> slice (X ++ Y) i j = slice X i j.
Proof.
  intros H1 H2. unfold slice.
  destruct (Z.le_gt_cases i j).
  - apply substring_app_l. unfold len in *. lia.
  - replace (Z.to_nat (j - i)) with 0 by lia.
    rewrite !substring_zero. reflexivity.
Qed.

Lemma slice_full (X : string) : slice X 0 (len X) = X.
Proof.
  unfold slice, len. rewrite Z.sub_0_r, Nat2Z.id.
  rewrite <- (app_nil_r_s X) at 2. rewrite substring_prefix. reflexivity.
Qed.

Lemma starts_slash_app (X seg T : string) :
  ends_slash X -> no_slash seg -> seg <> "" ->
  is_slash (X ++ seg ++ T) 0 = starts_slash X.
Proof.
  intros [-> | [X0 ->]] Hns Hne.
  - destruct seg as [| c seg]; [congruence |]. destruct Hns as [Hc _].
    unfold is_slash, char_at. simpl.
    destruct (Ascii.eqb_spec c "/"%char); [contradiction | reflexivity].
  - destruct X0; reflexivity.
Qed.

Lemma ends_slash_len (X : string) :
  ends_slash X -> X <> "" -> (1 <= len X)%Z.
Proof.
  intros [-> | [X0 ->]] Hne; [congruence |].
  rewrite len_snoc. unfold len. lia.
Qed.

(** The whole scan of [posix.parse] on [X ++ seg ++ T]. *)
Lemma loop_shape (X seg T : string) (start : Z) :
  ends_slash X -> no_slash seg -> seg <> "" -> all_slash T ->
  start = (if starts_slash X then 1 else 0)%Z ->
  parse_loop (X ++ seg ++ T) start (String.length (X ++ seg ++ T))
    (len (X ++ seg ++ T) - 1) (-1) 0 (-1) true 0 =
  (abs_index (String.length X) (fst (seg_scan seg)),
   (if String.eqb X "/" then 0 else len X)%Z,
   (len X + len seg)%Z, snd (seg_scan seg)).
Proof.
  intros HX Hns Hne HT Hst.
  assert (HstX : (start <= len X)%Z).
  { destruct HX as [-> | [X0 ->]].
    - subst start. reflexivity.
    - rewrite len_snoc. destruct (starts_slash _); subst start; unfold len; lia. }
  assert (Hseg : (1 <= len seg)%Z).
  { destruct seg; [congruence |]. unfold len; simpl; lia. }
  rewrite <- (app_assoc_s X seg T).
  replace (len ((X ++ seg) ++ T) - 1)%Z with (len (X ++ seg) + len T - 1)%Z
    by (rewrite !len_app; lia).
  rewrite (slash_phase start T (X ++ seg))
    by first [assumption | rewrite ?len_app, ?length_app; unfold len in *; lia].
  replace (String.length ((X ++ seg) ++ T) - String.length T)
    with (String.length X + String.length seg) by (rewrite !length_app; lia).
  rewrite len_app, app_assoc_s.
  rewrite (seg_phase start seg X T) by (auto; lia).
  replace (String.length X + String.length seg - String.length seg)
    with (String.length X) by lia.
  destruct HX as [-> | [X0 ->]]; [reflexivity |].
  replace (String.length (X0 ++ "/")) with (S (String.length X0))
    by (rewrite length_app; simpl; lia).
  cbn [parse_loop].
  rewrite len_snoc. replace (len X0 + 1 - 1)%Z with (len X0) by lia.
  destruct (Z.ltb_spec (len X0) start) as [Hlt | Hge].
  - assert (start <= 1)%Z by (rewrite Hst; destruct (starts_slash _); lia).
    destruct X0 as [| c X0]; [| unfold len in *; simpl in *; lia].
    reflexivity.
  - destruct X0 as [| c X0]; [subst start; unfold len in Hge; simpl in Hge; lia |].
    rewrite app_assoc_s.
    change ("/" ++ seg ++ T) with (String "/" (seg ++ T)).
    rewrite is_slash_at. simpl negb. cbn iota.
    destruct (String.eqb_spec (String c X0 ++ "/") "/") as [E | _].
    + apply (f_equal String.length) in E. rewrite length_app in E.
      simpl in E. lia.
    + reflexivity.
Qed.

Lemma seg_scan_lt (s : string) (r : nat) :
  fst (seg_scan s) = Some r -> r < String.length s.
Proof.
  revert r. induction s as [| c s IH]; intros r; simpl; [discriminate |].
  destruct (seg_scan s) as [[r' |] pds]; simpl in *.
  - intros E. inversion E. specialize (IH r' eq_refl). lia.
  - destruct (Ascii.eqb c "."%char); simpl; intros E; inversion E. lia.
Qed.

Lemma start_prime (X : string) :
  ends_slash X ->
  (if (((if String.eqb X "/" then 0 else len X) =? 0)%Z && starts_slash X)%bool
   then 1%Z else (if String.eqb X "/" then 0 else len X)%Z) = len X.
Proof.
  intros [-> | [X0 ->]]; [reflexivity |].
  destruct X0 as [| c X0]; [reflexivity |].
  destruct (String.eqb_spec (String c X0 ++ "/") "/") as [E | _].
  - apply (f_equal String.length) in E. rewrite length_app in E. simpl in E. lia.
  - rewrite (proj2 (Z.eqb_neq _ 0)); [reflexivity |].
    rewrite len_snoc. unfold len. simpl. lia.
Qed.

(** [posix.parse] on [X ++ seg ++ T]. *)
Lemma parse_shape (X seg T : string) :
  ends_slash X -> no_slash seg -> seg <> "" -> all_slash T ->
  parse (X ++ seg ++ T) = shape_parse X seg.
Proof.
  intros HX Hns Hne HT.
  assert (Hseg : (1 <= len seg)%Z).
  { destruct seg; [congruence |]. unfold len; simpl; lia. }
  assert (HX0 : (0 <= len X)%Z) by (unfold len; lia).
  unfold parse.
  rewrite (proj2 (Z.eqb_neq _ 0)) by (rewrite !len_app; unfold len in *; lia).
  rewrite (starts_slash_app X seg T HX Hns Hne).
  cbv zeta.
  rewrite (loop_shape X seg T _ HX Hns Hne HT eq_refl).
  cbv beta iota.
  rewrite (proj2 (Z.eqb_neq (len X + len seg) (-1))) by lia.
  cbn [negb].
  rewrite (start_prime X HX).
  rewrite (slice_app_r X (seg ++ T) (len X)) by lia.
  rewrite Z.sub_diag, Z.add_simpl_l.
  rewrite (slice_app_l seg T) by lia. rewrite slice_full.
  unfold shape_parse. cbv zeta.
  destruct (String.eqb X "/").
  2: rewrite (slice_app_l X (seg ++ T) 0 (len X - 1)) by lia.
  all: destruct (fst (seg_scan seg)) as [r |] eqn:Er; cbn [abs_index];
    [| reflexivity].
  all: pose proof (seg_scan_lt seg r Er) as Hr.
  all: rewrite (slice_app_r X (seg ++ T) (Z.of_nat (String.length X + r)))
    by (unfold len; lia).
  all: rewrite (slice_app_r X (seg ++ T) (len X)), Z.sub_diag, Z.add_simpl_l by lia.
  all: rewrite !(slice_app_l seg T) by (unfold len in *; lia).
  all: match goal with
       | |- context [if ?c then (_, "", _) else _] => destruct c
       end; reflexivity.
Qed.

(** Every path is empty, made of slashes only, or [X ++ seg ++ T]. *)
Lemma path_shape (p : string) :
  p = "" \/ (all_slash p /\ p <> "") \/
  exists X seg T, ends_slash X /\ no_slash seg /\ seg <> "" /\ all_slash T /\
    p = X ++ seg ++ T.
Proof.
  induction p as [| c p IH]; [left; reflexivity |].
  right. destruct (Ascii.eqb_spec c "/"%char) as [Hc | Hc].
  - destruct IH as [-> | [[Hall _] | (X & seg & T & HX & Hns & Hne & HT & ->)]].
    + left. split; [split; [assumption | exact I] | discriminate].
    + left. split; [split; assumption | discriminate].
    + right. subst c. destruct HX as [-> | [X0 ->]].
      * exists "/", seg, T. split; [right; exists ""; reflexivity |].
        repeat split; assumption.
      * exists (String "/" X0 ++ "/"), seg, T.
        split; [right; exists (String "/" X0); reflexivity |].
        repeat split; try assumption.
  - destruct IH as [-> | [[Hall Hne] | (X & seg & T & HX & Hns & Hne & HT & ->)]].
    + right. exists "", (String c ""), "". split; [left; reflexivity |].
      repeat split; try assumption; discriminate.
    + right. exists "", (String c ""), p. split; [left; reflexivity |].
      repeat split; try assumption; discriminate.
    + right. destruct HX as [-> | [X0 ->]].
      * exists "", (String c seg), T. split; [left; reflexivity |].
        repeat split; try assumption; discriminate.
      * exists (String c X0 ++ "/"), seg, T.
        split; [right; exists (String c X0); reflexivity |].
        repeat split; try assumption.
Qed.

Lemma parse_all_slash (p : string) :
  all_slash p -> p <> "" -> parse p = mkParsed "/" "/" "" "" "".
Proof.
  destruct p as [| c T]; intros Hp Hne; [congruence |].
  destruct Hp as [-> HT].
  change (String "/" T) with ("/" ++ T).
  unfold parse.
  rewrite (proj2 (Z.eqb_neq _ 0)) by (unfold len; simpl; lia).
  replace (is_slash ("/" ++ T) 0) with true by reflexivity.
  cbv zeta.
  replace (len ("/" ++ T) - 1)%Z with (len "/" + len T - 1)%Z
    by (rewrite len_app; lia).
  rewrite (slash_phase 1 T "/") by first [assumption | unfold len; simpl; lia].
  replace (String.length ("/" ++ T) - String.length T) with 1 by (rewrite length_app; change (String.length "/") with 1; lia).
  reflexivity.
Qed.

Lemma format_fields_parsed (h : heap) (l : nat) (r : parsed) :
  nth_error h l = Some (parsed_obj r) -> format_fields h (VRef l) = format_parsed r.
Proof.
  intros H. unfold format_parsed, format_fields, get, js_or. rewrite H.
  destruct r as [ro di ba ex na]. cbn.
  destruct (String.eqb di ""), (String.eqb na ""); reflexivity.
Qed.

Lemma format_parsed_base (r : parsed) :
  base r <> "" ->
  format_parsed r =
  (if String.eqb (dir r) "" then
     (if String.eqb (root r) "" then base r else root r ++ base r)
   else if String.eqb (dir r) (root r) then dir r ++ base r
   else dir r ++ "/" ++ base r).
Proof.
  destruct r as [ro di ba ex na]; simpl. intros Hba.
  unfold format_parsed, format_fields, js_or. simpl.
  apply String.eqb_neq in Hba. rewrite Hba. simpl negb.
  destruct (String.eqb di "") eqn:Edi; simpl.
  - destruct (String.eqb ro "") eqn:Ero; simpl; [reflexivity |].
    rewrite String.eqb_refl. reflexivity.
  - rewrite Edi. simpl. destruct (String.eqb di ro); reflexivity.
Qed.

Lemma shape_parse_fields (X seg : string) :
  root (shape_parse X seg) = (if starts_slash X then "/" else "") /\
  dir (shape_parse X seg) =
    (if (0 <? (if String.eqb X "/" then 0 else len X))%Z
     then slice X 0 ((if String.eqb X "/" then 0 else len X) - 1)
     else if starts_slash X then "/" else "") /\
  base (shape_parse X seg) = seg.
Proof.
  unfold shape_parse. cbv zeta.
  match goal with |- context [if ?c then (_, "", _) else _] => destruct c end;
    repeat split.
Qed.

Lemma slice_snoc (A : string) : slice (A ++ "/") 0 (len (A ++ "/") - 1) = A.
Proof.
  rewrite len_snoc. replace (len A + 1 - 1)%Z with (len A) by lia.
  rewrite slice_app_l by (unfold len; lia). apply slice_full.
Qed.

(** [format] of the shape gives back [X ++ seg], except that the prefix
    ["//"] becomes ["/"]. *)
Lemma format_shape (X seg : string) :
  ends_slash X -> seg <> "" ->
  format_parsed (shape_parse X seg) =
  (if String.eqb X "//" then "/" ++ seg else X ++ seg).
Proof.
  intros HX Hne.
  destruct (shape_parse_fields X seg) as (Hroot & Hdir & Hbase).
  rewrite format_parsed_base by (rewrite Hbase; exact Hne).
  rewrite Hroot, Hdir, Hbase.
  destruct HX as [-> | [X0 ->]]; [reflexivity |].
  destruct X0 as [| c X0]; [reflexivity |].
  assert (Hne1 : String.eqb (String c X0 ++ "/") "/" = false).
  { apply String.eqb_neq. intros E. apply (f_equal String.length) in E.
    rewrite length_app in E. simpl in E. lia. }
  rewrite Hne1.
  rewrite (proj2 (Z.ltb_lt 0 (len (String c X0 ++ "/"))))
    by (rewrite len_snoc; unfold len; simpl; lia).
  rewrite slice_snoc.
  change (starts_slash (String c X0 ++ "/")) with (Ascii.eqb c "/"%char).
  change (String.eqb (String c X0) "") with false. cbv beta iota.
  destruct (Ascii.eqb_spec c "/"%char) as [-> | Hc].
  - destruct X0 as [| d X0]; [reflexivity |].
    rewrite (proj2 (String.eqb_neq (String "/" (String d X0) ++ "/") "//")).
    2: { intros E. apply (f_equal String.length) in E. simpl in E.
         rewrite length_app in E. simpl in E. lia. }
    change (String.eqb (String "/" (String d X0)) "/") with false. cbv beta iota.
    rewrite app_assoc_s. reflexivity.
  - rewrite (proj2 (String.eqb_neq (String c X0 ++ "/") "//")).
    2: { intros E. simpl in E. inversion E. contradiction. }
    change (String.eqb (String c X0) "") with false. cbv beta iota.
    rewrite app_assoc_s. reflexivity.
Qed.

(** Below the root, the prefixes ["/"] and ["//"] parse alike, except for
    the segment [".."]. *)
Lemma shape_slash_eq (seg : string) :
  no_slash seg -> seg <> "" -> seg <> ".." ->
  shape_parse "/" seg = shape_parse "//" seg.
Proof.
  intros Hns Hne Hdd. unfold shape_parse. cbv zeta.
  destruct (seg_scan seg) as [[r |] pds] eqn:E; cbn [fst snd abs_index];
    [| reflexivity].
  change (String.length "/") with 1. change (String.length "//") with 2.
  change (len "/") with 1%Z. change (len "//") with 2%Z.
  change (String.eqb "/" "/") with true. change (String.eqb "//" "/") with false.
  cbv beta iota.
  replace (Z.of_nat (1 + r) - 1)%Z with (Z.of_nat r) by lia.
  replace (Z.of_nat (2 + r) - 2)%Z with (Z.of_nat r) by lia.
  rewrite (proj2 (Z.eqb_neq (Z.of_nat (1 + r)) (-1))) by lia.
  rewrite (proj2 (Z.eqb_neq (Z.of_nat (2 + r)) (-1))) by lia.
  destruct (Z.eqb_spec pds 0) as [-> | Hp0].
  - rewrite !Bool.orb_true_r. reflexivity.
  - assert (Hr : r <> 0) by (intros ->; apply Hp0; exact (seg_scan_zero seg pds E)).
    rewrite (proj2 (Z.eqb_neq (Z.of_nat (1 + r)) (0 + 1))) by lia.
    rewrite Bool.andb_false_r.
    replace ((pds =? 1)%Z && (Z.of_nat (2 + r) =? 2 + len seg - 1)%Z
             && (Z.of_nat (2 + r) =? 2 + 1)%Z)%bool with false.
    + reflexivity.
    + symmetry.
      destruct (Z.eqb_spec pds 1) as [-> |], (Z.eqb_spec (Z.of_nat (2 + r)) (2 + len seg - 1)),
        (Z.eqb_spec (Z.of_nat (2 + r)) (2 + 1)); try reflexivity.
      exfalso. apply Hdd. apply seg_scan_dotdot.
      * rewrite E. do 2 f_equal. lia.
      * unfold len in *. lia.
Qed.

(** [posix.parse] after [posix.format] gives back the parsed path, except
    for the parsed path of ["//.."]. *)
Lemma format_parse_core (p : string) :
  parse p <> parse_dotdot_quirk -> parse (format_parsed (parse p)) = parse p.
Proof.
  intros Hq.
  destruct (path_shape p)
    as [-> | [[Hall Hne] | (X & seg & T & HX & Hns & Hne & HT & ->)]].
  - reflexivity.
  - rewrite (parse_all_slash p Hall Hne). reflexivity.
  - rewrite (parse_shape X seg T HX Hns Hne HT) in *.
    rewrite format_shape by assumption.
    destruct (String.eqb_spec X "//") as [-> | HX2].
    + assert (Hdd : seg <> "..") by (intros ->; apply Hq; reflexivity).
      rewrite <- (shape_slash_eq seg Hns Hne Hdd).
      replace ("/" ++ seg) with ("/" ++ seg ++ "") by (rewrite app_nil_r_s; reflexivity).
      apply parse_shape; [right; exists ""; reflexivity | assumption | assumption | exact I].
    + replace (X ++ seg) with (X ++ seg ++ "") by (rewrite app_nil_r_s; reflexivity).
      apply parse_shape; [assumption | assumption | assumption | exact I].
Qed.

End ParseFacts.

Section PosixRoundtrip.

Context {FS : Type} (other : host_fn FS) (cwd : string).

Let host := node_host cwd other.

Lemma format_run (w : world FS) (l : nat) (r : NodePosix.parsed) :
  nth_error (w_heap w) l = Some (NodePosix.parsed_obj r) ->
  run host (Format (VRef l)) w =
  (Right (VStr (ParseShape.format_parsed r)),
   after_call (Format (VRef l)) w (w_fs w, w_heap w)).
Proof.
  intros H.
  rewrite (run_success host (Format (VRef l)) w (VStr (ParseShape.format_parsed r))
             (w_fs w, w_heap w)); [reflexivity |].
  unfold answer, host, node_host. cbn [prim_of fst snd].
  unfold NodePosix.path_prim. cbn -[NodePosix.format_fields].
  rewrite (ParseFacts.format_fields_parsed _ _ _ H). reflexivity.
Qed.

Lemma parse_run (w : world FS) (q : string) :
  run host (Parse (VStr q)) w =
  (Right (VRef (List.length (w_heap w))),
   after_call (Parse (VStr q)) w
     (w_fs w, (w_heap w ++ [NodePosix.parsed_obj (NodePosix.parse q)])%list)).
Proof.
  rewrite (run_success host (Parse (VStr q)) w (VRef (List.length (w_heap w)))
             (w_fs w, (w_heap w ++ [NodePosix.parsed_obj (NodePosix.parse q)])%list));
    reflexivity.
Qed.

(** C7: for a structure [s] that [parse] returned for a path [p] (the
    object at [l]), [format(s)] succeeds with a path [q] and [parse(q)]
    succeeds with an object equal to [s], unless [s] is the structure
    [{root: '/', dir: '/', base: '..', ext: '', name: '..'}] of ['//..']. *)
Theorem format_parse_roundtrip (w : world FS) (l : nat) (p : string) :
  nth_error (w_heap w) l = Some (NodePosix.parsed_obj (NodePosix.parse p)) ->
  NodePosix.parse p <> ParseShape.parse_dotdot_quirk ->
  exists q w1 l2 w2,
    run host (Format (VRef l)) w = (Right (VStr q), w1) /\
    run host (Parse (VStr q)) w1 = (Right (VRef l2), w2) /\
    nth_error (w_heap w2) l2 = Some (NodePosix.parsed_obj (NodePosix.parse p)).
Proof.
  intros Hl Hq.
  do 4 eexists. split; [exact (format_run w l _ Hl) |].
  split; [apply parse_run |].
  unfold after_call. cbn [w_heap fst snd].
  rewrite nth_error_snoc, (ParseFacts.format_parse_core p Hq). reflexivity.
Qed.

End PosixRoundtrip.

(** C7 witness: [parse('/home/user/notes.txt')], then [format], then
    [parse] again. *)
Lemma format_parse_roundtrip_witness :
  exists q w1 l2 w2,
    run (node_host "/" (Hosts.resolves_with VUndefined)) (Format (VRef 0))
      (mkWorld tt [NodePosix.parsed_obj (NodePosix.parse "/home/user/notes.txt")] [])
    = (Right (VStr q), w1) /\
    run (node_host "/" (Hosts.resolves_with VUndefined)) (Parse (VStr q)) w1
    = (Right (VRef l2), w2) /\
    nth_error (w_heap w2) l2 =
      Some (NodePosix.parsed_obj (NodePosix.parse "/home/user/notes.txt")).
Proof.
  apply (format_parse_roundtrip (Hosts.resolves_with VUndefined) "/"
           (mkWorld tt [NodePosix.parsed_obj (NodePosix.parse "/home/user/notes.txt")] [])
           0 "/home/user/notes.txt").
  - reflexivity.
  - intros E. vm_compute in E. discriminate E.
Defined.

(** C7 counterexample: [parse('//..')] is [{root: '/', dir: '/', base: '..',
    ext: '', name: '..'}]; [format] of it is ['/..'], and [parse('/..')] is
    [{root: '/', dir: '/', base: '..', ext: '.', name: '.'}]. *)
Lemma format_parse_dotdot_differs :
  NodePosix.parse "//.." = ParseShape.parse_dotdot_quirk /\
  run (node_host "/" (Hosts.resolves_with VUndefined)) (Format (VRef 0))
    (mkWorld tt [NodePosix.parsed_obj (NodePosix.parse "//..")] [])
  = (Right (VStr "/.."),
     mkWorld tt [NodePosix.parsed_obj (NodePosix.parse "//..")]
       [("format", [VRef 0])]) /\
  NodePosix.parse "/.." = NodePosix.mkParsed "/" "/" ".." "." "." /\
  NodePosix.parse "/.." <> NodePosix.parse "//..".
Proof.
  split; [vm_compute; reflexivity |].
  split; [vm_compute; reflexivity |].
  split; [vm_compute; reflexivity |].
  intros E. vm_compute in E. discriminate E.
Qed.

(** * Properties of the [path] functions *)

Module NameFacts.
Import Js NodePosix ParseShape ParseFacts NodePosixNames.

Lemma extname_loop_parse (p : string) (f : nat) (i sd sp e : Z) (m : bool) (pds : Z) :
  extname_loop p f i sd sp e m pds = parse_loop p 0 f i sd sp e m pds.
Proof.
  revert i sd sp e m pds. induction f as [| f IH]; intros; [reflexivity |].
  cbn [extname_loop parse_loop].
  destruct (i <? 0)%Z; [reflexivity |].
  destruct (is_slash p i); [destruct (negb m); [reflexivity | apply IH] |].
  destruct (e =? -1)%Z, (is_dot p i), (sd =? -1)%Z, (pds =? 1)%Z; apply IH.
Qed.

Lemma basename_loop_parse (p : string) (f : nat) (i sp e : Z) (m : bool) (sd pds : Z) :
  basename_loop p f i sp e m =
  let '(_, sp', e', _) := parse_loop p 0 f i sd sp e m pds in (sp', e').
Proof.
  revert i sp e m sd pds. induction f as [| f IH]; intros; [reflexivity |].
  cbn [basename_loop parse_loop].
  destruct (i <? 0)%Z; [reflexivity |].
  destruct (is_slash p i); [destruct (negb m); [reflexivity | apply IH] |].
  destruct (e =? -1)%Z, (is_dot p i), (sd =? -1)%Z, (pds =? 1)%Z; apply IH.
Qed.

(** The scan of [posix.parse] from index 0 on [X ++ seg ++ T]. *)
Lemma loop_shape0 (X seg T : string) :
  ends_slash X -> no_slash seg -> seg <> "" -> all_slash T ->
  parse_loop (X ++ seg ++ T) 0 (String.length (X ++ seg ++ T))
    (len (X ++ seg ++ T) - 1) (-1) 0 (-1) true 0 =
  (abs_index (String.length X) (fst (seg_scan seg)), len X,
   (len X + len seg)%Z, snd (seg_scan seg)).
Proof.
  intros HX Hns Hne HT.
  assert (Hseg : (1 <= len seg)%Z).
  { destruct seg; [congruence |]. unfold len; simpl; lia. }
  rewrite <- (app_assoc_s X seg T).
  replace (len ((X ++ seg) ++ T) - 1)%Z with (len (X ++ seg) + len T - 1)%Z
    by (rewrite !len_app; lia).
  rewrite (slash_phase 0 T (X ++ seg))
    by first [assumption | rewrite ?len_app, ?length_app; unfold len in *; lia].
  replace (String.length ((X ++ seg) ++ T) - String.length T)
    with (String.length X + String.length seg) by (rewrite !length_app; lia).
  rewrite len_app, app_assoc_s.
  rewrite (seg_phase 0 seg X T) by (auto; unfold len; lia).
  replace (String.length X + String.length seg - String.length seg)
    with (String.length X) by lia.
  destruct HX as [-> | [X0 ->]]; [reflexivity |].
  replace (String.length (X0 ++ "/")) with (S (String.length X0))
    by (rewrite length_app; simpl; lia).
  cbn [parse_loop].
  rewrite len_snoc. replace (len X0 + 1 - 1)%Z with (len X0) by lia.
  rewrite (proj2 (Z.ltb_ge _ _)) by (unfold len; lia).
  rewrite app_assoc_s.
  change ("/" ++ seg ++ T) with (String "/" (seg ++ T)).
  rewrite is_slash_at. reflexivity.
Qed.

Lemma loop_all_slash0 (p : string) :
  all_slash p ->
  parse_loop p 0 (String.length p) (len p - 1) (-1) 0 (-1) true 0 =
  ((-1)%Z, 0%Z, (-1)%Z, 0%Z).
Proof.
  intros H.
  pose proof (slash_phase 0 p "" (String.length p) (-1) 0 (-1) 0 H) as E.
  change ("" ++ p) with p in E.
  replace (len "" + len p - 1)%Z with (len p - 1)%Z in E by (unfold len; simpl; lia).
  rewrite E by (unfold len; simpl; lia).
  rewrite Nat.sub_diag. reflexivity.
Qed.

Lemma slice_mid (X seg T : string) :
  slice (X ++ seg ++ T) (len X) (len X + len seg) = seg.
Proof.
  rewrite slice_app_r by lia.
  replace (len X - len X)%Z with 0%Z by lia.
  replace (len X + len seg - len X)%Z with (len seg) by lia.
  rewrite slice_app_l by (unfold len; lia). apply slice_full.
Qed.

Lemma basename_none_parse (p : string) :
  basename p None = base (parse p).
Proof.
  unfold basename.
  rewrite (basename_loop_parse p _ _ _ _ _ (-1) 0).
  destruct (path_shape p)
    as [-> | [[Hall Hne] | (X & seg & T & HX & Hns & Hne & HT & ->)]].
  - reflexivity.
  - rewrite loop_all_slash0 by exact Hall.
    rewrite parse_all_slash by assumption. reflexivity.
  - rewrite loop_shape0 by assumption.
    rewrite parse_shape by assumption.
    destruct (shape_parse_fields X seg) as (_ & _ & ->).
    assert (Hseg : (1 <= len seg)%Z).
    { destruct seg; [congruence |]. unfold len; simpl; lia. }
    rewrite (proj2 (Z.eqb_neq _ _)) by (unfold len in *; lia).
    apply slice_mid.
Qed.

(** X1: [posix.basename(path)] without a suffix is the [base] field of
    [posix.parse(path)]. *)
Theorem basename_is_parse_base (p : string) :
  basename p None = base (parse p).
Proof. exact (basename_none_parse p). Qed.



Lemma extname_shape (X seg T : string) :
  ends_slash X -> no_slash seg -> seg <> "" ->
  (let '(startDot, startPart, end_, preDotState) :=
     (abs_index (String.length X) (fst (seg_scan seg)), len X,
      (len X + len seg)%Z, snd (seg_scan seg)) in
   if ((startDot =? -1)%Z || (end_ =? -1)%Z || (preDotState =? 0)%Z
       || ((preDotState =? 1)%Z && (startDot =? end_ - 1)%Z
           && (startDot =? startPart + 1)%Z))%bool
   then "" else slice (X ++ seg ++ T) startDot end_) =
  (if (String.eqb X "/" && String.eqb seg "..")%bool then ""
   else ext (shape_parse X seg)).
Proof.
  intros HX Hns Hne.
  assert (Hseg : (1 <= len seg)%Z).
  { destruct seg; [congruence |]. unfold len; simpl; lia. }
  unfold shape_parse. cbv zeta.
  rewrite (proj2 (Z.eqb_neq (len X + len seg) (-1))) by (unfold len in *; lia).
  rewrite Bool.orb_false_r.
  destruct (seg_scan seg) as [[r |] pds] eqn:E; cbn [fst snd abs_index].
  2: { rewrite Z.eqb_refl. cbn [orb]. destruct (String.eqb X "/" && String.eqb seg "..")%bool; reflexivity. }
  pose proof (seg_scan_lt seg r) as Hr. rewrite E in Hr. specialize (Hr eq_refl).
  rewrite (proj2 (Z.eqb_neq (Z.of_nat (String.length X + r)) (-1))) by lia.
  assert (Hsl : slice (X ++ seg ++ T) (Z.of_nat (String.length X + r)) (len X + len seg)
               = slice seg (Z.of_nat (String.length X + r) - len X) (len seg)).
  { rewrite slice_app_r by (unfold len; lia).
    replace (len X + len seg - len X)%Z with (len seg) by lia.
    rewrite slice_app_l by (unfold len in *; lia). reflexivity. }
  destruct (String.eqb_spec X "/") as [-> | HXn].
  - destruct (String.eqb_spec seg "..") as [-> | Hdd].
    + cbn in E. inversion E; subst. reflexivity.
    + cbn [andb]. rewrite Hsl.
      destruct (Z.eqb_spec pds 0) as [| Hp0]; [reflexivity |].
      destruct (Z.eqb_spec pds 1) as [-> | Hp1]; [| reflexivity].
      cbn [orb andb].
      assert (Hr0 : r <> 0) by (intros ->; apply Hp0; exact (seg_scan_zero seg 1 E)).
      replace (Z.of_nat (String.length "/" + r) =? 0 + 1)%Z with false
        by (symmetry; apply Z.eqb_neq; simpl; lia).
      assert (Hf : ((Z.of_nat (String.length "/" + r) =? len "/" + len seg - 1)%Z
                    && (Z.of_nat (String.length "/" + r) =? len "/" + 1)%Z)%bool = false).
      { destruct (Z.eqb_spec (Z.of_nat (String.length "/" + r)) (len "/" + len seg - 1))
          as [H3 |]; [| reflexivity].
        destruct (Z.eqb_spec (Z.of_nat (String.length "/" + r)) (len "/" + 1))
          as [H4 |]; [| reflexivity].
        exfalso. apply Hdd.
        change (String.length "/") with 1 in H3, H4. change (len "/") with 1%Z in H3, H4.
        assert (r = 1) by lia. subst r.
        apply seg_scan_dotdot; [exact E |]. unfold len in H3. lia. }
      rewrite Hf, Bool.andb_false_r. reflexivity.
  - cbn [andb].
    destruct (_ || _)%bool; [reflexivity |]. exact Hsl.
Qed.

Lemma shape_root_dotdot (X seg : string) :
  ends_slash X -> no_slash seg -> seg <> "" ->
  shape_parse X seg = parsed_root_dotdot -> X = "/" /\ seg = "..".
Proof.
  intros HX Hns Hne H.
  destruct (shape_parse_fields X seg) as (Hro & Hdi & Hba).
  assert (seg = "..") by (rewrite <- Hba, H; reflexivity). subst seg.
  split; [| reflexivity].
  destruct HX as [-> | [X0 ->]].
  - rewrite H in Hro. discriminate Hro.
  - destruct X0 as [| c X0]; [reflexivity |]. exfalso.
    destruct (String.eqb_spec (String c X0 ++ "/") "/") as [E | _].
    { apply (f_equal String.length) in E. rewrite length_app in E. simpl in E. lia. }
    rewrite (proj2 (Z.ltb_lt _ _)) in Hdi by (rewrite len_snoc; unfold len; simpl; lia).
    rewrite slice_snoc, H in Hdi. cbn in Hdi.
    destruct X0; [| discriminate Hdi]. injection Hdi as Hc. subst c.
    vm_compute in H. discriminate H.
Qed.

(** X5: [posix.extname(path)] is the [ext] field of [posix.parse(path)],
    except on the structure [posix.parse] returns for ['/..'], whose [ext]
    is ['.'] while [posix.extname] returns the empty string. *)
Theorem extname_is_parse_ext (p : string) :
  (parse p <> parsed_root_dotdot -> extname p = ext (parse p)) /\
  (parse p = parsed_root_dotdot -> extname p = "").
Proof.
  unfold extname. rewrite extname_loop_parse.
  destruct (path_shape p)
    as [-> | [[Hall Hne] | (X & seg & T & HX & Hns & Hne & HT & ->)]].
  - split; intros H; [reflexivity | vm_compute in H; discriminate H].
  - rewrite loop_all_slash0 by exact Hall.
    rewrite parse_all_slash by assumption.
    split; intros H; [reflexivity | discriminate H].
  - rewrite loop_shape0 by assumption.
    rewrite parse_shape by assumption.
    rewrite (extname_shape X seg T) by assumption.
    destruct (String.eqb_spec X "/") as [-> | HXn];
      [destruct (String.eqb_spec seg "..") as [-> | Hdd] |]; cbn [andb].
    + split; intros H; [exfalso; apply H; vm_compute; reflexivity | reflexivity].
    + split; intros H; [reflexivity |].
      apply shape_root_dotdot in H; [tauto | assumption ..].
    + split; intros H; [reflexivity |].
      apply shape_root_dotdot in H; [tauto | assumption ..].
Qed.

Lemma all_slash_app (a b : string) : all_slash a -> all_slash b -> all_slash (a ++ b).
Proof. induction a as [| c a IH]; simpl; [auto | intros [Hc Ha] Hb; split; auto]. Qed.

(** The trailing slashes are skipped by the loop of [posix.dirname]. *)
Lemma dirname_slash_phase (T A : string) (fuel : nat) (e : Z) :
  all_slash T -> (1 <= len A)%Z -> String.length T <= fuel ->
  dirname_loop (A ++ T) fuel (len A + len T - 1) e true =
  dirname_loop (A ++ T) (fuel - String.length T) (len A - 1) e true.
Proof.
  revert A fuel. induction T as [| c T IH]; intros A fuel HT HA Hfuel.
  - rewrite Nat.sub_0_r. f_equal. unfold len at 2. simpl. lia.
  - destruct HT as [Hc HT]. subst c.
    rewrite (snoc_app A T "/"%char).
    replace (len A + len (String "/" T) - 1)%Z
      with (len (A ++ "/") + len T - 1)%Z
      by (rewrite ?len_app; unfold len; simpl; lia).
    rewrite (IH (A ++ "/") fuel HT) by (rewrite ?len_app; unfold len in *; simpl in *; lia).
    simpl in Hfuel. rewrite len_snoc.
    replace (fuel - String.length T) with (S (fuel - S (String.length T))) by lia.
    cbn [dirname_loop].
    replace (len A + 1 - 1)%Z with (len A) by lia.
    rewrite (proj2 (Z.ltb_ge _ _)) by lia.
    rewrite <- snoc_app, is_slash_at. reflexivity.
Qed.

(** The last segment is skipped; the loop has then seen a non-slash. *)
Lemma dirname_seg_phase (sg A B : string) (fuel : nat) (e : Z) (m : bool) :
  no_slash sg -> sg <> "" -> (1 <= len A)%Z -> String.length sg <= fuel ->
  dirname_loop (A ++ sg ++ B) fuel (len A + len sg - 1) e m =
  dirname_loop (A ++ sg ++ B) (fuel - String.length sg) (len A - 1) e false.
Proof.
  revert A fuel m. induction sg as [| c sg IH]; intros A fuel m Hns Hne HA Hfuel;
    [congruence |].
  destruct Hns as [Hc Hns].
  assert (Hstep : forall f, dirname_loop (A ++ String c sg ++ B) (S f) (len A) e false =
                            dirname_loop (A ++ String c sg ++ B) f (len A - 1) e false /\
                            dirname_loop (A ++ String c sg ++ B) (S f) (len A) e m =
                            dirname_loop (A ++ String c sg ++ B) f (len A - 1) e false).
  { intros f. cbn [dirname_loop].
    rewrite (proj2 (Z.ltb_ge _ _)) by lia.
    change (String c sg ++ B) with (String c (sg ++ B)).
    rewrite is_slash_at.
    destruct (Ascii.eqb_spec c "/"%char) as [E | _]; [contradiction | split; reflexivity]. }
  destruct (string_dec sg "") as [-> | Hne'].
  - simpl in Hfuel. destruct fuel as [| fuel]; [lia |].
    replace (len A + len (String c "") - 1)%Z with (len A)
      by (unfold len; simpl; lia).
    rewrite (proj2 (Hstep fuel)).
    replace (S fuel - String.length (String c "")) with fuel by (simpl; lia).
    reflexivity.
  - change (String c sg ++ B) with (String c (sg ++ B)).
    rewrite (snoc_app A (sg ++ B) c).
    replace (len A + len (String c sg) - 1)%Z
      with (len (A ++ String c "") + len sg - 1)%Z
      by (rewrite ?len_app; unfold len; simpl; lia).
    rewrite (IH (A ++ String c "") fuel m Hns Hne')
      by (rewrite ?len_app; unfold len in *; simpl in *; lia).
    rewrite <- snoc_app.
    simpl in Hfuel.
    replace (fuel - String.length sg) with (S (fuel - S (String.length sg))) by lia.
    rewrite len_snoc. replace (len A + 1 - 1)%Z with (len A) by lia.
    change (String c (sg ++ B)) with (String c sg ++ B).
    rewrite (proj1 (Hstep _)). reflexivity.
Qed.

Lemma dirname_shape (X seg T : string) :
  ends_slash X -> no_slash seg -> seg <> "" -> all_slash T ->
  dirname (X ++ seg ++ T) =
  (if String.eqb X "" then "." else if String.eqb X "/" then "/"
   else if String.eqb X "//" then "//" else slice X 0 (len X - 1)).
Proof.
  intros HX Hns Hne HT.
  assert (Hseg : (1 <= len seg)%Z).
  { destruct seg; [congruence |]. unfold len; simpl; lia. }
  unfold dirname.
  rewrite (proj2 (Z.eqb_neq _ 0)) by (rewrite !len_app; unfold len in *; lia).
  rewrite (starts_slash_app X seg T HX Hns Hne).
  rewrite <- (app_assoc_s X seg T).
  replace (len ((X ++ seg) ++ T) - 1)%Z with (len (X ++ seg) + len T - 1)%Z
    by (rewrite !len_app; lia).
  rewrite (dirname_slash_phase T (X ++ seg))
    by first [assumption | rewrite ?len_app, ?length_app; unfold len in *; lia].
  replace (String.length ((X ++ seg) ++ T) - String.length T)
    with (String.length X + String.length seg) by (rewrite !length_app; lia).
  rewrite app_assoc_s.
  destruct HX as [-> | [X0 ->]].
  - destruct seg as [| c sg]; [congruence |]. destruct Hns as [Hc Hns].
    change ("" ++ String c sg ++ T) with (String c "" ++ sg ++ T).
    cbn [String.length Nat.add starts_slash String.eqb].
    destruct (string_dec sg "") as [-> | Hne'].
    + change (len ("" ++ String c "") - 1)%Z with 0%Z. reflexivity.
    + replace (len ("" ++ String c sg) - 1)%Z with (len (String c "") + len sg - 1)%Z
        by (unfold len; cbn [String.length String.append]; lia).
      rewrite (dirname_seg_phase sg (String c "") T) by (auto; unfold len; simpl; lia).
      replace (S (String.length sg) - String.length sg) with 1 by lia.
      reflexivity.
  - rewrite len_app, len_snoc.
    replace (len X0 + 1 + len seg - 1)%Z with (len (X0 ++ "/") + len seg - 1)%Z
      by (rewrite len_snoc; lia).
    rewrite (dirname_seg_phase seg (X0 ++ "/") T) by (auto; rewrite ?len_snoc; unfold len; lia).
    replace (String.length (X0 ++ "/") + String.length seg - String.length seg)
      with (S (String.length X0)) by (rewrite length_app; simpl; lia).
    rewrite len_snoc. replace (len X0 + 1 - 1)%Z with (len X0) by lia.
    destruct X0 as [| c X0].
    + reflexivity.
    + cbn [dirname_loop].
      rewrite (proj2 (Z.ltb_ge _ _)) by (unfold len; simpl; lia).
      rewrite app_assoc_s.
      change ("/" ++ seg ++ T) with (String "/" (seg ++ T)).
      rewrite is_slash_at. cbn [negb].
      rewrite (proj2 (Z.eqb_neq _ (-1))) by (unfold len; simpl; lia).
      rewrite slice_app_l by (unfold len; simpl; lia). rewrite slice_full.
      replace (len ((String c X0) ++ "/") - 1)%Z with (len (String c X0)) by (rewrite len_snoc; lia).
      rewrite slice_app_l by lia. rewrite slice_full.
      cbn [starts_slash String.append].
      destruct X0 as [| d X0].
      * cbn [String.eqb]. change (len (String c "")) with 1%Z. rewrite Z.eqb_refl.
        destruct (Ascii.eqb c "/"%char); reflexivity.
      * rewrite (proj2 (Z.eqb_neq _ 1)) by (unfold len; simpl; lia).
        rewrite Bool.andb_false_r.
        cbn [String.eqb].
        destruct (Ascii.eqb c "/"%char); [| reflexivity].
        cbn [String.append String.eqb].
        destruct (Ascii.eqb d "/"%char); [destruct X0 |]; reflexivity.
Qed.

Lemma dirname_all_slash (p : string) :
  all_slash p -> p <> "" -> dirname p = "/".
Proof.
  destruct p as [| c T]; intros Hp Hne; [congruence |].
  destruct Hp as [-> HT].
  change (String "/" T) with ("/" ++ T).
  unfold dirname.
  rewrite (proj2 (Z.eqb_neq _ 0)) by (rewrite len_app; change (len "/") with 1%Z; unfold len; lia).
  replace (len ("/" ++ T) - 1)%Z with (len "/" + len T - 1)%Z by (rewrite len_app; lia).
  rewrite dirname_slash_phase
    by first [assumption | unfold len; simpl; lia | rewrite length_app; simpl; lia].
  rewrite length_app.
  replace (String.length "/" + String.length T - String.length T) with 1 by (change (String.length "/") with 1; lia).
  reflexivity.
Qed.

(** X8: [posix.dirname] drops the last segment of a path together with the
    trailing separators and the separator before it: the result is ['.'] for
    a single relative segment, ['/'] under the root, ['//'] under a leading
    ['//'], and the prefix [d] otherwise. *)
Theorem dirname_drops_last_segment (d seg T : string) :
  no_slash seg -> seg <> "" -> all_slash T ->
  dirname (seg ++ T) = "." /\
  dirname (d ++ "/" ++ seg ++ T) =
    (if String.eqb d "" then "/" else if String.eqb d "/" then "//" else d).
Proof.
  intros Hns Hne HT. split.
  - change (seg ++ T) with ("" ++ seg ++ T).
    rewrite dirname_shape by (try left; auto). reflexivity.
  - change (d ++ "/" ++ seg ++ T) with (d ++ String "/" (seg ++ T)).
    rewrite snoc_app.
    rewrite dirname_shape by (try right; eauto).
    rewrite slice_snoc.
    destruct d as [| c d]; [reflexivity |].
    cbn [String.append String.eqb].
    destruct (Ascii.eqb c "/"%char); [| reflexivity].
    destruct d as [| e d]; [reflexivity |].
    cbn [String.append String.eqb].
    destruct (Ascii.eqb e "/"%char); [destruct d |]; reflexivity.
Qed.

Lemma dirname_drops_last_segment_witness :
  dirname "b/" = "." /\ dirname "/a/b/" = "/a".
Proof.
  apply (dirname_drops_last_segment "/a" "b" "/").
  - split; [discriminate | exact I].
  - discriminate.
  - split; [reflexivity | exact I].
Defined.


(** X9: trailing separators do not change [posix.dirname] of a non-empty
    path. *)
Theorem dirname_trailing_separators (p T : string) :
  p <> "" -> all_slash T -> dirname (p ++ T) = dirname p.
Proof.
  intros Hp HT.
  destruct (path_shape p)
    as [-> | [[Hall Hne] | (X & seg & T0 & HX & Hns & Hne & HT0 & ->)]];
    [congruence | |].
  - rewrite !dirname_all_slash; auto using all_slash_app.
    destruct p; simpl; congruence.
  - rewrite !app_assoc_s.
    rewrite !dirname_shape; auto using all_slash_app.
Qed.

Lemma dirname_trailing_separators_witness : dirname "/a/b//" = dirname "/a/b".
Proof.
  apply (dirname_trailing_separators "/a/b" "//").
  - discriminate.
  - split; [reflexivity | split; [reflexivity | exact I]].
Defined.


(** X7: trailing separators do not change [posix.parse] of a non-empty
    path. *)
Theorem parse_trailing_separators (p T : string) :
  p <> "" -> all_slash T -> parse (p ++ T) = parse p.
Proof.
  intros Hp HT.
  destruct (path_shape p)
    as [-> | [[Hall Hne] | (X & seg & T0 & HX & Hns & Hne & HT0 & ->)]];
    [congruence | |].
  - rewrite !parse_all_slash; auto using all_slash_app.
    destruct p; simpl; congruence.
  - rewrite !app_assoc_s.
    rewrite !parse_shape; auto using all_slash_app.
Qed.

Lemma parse_trailing_separators_witness : parse "/a/b.txt//" = parse "/a/b.txt".
Proof.
  apply (parse_trailing_separators "/a/b.txt" "//").
  - discriminate.
  - split; [reflexivity | split; [reflexivity | exact I]].
Defined.


Lemma substring_full (s : string) : substring 0 (String.length s) s = s.
Proof.
  pose proof (substring_prefix s "") as H. rewrite app_nil_r_s in H. exact H.
Qed.

Lemma substring_split (s : string) (n : nat) :
  n <= String.length s ->
  substring 0 n s ++ substring n (String.length s - n) s = s.
Proof.
  revert n. induction s as [| c s IH]; intros n H.
  - destruct n; [reflexivity | simpl in H; lia].
  - destruct n as [| n].
    + rewrite substring_zero, Nat.sub_0_r. apply substring_full.
    + simpl in H |- *. rewrite IH by lia. reflexivity.
Qed.

Lemma slice_split (s : string) (k : Z) :
  (0 <= k <= len s)%Z -> slice s 0 k ++ slice s k (len s) = s.
Proof.
  intros H. unfold slice. rewrite Z.sub_0_r.
  replace (Z.to_nat (len s - k)) with (String.length s - Z.to_nat k)
    by (unfold len in *; lia).
  apply substring_split. unfold len in *. lia.
Qed.

(** X6: the [base] field of [posix.parse] is its [name] followed by its
    [ext], and contains no separator. *)
Theorem parse_base_name_ext (p : string) :
  base (parse p) = name (parse p) ++ ext (parse p) /\ no_slash (base (parse p)).
Proof.
  destruct (path_shape p)
    as [-> | [[Hall Hne] | (X & seg & T & HX & Hns & Hne & HT & ->)]].
  - split; [reflexivity | exact I].
  - rewrite parse_all_slash by assumption. split; [reflexivity | exact I].
  - rewrite parse_shape by assumption.
    unfold shape_parse. cbv zeta.
    destruct (seg_scan seg) as [[r |] pds] eqn:E; cbn [fst snd abs_index].
    + pose proof (seg_scan_lt seg r) as Hr. rewrite E in Hr. specialize (Hr eq_refl).
      match goal with |- context [if ?c then (_, "", _) else _] => destruct c end;
        cbn [base name ext]; (split; [| exact Hns]).
      * symmetry. apply app_nil_r_s.
      * rewrite slice_split; [reflexivity |]. unfold len. lia.
    + rewrite Z.eqb_refl. cbn [orb base name ext].
      split; [symmetry; apply app_nil_r_s | exact Hns].
Qed.

End NameFacts.

Module NormFacts.
Import Js NodePosix ParseShape ParseFacts PathSegments.

Lemma substring_snoc (s : string) (n m : nat) (c : Ascii.ascii) :
  String.get (n + m) s = Some c ->
  substring n (S m) s = substring n m s ++ String c "".
Proof.
  revert n m. induction s as [| d s IH]; intros n m H; [discriminate H |].
  destruct n as [| n].
  - destruct m as [| m].
    + simpl in H. injection H as ->. simpl. rewrite substring_zero. reflexivity.
    + simpl in H |- *. rewrite (IH 0 m H). reflexivity.
  - simpl in H |- *. apply IH. exact H.
Qed.

Lemma substring_length (s : string) (n m : nat) :
  n + m <= String.length s -> String.length (substring n m s) = m.
Proof.
  revert n m. induction s as [| d s IH]; intros n m H.
  - simpl in H. assert (n = 0 /\ m = 0) as [-> ->] by lia. reflexivity.
  - destruct n as [| n]; [destruct m as [| m] |]; simpl in H |- *;
      [reflexivity | rewrite IH by lia; reflexivity | apply IH; lia].
Qed.

Lemma len_slice (s : string) (a b : Z) :
  (0 <= a <= b)%Z -> (b <= len s)%Z -> len (slice s a b) = (b - a)%Z.
Proof.
  intros H1 H2. unfold slice, len in *.
  rewrite substring_length by lia. lia.
Qed.

Lemma get_lt (s : string) (k : nat) :
  k < String.length s -> exists c, String.get k s = Some c.
Proof.
  revert k. induction s as [| d s IH]; intros k H; [simpl in H; lia |].
  destruct k as [| k]; [exists d; reflexivity | apply IH; simpl in H; lia].
Qed.

(** One more character read into the current segment. *)
Lemma slice_snoc_char (s : string) (a i : Z) :
  (0 <= a <= i)%Z -> (i < len s)%Z ->
  exists c, char_at s i = Some c /\ slice s a (i + 1) = slice s a i ++ String c "".
Proof.
  intros H1 H2. unfold char_at, slice, len in *.
  rewrite (proj2 (Z.ltb_ge _ _)) by lia.
  destruct (String.get (Z.to_nat i) s) as [c |] eqn:E.
  - exists c. split; [reflexivity |].
    replace (Z.to_nat (i + 1 - a)) with (S (Z.to_nat (i - a))) by lia.
    apply substring_snoc. rewrite <- E. f_equal. lia.
  - exfalso. destruct (get_lt s (Z.to_nat i)) as [c Hc]; [lia | congruence].
Qed.

Lemma concat_snoc (l : list string) (w : string) :
  l <> [] -> String.concat "/" (l ++ [w]) = String.concat "/" l ++ "/" ++ w.
Proof.
  induction l as [| x l IH]; intros Hl; [congruence |].
  destruct l as [| y l]; [reflexivity |].
  change ((x :: y :: l) ++ [w])%list with (x :: ((y :: l) ++ [w]))%list.
  change (String.concat "/" (x :: ((y :: l) ++ [w]))%list)
    with (x ++ "/" ++ String.concat "/" ((y :: l) ++ [w])%list).
  rewrite IH by discriminate.
  change (String.concat "/" (x :: y :: l)) with (x ++ "/" ++ String.concat "/" (y :: l)).
  rewrite !app_assoc_s. reflexivity.
Qed.

Lemma last_slash_aux_no_slash (w : string) (i : nat) (acc : Z) :
  no_slash w -> last_slash_aux w i acc = acc.
Proof.
  revert i acc. induction w as [| c w IH]; intros i acc Hw; [reflexivity |].
  destruct Hw as [Hc Hw]. simpl.
  destruct (Ascii.eqb_spec c "/"%char); [contradiction | apply IH; exact Hw].
Qed.

Lemma last_slash_aux_app (A B : string) (i : nat) (acc : Z) :
  last_slash_aux (A ++ B) i acc =
  last_slash_aux B (i + String.length A) (last_slash_aux A i acc).
Proof.
  revert i acc. induction A as [| c A IH]; intros i acc; simpl.
  - rewrite Nat.add_0_r. reflexivity.
  - rewrite IH. f_equal. lia.
Qed.

Lemma no_slash_app (a b : string) : no_slash a -> no_slash b -> no_slash (a ++ b).
Proof. induction a as [| c a IH]; simpl; [auto | intros [Hc Ha] Hb; split; auto]. Qed.

Lemma canonical_empty (allow : bool) : canonical allow "".
Proof. exists []. split; [constructor | reflexivity]. Qed.

Lemma canonical_one (allow : bool) (w : string) :
  PathSegments.seg_ok allow w -> canonical allow w.
Proof. intros H. exists [w]. split; [constructor; [exact H | constructor] | reflexivity]. Qed.

Lemma canonical_snoc (allow : bool) (s w : string) :
  canonical allow s -> s <> "" -> PathSegments.seg_ok allow w ->
  canonical allow (s ++ "/" ++ w).
Proof.
  intros [l [Hl ->]] Hne Hw. exists (l ++ [w])%list. split.
  - apply Forall_app. split; [exact Hl | constructor; [exact Hw | constructor]].
  - rewrite concat_snoc; [reflexivity |]. intros ->. apply Hne. reflexivity.
Qed.

(** Dropping the last segment: [res.slice(0, res.lastIndexOf('/'))]. *)
Lemma canonical_up (allow : bool) (res : string) :
  canonical allow res -> last_index_of_slash res <> (-1)%Z ->
  canonical allow (slice res 0 (last_index_of_slash res)).
Proof.
  intros [l [Hl ->]] Hlast.
  induction l as [| w l _] using rev_ind; [exfalso; apply Hlast; reflexivity |].
  apply Forall_app in Hl as [Hl Hw]. inversion Hw as [| ? ? [_ [Hns _]] _]; subst.
  destruct l as [| x l].
  - exfalso. apply Hlast. unfold last_index_of_slash. cbn [String.concat List.app].
    apply last_slash_aux_no_slash. exact Hns.
  - rewrite concat_snoc in * by discriminate.
    unfold last_index_of_slash. rewrite last_slash_aux_app.
    change ("/" ++ w) with (String "/" w). cbn [last_slash_aux].
    rewrite Ascii.eqb_refl.
    rewrite last_slash_aux_no_slash by exact Hns.
    rewrite Nat.add_0_l, <- len_nat.
    rewrite slice_app_l by (unfold len; lia). rewrite slice_full.
    exists (x :: l)%list. split; [exact Hl | reflexivity].
Qed.

Lemma dots_of_dot : PathSegments.dots_of "." = 1%Z.
Proof. reflexivity. Qed.

Lemma dots_of_dotdot : PathSegments.dots_of ".." = 2%Z.
Proof. reflexivity. Qed.

(** What [normalizeString] writes at a separator keeps [res] a list of
    segments. *)
Lemma step_canonical (path : string) (allow : bool) (i ls dots lsl : Z)
    (res res' : string) (lsl' : Z) :
  (-1 <= ls < i)%Z -> (i <= len path)%Z ->
  no_slash (slice path (ls + 1) i) ->
  dots = PathSegments.dots_of (slice path (ls + 1) i) ->
  canonical allow res ->
  (if ((ls =? i - 1)%Z || (dots =? 1)%Z)%bool then
     (res, lsl)
   else if (dots =? 2)%Z then
     let up :=
       if ((len res <? 2)%Z || negb (lsl =? 2)%Z
           || negb (is_dot res (len res - 1))
           || negb (is_dot res (len res - 2)))%bool
       then
         if (2 <? len res)%Z then
           let lastSlashIndex := last_index_of_slash res in
           if (lastSlashIndex =? -1)%Z then Some ("", 0%Z)
           else
             let r := slice res 0 lastSlashIndex in
             Some (r, (len r - 1 - last_index_of_slash r)%Z)
         else if negb (len res =? 0)%Z then Some ("", 0%Z)
         else None
       else None in
     match up with
     | Some st => st
     | None =>
         if allow then
           ((if (0 <? len res)%Z then res ++ "/.." else ".."), 2%Z)
         else (res, lsl)
     end
   else
     ((if (0 <? len res)%Z then res ++ "/" ++ slice path (ls + 1) i
       else slice path (ls + 1) i),
      (i - ls - 1)%Z)) = (res', lsl') ->
  canonical allow res'.
Proof.
  intros Hls Hi Hns Hd Hc E.
  assert (Hres_ne : (0 <? len res)%Z = true -> res <> "").
  { intros H ->. discriminate H. }
  assert (Hres_e : (0 <? len res)%Z = false -> res = "").
  { intros H. destruct res; [reflexivity | discriminate H]. }
  assert (Hdd : PathSegments.seg_ok true "..").
  { split; [discriminate | split; [split; [discriminate | split; [discriminate | exact I]] |]].
    split; [discriminate | reflexivity]. }
  destruct ((ls =? i - 1)%Z || (dots =? 1)%Z)%bool eqn:C0;
    [injection E as <- _; exact Hc |].
  apply Bool.orb_false_iff in C0 as [C0a C0b].
  apply Z.eqb_neq in C0a, C0b.
  destruct (dots =? 2)%Z eqn:C2.
  - cbv zeta in E.
    assert (Hnone : forall p, (if allow then
                     ((if (0 <? len res)%Z then res ++ "/.." else ".."), 2%Z)
                   else (res, lsl)) = p -> canonical allow (fst p)).
    { intros p <-. destruct allow; [| exact Hc].
      destruct (0 <? len res)%Z eqn:Hl; cbn [fst].
      - apply canonical_snoc; auto.
      - apply canonical_one. exact Hdd. }
    destruct (_ || _ || _ || _)%bool.
    + destruct (2 <? len res)%Z.
      * destruct (last_index_of_slash res =? -1)%Z eqn:C3.
        -- injection E as <- _. apply canonical_empty.
        -- injection E as <- _. apply canonical_up; [exact Hc |].
           apply Z.eqb_neq. exact C3.
      * destruct (negb (len res =? 0)%Z).
        -- injection E as <- _. apply canonical_empty.
        -- apply Hnone in E. exact E.
    + apply Hnone in E. exact E.
  - injection E as <- _.
    assert (Hw : PathSegments.seg_ok allow (slice path (ls + 1) i)).
    { split; [| split; [exact Hns | split]].
      - intros H. apply (f_equal len) in H.
        rewrite len_slice in H by lia. change (len "") with 0%Z in H. lia.
      - intros H. rewrite H in Hd. apply C0b. exact Hd.
      - intros H. rewrite H in Hd. rewrite Hd in C2. discriminate C2. }
    destruct (0 <? len res)%Z eqn:Hl.
    + apply canonical_snoc; auto.
    + apply canonical_one. exact Hw.
Qed.

Lemma all_dots_snoc (w : string) (c : Ascii.ascii) :
  PathSegments.all_dots (w ++ String c "") =
  (PathSegments.all_dots w && Ascii.eqb c "."%char)%bool.
Proof.
  induction w as [| d w IH]; simpl; [rewrite Bool.andb_true_r; reflexivity |].
  rewrite IH. apply Bool.andb_assoc.
Qed.

Lemma slice_empty (s : string) (a : Z) : slice s a a = "".
Proof. unfold slice. rewrite Z.sub_diag. apply substring_zero. Qed.

(** The loop of [normalizeString] only ever holds a list of segments in
    [res]. *)
Lemma normalize_loop_canonical (path : string) (allow : bool) (fuel : nat)
    (i : Z) (res : string) (lsl ls dots : Z) (cs : bool) :
  (-1 <= ls < i)%Z ->
  ((i <= len path)%Z -> no_slash (slice path (ls + 1) i) /\
                        dots = PathSegments.dots_of (slice path (ls + 1) i)) ->
  canonical allow res ->
  canonical allow (normalize_loop path allow fuel i res lsl ls dots cs).
Proof.
  revert i res lsl ls dots cs.
  induction fuel as [| fuel IH]; intros i res lsl ls dots cs Hls Hinv Hc;
    [exact Hc |].
  cbn [normalize_loop].
  destruct (len path <? i)%Z eqn:Hgt; [exact Hc |].
  apply Z.ltb_ge in Hgt.
  destruct (Hinv Hgt) as [Hns Hd].
  assert (Hslash : forall p,
    (if ((ls =? i - 1)%Z || (dots =? 1)%Z)%bool then
     (res, lsl)
   else if (dots =? 2)%Z then
     let up :=
       if ((len res <? 2)%Z || negb (lsl =? 2)%Z
           || negb (is_dot res (len res - 1))
           || negb (is_dot res (len res - 2)))%bool
       then
         if (2 <? len res)%Z then
           let lastSlashIndex := last_index_of_slash res in
           if (lastSlashIndex =? -1)%Z then Some ("", 0%Z)
           else
             let r := slice res 0 lastSlashIndex in
             Some (r, (len r - 1 - last_index_of_slash r)%Z)
         else if negb (len res =? 0)%Z then Some ("", 0%Z)
         else None
       else None in
     match up with
     | Some st => st
     | None =>
         if allow then
           ((if (0 <? len res)%Z then res ++ "/.." else ".."), 2%Z)
         else (res, lsl)
     end
   else
     ((if (0 <? len res)%Z then res ++ "/" ++ slice path (ls + 1) i
       else slice path (ls + 1) i),
      (i - ls - 1)%Z)) = p ->
    canonical allow (let '(res', lsl') := p in
                     normalize_loop path allow fuel (i + 1) res' lsl' i 0 true)).
  { intros [res' lsl'] E. apply IH.
    - lia.
    - intros _. rewrite slice_empty. split; [exact I | reflexivity].
    - eapply step_canonical; eauto. }
  cbv zeta in Hslash |- *.
  destruct (i <? len path)%Z eqn:Hlt.
  - destruct (is_slash path i) eqn:Hs.
    + cbn iota. exact (Hslash _ eq_refl).
    + cbn iota. apply IH; [lia | | exact Hc].
      intros Hi1. apply Z.ltb_lt in Hlt.
      destruct (slice_snoc_char path (ls + 1) i) as [c [Hci Hsl]]; [lia | lia |].
      rewrite Hsl.
      unfold is_slash in Hs. rewrite Hci in Hs.
      unfold is_dot. rewrite Hci.
      split.
      * apply no_slash_app; [exact Hns |]. split; [| exact I].
        intros ->. discriminate Hs.
      * unfold PathSegments.dots_of in *. rewrite all_dots_snoc.
        destruct (PathSegments.all_dots (slice path (ls + 1) i)).
        -- rewrite Bool.andb_true_l. rewrite len_app. change (len (String c "")) with 1%Z.
           rewrite (proj2 (Z.eqb_neq dots (-1))) by (rewrite Hd; unfold len; lia).
           destruct (Ascii.eqb c "."%char); simpl; lia.
        -- subst dots. rewrite Z.eqb_refl, Bool.andb_false_r. reflexivity.
  - destruct cs; [exact Hc |].
    cbn iota. exact (Hslash _ eq_refl).
Qed.

Lemma normalizeString_canonical (path : string) (allow : bool) :
  canonical allow (normalizeString path allow).
Proof.
  unfold normalizeString. apply normalize_loop_canonical.
  - lia.
  - intros _. rewrite slice_empty. split; [exact I | reflexivity].
  - apply canonical_empty.
Qed.

Lemma concat_cons_app (w : string) (l : list string) :
  exists rest, String.concat "/" (w :: l) = w ++ rest.
Proof.
  destruct l as [| y l]; [exists ""; symmetry; apply app_nil_r_s |].
  exists ("/" ++ String.concat "/" (y :: l)). reflexivity.
Qed.

Lemma canonical_first (allow : bool) (s : string) :
  canonical allow s -> s <> "" -> is_slash s 0 = false.
Proof.
  intros [l [Hl ->]] Hne. destruct l as [| w l]; [exfalso; apply Hne; reflexivity |].
  inversion Hl as [| ? ? [Hw [Hns _]] _]; subst.
  destruct (concat_cons_app w l) as [rest ->].
  destruct w as [| c w]; [congruence |]. destruct Hns as [Hc _].
  unfold is_slash, char_at. simpl.
  destruct (Ascii.eqb_spec c "/"%char); [contradiction | reflexivity].
Qed.

Lemma isAbsolute_nonempty (p : string) :
  (len p =? 0)%Z = false -> isAbsolute p = is_slash p 0.
Proof.
  intros H. unfold isAbsolute. apply Z.eqb_neq in H.
  rewrite (proj2 (Z.ltb_lt 0 (len p))) by (unfold len in *; lia). reflexivity.
Qed.

Lemma app_ne_nil_s (a b : string) : a <> "" -> a ++ b <> "".
Proof. destruct a; [congruence | discriminate]. Qed.

Lemma is_slash_app_0 (a b : string) : a <> "" -> is_slash (a ++ b) 0 = is_slash a 0.
Proof. destruct a; [congruence | reflexivity]. Qed.

(** X10: [posix.normalize] returns ['.'], ['./'], ['/'], or the root (for an
    absolute path) followed by one or more segments joined by single
    separators, none of them empty or ['.'], none ['..'] when the path is
    absolute, and a trailing separator exactly when the path has one. *)
Theorem normalize_segments (p : string) :
  normalize p = "." \/ normalize p = "./" \/ normalize p = "/" \/
  exists l, l <> [] /\ Forall (PathSegments.seg_ok (negb (isAbsolute p))) l /\
    normalize p = (if isAbsolute p then "/" else "") ++ String.concat "/" l ++
                  (if is_slash p (len p - 1) then "/" else "").
Proof.
  unfold normalize. destruct (len p =? 0)%Z eqn:H0; [left; reflexivity |].
  rewrite (isAbsolute_nonempty p H0).
  destruct (normalizeString_canonical p (negb (is_slash p 0))) as [l [Hl Heq]].
  cbv zeta. rewrite Heq.
  destruct (len (String.concat "/" l) =? 0)%Z eqn:Hl0.
  - destruct (is_slash p 0); [right; right; left; reflexivity |].
    destruct (is_slash p (len p - 1)); [right; left | left]; reflexivity.
  - right; right; right. exists l. split; [intros ->; discriminate Hl0 |].
    split; [exact Hl |].
    destruct (is_slash p 0), (is_slash p (len p - 1));
      cbn [String.append]; rewrite ?app_nil_r_s; reflexivity.
Qed.

(** X11: [posix.normalize] never returns the empty string, and its result is
    absolute exactly when the path is. *)
Theorem normalize_absolute (p : string) :
  normalize p <> "" /\ isAbsolute (normalize p) = isAbsolute p.
Proof.
  unfold normalize. destruct (len p =? 0)%Z eqn:H0.
  - destruct p; [split; [discriminate | reflexivity] | discriminate H0].
  - rewrite (isAbsolute_nonempty p H0).
    pose proof (normalizeString_canonical p (negb (is_slash p 0))) as Hc.
    cbv zeta.
    destruct (len (normalizeString p (negb (is_slash p 0))) =? 0)%Z eqn:Hl0.
    + destruct (is_slash p 0); [| destruct (is_slash p (len p - 1))];
        (split; [discriminate | reflexivity]).
    + assert (Hne : normalizeString p (negb (is_slash p 0)) <> "")
        by (intros E; rewrite E in Hl0; discriminate Hl0).
      destruct (is_slash p 0).
      * split; [discriminate | reflexivity].
      * cbn [negb] in *.
        destruct (is_slash p (len p - 1)).
        -- split; [apply app_ne_nil_s; exact Hne |].
           rewrite isAbsolute_nonempty.
           ++ rewrite is_slash_app_0 by exact Hne. exact (canonical_first _ _ Hc Hne).
           ++ apply Z.eqb_neq. destruct (normalizeString p true); [contradiction |].
              unfold len. cbn [String.append String.length]. lia.
        -- split; [exact Hne |].
           rewrite isAbsolute_nonempty by exact Hl0. exact (canonical_first _ _ Hc Hne).
Qed.

End NormFacts.

Module ResolveFacts.
Import Js Runtime Wrap Api NodePosix.

Lemma slash_nonempty (s : string) : is_slash s 0 = true -> (len s =? 0)%Z = false.
Proof. destruct s; [discriminate | reflexivity]. Qed.

Lemma resolve_acc_absolute (b : string) (rest : list value) (acc : string) :
  is_slash b 0 = true ->
  resolve_acc (VStr b :: rest) acc = Some (b ++ "/" ++ acc, true).
Proof. intros Hb. cbn [resolve_acc]. rewrite (slash_nonempty b Hb), Hb. reflexivity. Qed.

Lemma resolve_last_absolute (cwd b : string) (args : list value) :
  is_slash b 0 = true -> resolve cwd (args ++ [VStr b])%list = resolve cwd [VStr b].
Proof.
  intros Hb. unfold resolve. rewrite rev_app_distr. cbn [rev List.app].
  rewrite !resolve_acc_absolute by exact Hb. reflexivity.
Qed.

Lemma resolve_acc_strings (cwd : string) (l : list value) (acc : string) :
  is_slash cwd 0 = true -> Forall (fun v => exists s, v = VStr s) l ->
  exists rp, resolve_acc (l ++ [VStr cwd])%list acc = Some (rp, true).
Proof.
  intros Hc Hl. revert acc. induction Hl as [| v l [s ->] _ IH]; intros acc.
  - cbn [List.app]. rewrite resolve_acc_absolute by exact Hc. eexists; reflexivity.
  - cbn [List.app resolve_acc].
    destruct (len s =? 0)%Z; [apply IH |].
    destruct (is_slash s 0); [eexists; reflexivity | apply IH].
Qed.

Section Wrapper.

Context {FS : Type} (other : host_fn FS) (cwd : string).

Let host := node_host cwd other.

(** X12: [resolve(...paths)] ending in an absolute path gives the same result
    as [resolve] of that path alone: the arguments before it are neither
    used nor validated. *)
Theorem resolve_from_last_absolute (w : world FS) (args : list value) (b : string) :
  is_slash b 0 = true ->
  fst (run host (Resolve (args ++ [VStr b])%list) w) = fst (run host (Resolve [VStr b]) w).
Proof.
  intros Hb. rewrite !run_answer. unfold answer, host, node_host.
  cbn [prim_of fst snd]. unfold NodePosix.path_prim.
  cbn -[NodePosix.resolve]. rewrite (resolve_last_absolute cwd b args Hb).
  destruct (NodePosix.resolve cwd [VStr b]) eqn:E; [reflexivity |].
  unfold NodePosix.resolve in E. cbn [rev List.app] in E.
  rewrite resolve_acc_absolute in E by exact Hb. discriminate E.
Qed.

(** X13: on an absolute working directory, [resolve] of string arguments
    succeeds with the root followed by segments joined by single separators,
    none of them empty, ['.'] or ['..']. *)
Theorem resolve_canonical (w : world FS) (args : list value) :
  is_slash cwd 0 = true ->
  Forall (fun v => exists s, v = VStr s) args ->
  exists r l, fst (run host (Resolve args) w) = Right (VStr r) /\
    Forall (PathSegments.seg_ok false) l /\ r = "/" ++ String.concat "/" l.
Proof.
  intros Hc Hargs. rewrite run_answer. unfold answer, host, node_host.
  cbn [prim_of fst snd]. unfold NodePosix.path_prim.
  cbn -[NodePosix.resolve].
  unfold NodePosix.resolve.
  destruct (resolve_acc_strings cwd (rev args) "" Hc) as [rp Hrp].
  { apply Forall_rev. exact Hargs. }
  rewrite Hrp. cbn [negb].
  destruct (NormFacts.normalizeString_canonical rp false) as [l [Hl Heq]].
  exists ("/" ++ normalizeString rp false), l. rewrite Heq.
  split; [reflexivity | split; [exact Hl | reflexivity]].
Qed.

End Wrapper.

Lemma resolve_from_last_absolute_witness :
  fst (run (node_host "/" (Hosts.resolves_with VUndefined))
         (Resolve [VStr "x"; VUndefined; VStr "/etc"]) Hosts.w0) =
  fst (run (node_host "/" (Hosts.resolves_with VUndefined))
         (Resolve [VStr "/etc"]) Hosts.w0).
Proof.
  apply (resolve_from_last_absolute (Hosts.resolves_with VUndefined) "/" Hosts.w0
           [VStr "x"; VUndefined] "/etc").
  reflexivity.
Defined.

Lemma resolve_canonical_witness :
  exists r l,
    fst (run (node_host "/home" (Hosts.resolves_with VUndefined))
           (Resolve [VStr "a/../b"; VStr "./c/"]) Hosts.w0) = Right (VStr r) /\
    Forall (PathSegments.seg_ok false) l /\ r = "/" ++ String.concat "/" l.
Proof.
  apply (resolve_canonical (Hosts.resolves_with VUndefined) "/home" Hosts.w0
           [VStr "a/../b"; VStr "./c/"]).
  - reflexivity.
  - constructor; [eexists; reflexivity |].
    constructor; [eexists; reflexivity | constructor].
Defined.

End ResolveFacts.

Module SuffixFacts.
Import Js NodePosix ParseShape ParseFacts NodePosixNames NameFacts.

Lemma char_at_at (A r : string) (c : Ascii.ascii) :
  char_at (A ++ String c r) (len A) = Some c.
Proof. rewrite len_nat, <- (Nat.add_0_r (String.length A)), char_at_app. reflexivity. Qed.

Lemma not_slash_eqb (c : Ascii.ascii) : c <> "/"%char -> Ascii.eqb c "/"%char = false.
Proof. intros H. destruct (Ascii.eqb_spec c "/"%char); congruence. Qed.

Lemma len_pred_eqb (P : string) : (len P - 1 =? -1)%Z = String.eqb P "".
Proof.
  destruct P as [| c P]; [reflexivity |].
  apply Z.eqb_neq. unfold len. cbn [String.length]. lia.
Qed.

Lemma snoc_neq_empty (P : string) (c : Ascii.ascii) : String.eqb (P ++ String c "") "" = false.
Proof. destruct P; reflexivity. Qed.

Lemma len_nonneg (s : string) : (0 <= len s)%Z.
Proof. unfold len. lia. Qed.

Lemma len_pos (s : string) : s <> "" -> (1 <= len s)%Z.
Proof. destruct s; [congruence |]. intros _. unfold len. cbn [String.length]. lia. Qed.

Lemma no_slash_app_inv (a b : string) : no_slash (a ++ b) -> no_slash a /\ no_slash b.
Proof. induction a as [| c a IH]; simpl; [auto | intros [Hc H]; destruct (IH H); auto]. Qed.

(** Trailing separators before the last segment change nothing. *)
Lemma bs_slash_phase (sfx T A : string) (fuel : nat) (st en x f : Z) :
  all_slash T ->
  basename_suffix_loop (A ++ T) sfx (String.length T + fuel) (len A + len T - 1)
    st en true x f =
  basename_suffix_loop (A ++ T) sfx fuel (len A - 1) st en true x f.
Proof.
  revert A fuel. induction T as [| c T IH]; intros A fuel HT.
  - f_equal. change (len "") with 0%Z. lia.
  - destruct HT as [Hc HT]. subst c.
    rewrite (snoc_app A T "/"%char).
    replace (len A + len (String "/" T) - 1)%Z
      with (len (A ++ "/") + len T - 1)%Z
      by (rewrite ?len_app; unfold len; simpl; lia).
    replace (String.length (String "/" T) + fuel) with (String.length T + S fuel)
      by (simpl; lia).
    rewrite (IH (A ++ "/") (S fuel) HT).
    rewrite len_snoc. replace (len A + 1 - 1)%Z with (len A) by lia.
    cbn [basename_suffix_loop].
    rewrite (proj2 (Z.ltb_ge _ _)) by apply len_nonneg.
    rewrite <- snoc_app, is_slash_at. reflexivity.
Qed.

(** Reaching the separator before the segment (or the start) stops the
    loop with [start] just after it. *)
Lemma bs_boundary (sfx X r : string) (fuel : nat) (en x f : Z) :
  ends_slash X ->
  basename_suffix_loop (X ++ r) sfx (String.length X + fuel) (len X - 1) 0 en false x f =
  (len X, en, f).
Proof.
  intros [-> | [X0 ->]].
  - destruct fuel; reflexivity.
  - rewrite length_app. cbn [String.length].
    replace (String.length X0 + 1 + fuel) with (S (String.length X0 + fuel)) by lia.
    cbn [basename_suffix_loop].
    rewrite len_snoc. replace (len X0 + 1 - 1)%Z with (len X0) by lia.
    rewrite (proj2 (Z.ltb_ge _ _)) by apply len_nonneg.
    rewrite app_assoc_s. change ("/" ++ r) with (String "/" r).
    rewrite is_slash_at. reflexivity.
Qed.

(** Once [extIdx] is negative, the characters of the segment change
    nothing. *)
Lemma bs_idle (sfx sg A B : string) (fuel : nat) (st en x f : Z) :
  no_slash sg -> (x < 0)%Z -> f <> (-1)%Z ->
  basename_suffix_loop (A ++ sg ++ B) sfx (String.length sg + fuel)
    (len A + len sg - 1) st en false x f =
  basename_suffix_loop (A ++ sg ++ B) sfx fuel (len A - 1) st en false x f.
Proof.
  revert A fuel. induction sg as [| c sg IH]; intros A fuel Hns Hx Hf.
  - f_equal. change (len "") with 0%Z. lia.
  - destruct Hns as [Hc Hns].
    change (String c sg ++ B) with (String c (sg ++ B)).
    rewrite (snoc_app A (sg ++ B) c).
    replace (len A + len (String c sg) - 1)%Z
      with (len (A ++ String c "") + len sg - 1)%Z
      by (rewrite ?len_app; unfold len; simpl; lia).
    replace (String.length (String c sg) + fuel) with (String.length sg + S fuel)
      by (simpl; lia).
    rewrite (IH (A ++ String c "") (S fuel) Hns Hx Hf).
    rewrite <- snoc_app.
    rewrite len_snoc. replace (len A + 1 - 1)%Z with (len A) by lia.
    cbn [basename_suffix_loop].
    rewrite (proj2 (Z.ltb_ge _ _)) by apply len_nonneg.
    rewrite is_slash_at, (not_slash_eqb c Hc).
    rewrite (proj2 (Z.eqb_neq _ _) Hf), (proj2 (Z.leb_gt _ _) Hx).
    reflexivity.
Qed.

(** A character that differs from [suffix[extIdx]] ends the comparison:
    [end] becomes [firstNonSlashEnd]. *)
Lemma bs_mismatch (sfx A B : string) (c : Ascii.ascii) (fuel : nat)
    (st en x f : Z) (m : bool) :
  c <> "/"%char -> (0 <= x)%Z -> char_at sfx x <> Some c ->
  ((f = -1 /\ m = true) \/ (f <> -1 /\ m = false))%Z ->
  basename_suffix_loop (A ++ String c B) sfx (S fuel) (len A) st en m x f =
  basename_suffix_loop (A ++ String c B) sfx fuel (len A - 1) st
    (if (f =? -1)%Z then len A + 1 else f)%Z false (-1)%Z
    (if (f =? -1)%Z then len A + 1 else f)%Z.
Proof.
  intros Hc Hx Hsx Hf.
  assert (Hce : code_eqb (Some c) (char_at sfx x) = false).
  { destruct (char_at sfx x) as [d |]; [| reflexivity].
    cbn [code_eqb]. destruct (Ascii.eqb_spec c d); [subst; congruence | reflexivity]. }
  cbn [basename_suffix_loop].
  rewrite (proj2 (Z.ltb_ge _ _)) by apply len_nonneg.
  rewrite is_slash_at, (not_slash_eqb c Hc), char_at_at, Hce.
  rewrite (proj2 (Z.leb_le _ _) Hx).
  destruct Hf as [[-> ->] | [Hf ->]].
  - reflexivity.
  - rewrite (proj2 (Z.eqb_neq _ _) Hf). reflexivity.
Qed.

(** The segment matches the characters of the suffix ending at [extIdx]:
    [extIdx] moves past them, and [end] is set where the whole suffix has
    matched. *)
Lemma bs_match (sfx P Q sg A B : string) (fuel : nat) (st en f : Z) (m : bool) :
  no_slash sg -> sg <> "" -> sfx = P ++ sg ++ Q ->
  ((f = -1 /\ m = true) \/ (f = len A + len sg /\ m = false))%Z ->
  basename_suffix_loop (A ++ sg ++ B) sfx (String.length sg + fuel)
    (len A + len sg - 1) st en m (len P + len sg - 1) f =
  basename_suffix_loop (A ++ sg ++ B) sfx fuel (len A - 1) st
    (if String.eqb P "" then len A else en) false (len P - 1) (len A + len sg).
Proof.
  revert A P fuel en f m.
  induction sg as [| c sg IH]; intros A P fuel en f m Hns Hne Hsfx Hf; [congruence |].
  destruct Hns as [Hc Hns].
  assert (Hstep : forall fuel' f' m',
    ((f' = -1 /\ m' = true) \/ (f' = len A + len (String c sg) /\ m' = false))%Z ->
    basename_suffix_loop (A ++ String c (sg ++ B)) sfx (S fuel') (len A) st en m'
      (len P) f' =
    basename_suffix_loop (A ++ String c (sg ++ B)) sfx fuel' (len A - 1) st
      (if String.eqb P "" then len A else en) false (len P - 1)
      (if (f' =? -1)%Z then len A + 1 else f')%Z).
  { intros fuel' f' m' Hf'.
    cbn [basename_suffix_loop].
    rewrite (proj2 (Z.ltb_ge _ _)) by apply len_nonneg.
    rewrite is_slash_at, (not_slash_eqb c Hc), char_at_at.
    assert (Hd : char_at sfx (len P) = Some c)
      by (rewrite Hsfx; exact (char_at_at P (sg ++ Q) c)).
    rewrite Hd. cbn [code_eqb]. rewrite Ascii.eqb_refl.
    rewrite (proj2 (Z.leb_le _ _)) by apply len_nonneg.
    rewrite len_pred_eqb.
    destruct Hf' as [[-> ->] | [Hf' ->]].
    - destruct (String.eqb P ""); reflexivity.
    - rewrite (proj2 (Z.eqb_neq _ (-1))) by (rewrite Hf'; pose proof (len_nonneg A);
        unfold len; cbn [String.length]; lia).
      destruct (String.eqb P ""); reflexivity. }
  change (String c sg ++ B) with (String c (sg ++ B)).
  destruct (string_dec sg "") as [-> | Hne'].
  - replace (len A + len (String c "") - 1)%Z with (len A) by (unfold len; simpl; lia).
    replace (len P + len (String c "") - 1)%Z with (len P) by (unfold len; simpl; lia).
    change (String.length (String c "") + fuel) with (S fuel).
    rewrite (Hstep fuel f m Hf).
    destruct Hf as [[-> _] | [-> _]]; [reflexivity |].
    rewrite (proj2 (Z.eqb_neq _ (-1))) by (pose proof (len_nonneg A);
      unfold len; cbn [String.length]; lia).
    reflexivity.
  - rewrite (snoc_app A (sg ++ B) c).
    replace (len A + len (String c sg) - 1)%Z
      with (len (A ++ String c "") + len sg - 1)%Z
      by (rewrite ?len_app; unfold len; simpl; lia).
    replace (len P + len (String c sg) - 1)%Z
      with (len (P ++ String c "") + len sg - 1)%Z
      by (rewrite ?len_app; unfold len; simpl; lia).
    replace (String.length (String c sg) + fuel) with (String.length sg + S fuel)
      by (simpl; lia).
    rewrite (IH (A ++ String c "") (P ++ String c "") (S fuel) en f m Hns Hne').
    2: { rewrite Hsfx, app_assoc_s. reflexivity. }
    2: { destruct Hf as [Hf | [Hf Hm]]; [left; exact Hf | right; split; [| exact Hm]].
         rewrite Hf, len_snoc. unfold len. cbn [String.length]. lia. }
    rewrite snoc_neq_empty, <- snoc_app.
    rewrite !len_snoc. replace (len A + 1 - 1)%Z with (len A) by lia.
    replace (len P + 1 - 1)%Z with (len P) by lia.
    rewrite (Hstep fuel _ false).
    2: { right. split; [| reflexivity]. unfold len. cbn [String.length]. lia. }
    rewrite (proj2 (Z.eqb_neq _ (-1))) by (pose proof (len_nonneg A); pose proof (len_nonneg sg); lia).
    f_equal. unfold len. cbn [String.length]. lia.
Qed.

Ltac len_tac := rewrite ?len_app; unfold len in *; cbn [String.length] in *; lia.

Lemma bs_start (sfx X seg T : string) (x : Z) :
  all_slash T ->
  basename_suffix_loop (X ++ seg ++ T) sfx (String.length (X ++ seg ++ T))
    (len (X ++ seg ++ T) - 1) 0 (-1) true x (-1) =
  basename_suffix_loop (X ++ seg ++ T) sfx (String.length X + String.length seg)
    (len X + len seg - 1) 0 (-1) true x (-1).
Proof.
  intros HT. rewrite <- (app_assoc_s X seg T).
  replace (String.length ((X ++ seg) ++ T))
    with (String.length T + (String.length X + String.length seg))
    by (rewrite !length_app; lia).
  replace (len ((X ++ seg) ++ T) - 1)%Z with (len (X ++ seg) + len T - 1)%Z
    by (rewrite !len_app; lia).
  rewrite (bs_slash_phase sfx T (X ++ seg) _ 0 (-1) x (-1) HT).
  rewrite len_app. reflexivity.
Qed.

(** The branch of [posix.basename] taken when
    [0 < suffix.length <= path.length] and [suffix !== path]. *)
Lemma basename_suffix_branch (p sfx : string) :
  (0 < len sfx)%Z -> (len sfx <= len p)%Z -> sfx <> p ->
  basename p (Some sfx) =
  let '(start, end_, firstNonSlashEnd) :=
    basename_suffix_loop p sfx (String.length p) (len p - 1) 0 (-1) true
      (len sfx - 1) (-1) in
  slice p start
    (if (start =? end_)%Z then firstNonSlashEnd
     else if (end_ =? -1)%Z then len p else end_).
Proof.
  intros H1 H2 H3. unfold basename.
  rewrite (proj2 (Z.ltb_lt _ _) H1), (proj2 (Z.leb_le _ _) H2). cbn [andb].
  destruct (String.eqb_spec sfx p); [contradiction | reflexivity].
Qed.

Lemma snoc_view (s : string) : s = "" \/ exists s' c, s = s' ++ String c "".
Proof.
  induction s as [| c s IH]; [left; reflexivity | right].
  destruct IH as [-> | (s' & d & ->)].
  - exists "", c. reflexivity.
  - exists (String c s'), d. reflexivity.
Qed.

(** Two strings share a longest common suffix [C]. *)
Lemma common_suffix (a b : string) :
  exists n P C, a = n ++ C /\ b = P ++ C /\
    (n = "" \/ P = "" \/
     exists n' c P' d, n = n' ++ String c "" /\ P = P' ++ String d "" /\ c <> d).
Proof.
  assert (H : forall k a b, String.length a <= k ->
    exists n P C, a = n ++ C /\ b = P ++ C /\
      (n = "" \/ P = "" \/
       exists n' c P' d, n = n' ++ String c "" /\ P = P' ++ String d "" /\ c <> d)).
  { induction k as [| k IH]; intros a0 b0 Ha.
    - destruct a0; [| simpl in Ha; lia].
      exists "", b0, "". rewrite !app_nil_r_s. auto.
    - destruct (snoc_view a0) as [-> | (a' & c & ->)].
      + exists "", b0, "". rewrite !app_nil_r_s. auto.
      + destruct (snoc_view b0) as [-> | (b' & d & ->)].
        * exists (a' ++ String c ""), "", "". rewrite !app_nil_r_s. auto.
        * destruct (Ascii.eqb_spec c d) as [<- | Hcd].
          -- rewrite length_app in Ha. simpl in Ha.
             destruct (IH a' b') as (n & P & C & -> & -> & Hc); [lia |].
             exists n, P, (C ++ String c ""). rewrite !app_assoc_s. auto.
          -- exists (a' ++ String c ""), (b' ++ String d ""), "".
             rewrite !app_nil_r_s. split; [reflexivity | split; [reflexivity |]].
             right; right. exists a', c, b', d. auto. }
  exact (H _ a b (le_n _)).
Qed.

Lemma slice_rest (X Y : string) : slice (X ++ Y) (len X) (len (X ++ Y)) = Y.
Proof.
  rewrite slice_app_r by lia. rewrite len_app.
  replace (len X - len X)%Z with 0%Z by lia.
  replace (len X + len Y - len X)%Z with (len Y) by lia.
  apply slice_full.
Qed.

Lemma len_strict (a b : string) : a <> b -> (len a <= len b)%Z -> True.
Proof. auto. Qed.

(** The suffix ends the last segment and is shorter than it: it is cut
    off. *)
Lemma bs_strip (X n sfx T : string) :
  ends_slash X -> no_slash (n ++ sfx) -> n <> "" -> sfx <> "" -> all_slash T ->
  basename (X ++ (n ++ sfx) ++ T) (Some sfx) = n.
Proof.
  intros HX Hns Hn Hs HT.
  pose proof (len_pos n Hn) as Hln. pose proof (len_pos sfx Hs) as Hls.
  pose proof (len_nonneg X). pose proof (len_nonneg T).
  rewrite basename_suffix_branch.
  2: lia.
  2: rewrite !len_app; lia.
  2: { intros E. apply (f_equal len) in E. rewrite !len_app in E. lia. }
  rewrite (bs_start sfx X (n ++ sfx) T _ HT).
  replace (X ++ (n ++ sfx) ++ T) with ((X ++ n) ++ sfx ++ T)
    by (rewrite !app_assoc_s; reflexivity).
  replace (String.length X + String.length (n ++ sfx))
    with (String.length sfx + (String.length n + (String.length X + 0)))
    by (rewrite length_app; lia).
  replace (len X + len (n ++ sfx) - 1)%Z with (len (X ++ n) + len sfx - 1)%Z
    by (rewrite !len_app; lia).
  replace (len sfx - 1)%Z with (len "" + len sfx - 1)%Z by reflexivity.
  rewrite (bs_match sfx "" "" sfx (X ++ n) T _ 0 (-1) (-1) true).
  2: exact (proj2 (no_slash_app_inv _ _ Hns)).
  2: exact Hs.
  2: rewrite app_nil_r_s; reflexivity.
  2: left; split; reflexivity.
  cbn [String.eqb].
  rewrite app_assoc_s, len_app.
  rewrite (bs_idle sfx n X (sfx ++ T)).
  2: exact (proj1 (no_slash_app_inv _ _ Hns)).
  2: change (len "") with 0%Z; lia.
  2: lia.
  rewrite (bs_boundary sfx X (n ++ sfx ++ T) 0 _ _ _ HX).
  rewrite (proj2 (Z.eqb_neq _ _)) by lia.
  rewrite (proj2 (Z.eqb_neq _ (-1))) by lia.
  apply slice_mid.
Qed.

(** The suffix is the whole last segment: nothing is cut. *)
Lemma bs_equal (X seg T : string) :
  ends_slash X -> no_slash seg -> seg <> "" -> all_slash T -> seg <> X ++ seg ++ T ->
  basename (X ++ seg ++ T) (Some seg) = seg.
Proof.
  intros HX Hns Hne HT Hp.
  pose proof (len_pos seg Hne). pose proof (len_nonneg X). pose proof (len_nonneg T).
  rewrite basename_suffix_branch by (rewrite ?len_app; lia || exact Hp).
  rewrite (bs_start seg X seg T _ HT).
  replace (String.length X + String.length seg)
    with (String.length seg + (String.length X + 0)) by lia.
  replace (len seg - 1)%Z with (len "" + len seg - 1)%Z by reflexivity.
  rewrite (bs_match seg "" "" seg X T _ 0 (-1) (-1) true Hns Hne)
    by (rewrite ?app_nil_r_s; auto).
  cbn [String.eqb].
  rewrite (bs_boundary seg X (seg ++ T) 0 _ _ _ HX).
  rewrite Z.eqb_refl. apply slice_mid.
Qed.

(** The suffix ends with the last segment and is longer: [end] is never
    set, and the slice runs to the end of the path, trailing separators
    included. *)
Lemma bs_longer (X seg T P : string) :
  ends_slash X -> no_slash seg -> seg <> "" -> all_slash T -> P <> "" ->
  (len (P ++ seg) <= len (X ++ seg ++ T))%Z -> P ++ seg <> X ++ seg ++ T ->
  basename (X ++ seg ++ T) (Some (P ++ seg)) = seg ++ T.
Proof.
  intros HX Hns Hne HT HP Hlen Hp.
  pose proof (len_pos seg Hne). pose proof (len_nonneg X). pose proof (len_nonneg P).
  rewrite basename_suffix_branch by first [exact Hp | exact Hlen | rewrite ?len_app; lia].
  rewrite (bs_start (P ++ seg) X seg T _ HT).
  replace (String.length X + String.length seg)
    with (String.length seg + (String.length X + 0)) by lia.
  rewrite len_app.
  rewrite (bs_match (P ++ seg) P "" seg X T _ 0 (-1) (-1) true Hns Hne)
    by (rewrite ?app_nil_r_s; auto).
  destruct (String.eqb_spec P "") as [E | _]; [contradiction |].
  rewrite (bs_boundary (P ++ seg) X (seg ++ T) 0 _ _ _ HX).
  rewrite (proj2 (Z.eqb_neq _ (-1))) by lia.
  cbn [Z.eqb]. apply slice_rest.
Qed.

(** The suffix and the last segment differ at some character: [end] is
    reset to [firstNonSlashEnd] and nothing is cut. *)
Lemma bs_mismatch_seg (X n' C T P' : string) (c d : Ascii.ascii) :
  ends_slash X -> no_slash (n' ++ String c C) -> all_slash T -> c <> d ->
  (len (P' ++ String d C) <= len (X ++ (n' ++ String c C) ++ T))%Z ->
  P' ++ String d C <> X ++ (n' ++ String c C) ++ T ->
  basename (X ++ (n' ++ String c C) ++ T) (Some (P' ++ String d C)) = n' ++ String c C.
Proof.
  intros HX Hns HT Hcd Hlen Hp.
  assert (Hnn : no_slash n' /\ c <> "/"%char /\ no_slash C).
  { destruct (no_slash_app_inv _ _ Hns) as [H1 [H2 H3]]. auto. }
  destruct Hnn as (Hn' & Hc & HC).
  pose proof (len_nonneg X). pose proof (len_nonneg n'). pose proof (len_nonneg P').
  pose proof (len_nonneg C). pose proof (len_nonneg T).
  assert (Hls : len (n' ++ String c C) = (len n' + 1 + len C)%Z).
  { rewrite len_app. unfold len. cbn [String.length]. lia. }
  assert (Hlf : len (P' ++ String d C) = (len P' + 1 + len C)%Z).
  { rewrite len_app. unfold len. cbn [String.length]. lia. }
  assert (Hd : char_at (P' ++ String d C) (len P') <> Some c).
  { rewrite char_at_at. congruence. }
  rewrite basename_suffix_branch by first [exact Hp | exact Hlen | lia].
  rewrite (bs_start _ X (n' ++ String c C) T _ HT).
  assert (Hmid :
    basename_suffix_loop (X ++ (n' ++ String c C) ++ T) (P' ++ String d C)
      (String.length X + String.length (n' ++ String c C))
      (len X + len (n' ++ String c C) - 1) 0 (-1) true
      (len (P' ++ String d C) - 1) (-1) =
    basename_suffix_loop (X ++ (n' ++ String c C) ++ T) (P' ++ String d C)
      (String.length n' + (String.length X + 0)) (len (X ++ n') - 1) 0
      (len X + len (n' ++ String c C)) false (-1)
      (len X + len (n' ++ String c C))).
  { replace (X ++ (n' ++ String c C) ++ T) with ((X ++ n') ++ String c (C ++ T))
      by (rewrite !app_assoc_s; reflexivity).
    destruct (string_dec C "") as [-> | HCne].
    - replace (String.length X + String.length (n' ++ String c ""))
        with (S (String.length n' + (String.length X + 0)))
        by (rewrite length_app; simpl; lia).
      replace (len X + len (n' ++ String c "") - 1)%Z with (len (X ++ n'))
        by (rewrite Hls, len_app; change (len "") with 0%Z; lia).
      replace (len (P' ++ String d "") - 1)%Z with (len P')
        by (rewrite Hlf; change (len "") with 0%Z; lia).
      rewrite (bs_mismatch _ (X ++ n') _ c _ _ (-1) (len P') (-1) true Hc)
        by first [lia | exact Hd | left; split; reflexivity].
      rewrite Z.eqb_refl.
      replace (len (X ++ n') + 1)%Z with (len X + len (n' ++ String c ""))%Z
        by (rewrite Hls, len_app; change (len "") with 0%Z; lia).
      reflexivity.
    - replace ((X ++ n') ++ String c (C ++ T))
        with ((X ++ n' ++ String c "") ++ C ++ T)
        by (rewrite !app_assoc_s; reflexivity).
      replace (String.length X + String.length (n' ++ String c C))
        with (String.length C + S (String.length n' + (String.length X + 0)))
        by (rewrite length_app; simpl; lia).
      replace (len X + len (n' ++ String c C) - 1)%Z
        with (len (X ++ n' ++ String c "") + len C - 1)%Z
        by len_tac.
      replace (len (P' ++ String d C) - 1)%Z
        with (len (P' ++ String d "") + len C - 1)%Z
        by len_tac.
      rewrite (bs_match (P' ++ String d C) (P' ++ String d "") "" C
                 (X ++ n' ++ String c "") T _ 0 (-1) (-1) true HC HCne)
        by first [rewrite app_nil_r_s, app_assoc_s; reflexivity | left; split; reflexivity].
      rewrite snoc_neq_empty.
      replace ((X ++ n' ++ String c "") ++ C ++ T) with ((X ++ n') ++ String c (C ++ T))
        by (rewrite !app_assoc_s; reflexivity).
      replace (len (X ++ n' ++ String c "") - 1)%Z with (len (X ++ n'))
        by len_tac.
      replace (len (P' ++ String d "") - 1)%Z with (len P')
        by len_tac.
      replace (len (X ++ n' ++ String c "") + len C)%Z
        with (len X + len (n' ++ String c C))%Z
        by len_tac.
      rewrite (bs_mismatch _ (X ++ n') _ c _ _ (-1) (len P') _ false Hc)
        by first [lia | exact Hd | right; split; [lia | reflexivity]].
      rewrite (proj2 (Z.eqb_neq _ (-1))) by lia.
      reflexivity. }
  rewrite Hmid.
  assert (Hidle :
    basename_suffix_loop (X ++ (n' ++ String c C) ++ T) (P' ++ String d C)
      (String.length n' + (String.length X + 0)) (len (X ++ n') - 1) 0
      (len X + len (n' ++ String c C)) false (-1)
      (len X + len (n' ++ String c C)) =
    basename_suffix_loop (X ++ (n' ++ String c C) ++ T) (P' ++ String d C)
      (String.length X + 0) (len X - 1) 0
      (len X + len (n' ++ String c C)) false (-1)
      (len X + len (n' ++ String c C))).
  { replace (X ++ (n' ++ String c C) ++ T) with (X ++ n' ++ (String c C ++ T))
      by (rewrite !app_assoc_s; reflexivity).
    rewrite len_app. apply bs_idle; [exact Hn' | lia | lia]. }
  rewrite Hidle.
  rewrite (bs_boundary _ X ((n' ++ String c C) ++ T) 0 _ _ _ HX).
  rewrite (proj2 (Z.eqb_neq _ _)) by lia.
  rewrite (proj2 (Z.eqb_neq _ (-1))) by lia.
  apply slice_mid.
Qed.

(** X2: [posix.basename(path, suffix)] with a non-empty [suffix] other than
    [path] itself cuts [suffix] off the base name when it is a proper
    suffix of it, and returns the base name unchanged when neither ends
    with the other. *)
Theorem basename_suffix (p sfx : string) :
  sfx <> "" -> sfx <> p ->
  (forall n, n <> "" -> base (parse p) = n ++ sfx -> basename p (Some sfx) = n) /\
  ((forall n, n <> "" -> base (parse p) <> n ++ sfx) ->
   (forall P, P <> "" -> sfx <> P ++ base (parse p)) ->
   basename p (Some sfx) = base (parse p)).
Proof.
  intros Hs Hp.
  destruct (path_shape p)
    as [-> | [[Hall Hne] | (X & seg & T & HX & Hns & Hne & HT & ->)]].
  - change (base (parse "")) with "". split.
    + intros n Hn E. destruct n; [congruence | discriminate E].
    + intros _ H2. exfalso. apply (H2 sfx Hs). symmetry. apply app_nil_r_s.
  - rewrite parse_all_slash by assumption. cbn [base]. split.
    + intros n Hn E. destruct n; [congruence | discriminate E].
    + intros _ H2. exfalso. apply (H2 sfx Hs). symmetry. apply app_nil_r_s.
  - rewrite parse_shape by assumption.
    destruct (shape_parse_fields X seg) as (_ & _ & ->). split.
    + intros n Hn ->. apply bs_strip; auto.
    + intros H1 H2.
      destruct (Z.le_gt_cases (len sfx) (len (X ++ seg ++ T))) as [Hle | Hgt].
      * destruct (common_suffix seg sfx) as (n & P & C & Hseg & Hsfx & Hcase).
        destruct Hcase as [-> | [-> | (n' & c & P' & d & -> & -> & Hcd)]].
        -- cbn [String.append] in Hseg. subst seg.
           destruct (string_dec P "") as [-> | HP].
           ++ cbn [String.append] in Hsfx. subst sfx. apply bs_equal; auto.
           ++ exfalso. exact (H2 P HP Hsfx).
        -- cbn [String.append] in Hsfx. subst sfx.
           destruct (string_dec n "") as [-> | Hn].
           ++ cbn [String.append] in Hseg. subst seg. apply bs_equal; auto.
           ++ exfalso. exact (H1 n Hn Hseg).
        -- replace ((n' ++ String c "") ++ C) with (n' ++ String c C) in Hseg
             by (rewrite app_assoc_s; reflexivity).
           replace ((P' ++ String d "") ++ C) with (P' ++ String d C) in Hsfx
             by (rewrite app_assoc_s; reflexivity).
           subst seg sfx. apply bs_mismatch_seg; auto.
      * assert (E : basename (X ++ seg ++ T) (Some sfx) = basename (X ++ seg ++ T) None).
        { unfold basename. rewrite (proj2 (Z.leb_gt _ _) Hgt), Bool.andb_false_r.
          reflexivity. }
        rewrite E, basename_none_parse, parse_shape by assumption.
        destruct (shape_parse_fields X seg) as (_ & _ & ->). reflexivity.
Qed.

Lemma basename_suffix_witness :
  (forall n, n <> "" -> base (parse "/x/a.txt") = n ++ ".txt" ->
   basename "/x/a.txt" (Some ".txt") = n) /\
  ((forall n, n <> "" -> base (parse "/x/a.txt") <> n ++ ".txt") ->
   (forall P, P <> "" -> ".txt" <> P ++ base (parse "/x/a.txt")) ->
   basename "/x/a.txt" (Some ".txt") = base (parse "/x/a.txt")).
Proof. apply (basename_suffix "/x/a.txt" ".txt"); discriminate. Defined.


(** X3: when a non-empty last segment is a proper suffix of [suffix], with
    [suffix] no longer than the path and not the path itself,
    [posix.basename(path, suffix)] returns that segment together with the
    path's trailing separators. *)
Theorem basename_suffix_keeps_separators (X seg T P : string) :
  ends_slash X -> no_slash seg -> seg <> "" -> all_slash T -> P <> "" ->
  (len (P ++ seg) <= len (X ++ seg ++ T))%Z -> P ++ seg <> X ++ seg ++ T ->
  basename (X ++ seg ++ T) (Some (P ++ seg)) = seg ++ T.
Proof. exact (bs_longer X seg T P). Qed.

Lemma basename_suffix_keeps_separators_witness :
  basename "x/b/" (Some "ab") = "b/".
Proof.
  apply (basename_suffix_keeps_separators "x/" "b" "/" "a").
  - right. exists "x". reflexivity.
  - split; [discriminate | exact I].
  - discriminate.
  - split; [reflexivity | exact I].
  - discriminate.
  - apply Z.leb_le. reflexivity.
  - discriminate.
Defined.





End SuffixFacts.

Module ArgFacts.
Import Js Runtime Wrap Api NodePosix.

Lemma fst_run_same_answer {FS : Type} (host : host_fn FS) (c1 c2 : call) (w : world FS) :
  answer host c1 w = answer host c2 w -> echo_of c1 = echo_of c2 ->
  fst (run host c1 w) = fst (run host c2 w).
Proof.
  intros Ha He. rewrite !run_answer, Ha.
  destruct (answer host c2 w) as [r st]. cbn [fst snd].
  unfold settle, after_call. destruct r as [v | e]; cbn [fst w_heap].
  - rewrite He. reflexivity.
  - destruct (instanceof_Error (snd st) e); reflexivity.
Qed.

Lemma resolve_acc_skip_empty (l1 l2 : list value) (acc : string) :
  resolve_acc (l1 ++ VStr "" :: l2)%list acc = resolve_acc (l1 ++ l2)%list acc.
Proof.
  revert acc. induction l1 as [| v l1 IH]; intros acc; [reflexivity |].
  cbn [List.app resolve_acc]. destruct v; try reflexivity.
  destruct (len s =? 0)%Z; [apply IH |].
  destruct (is_slash s 0); [reflexivity | apply IH].
Qed.

Lemma resolve_skip_empty (cwd : string) (a b : list value) :
  resolve cwd (a ++ VStr "" :: b)%list = resolve cwd (a ++ b)%list.
Proof.
  unfold resolve. rewrite !rev_app_distr. cbn [rev].
  rewrite <- !app_assoc. cbn [List.app].
  rewrite resolve_acc_skip_empty. reflexivity.
Qed.

Lemma resolve_empty_cwd (cwd : string) :
  is_slash cwd 0 = true ->
  resolve cwd [] = resolve cwd [VStr cwd] /\ resolve cwd [VStr ""] = resolve cwd [VStr cwd].
Proof.
  intros Hc. unfold resolve. cbn [rev List.app].
  rewrite !ResolveFacts.resolve_acc_absolute by exact Hc.
  cbn [resolve_acc]. change (len "" =? 0)%Z with true. cbv iota.
  rewrite (ResolveFacts.slash_nonempty cwd Hc), Hc. split; reflexivity.
Qed.

Lemma all_strings_app (a b : list value) :
  all_strings (a ++ b)%list =
  match all_strings a, all_strings b with
  | Some x, Some y => Some (x ++ y)%list
  | _, _ => None
  end.
Proof.
  induction a as [| v a IH].
  - cbn [List.app all_strings]. destruct (all_strings b); reflexivity.
  - cbn [List.app all_strings]. destruct v; try reflexivity.
    rewrite IH. destruct (all_strings a), (all_strings b); reflexivity.
Qed.

Lemma join_acc_skip_empty (j : option string) (sa sb : list string) :
  join_acc j (sa ++ "" :: sb)%list = join_acc j (sa ++ sb)%list.
Proof.
  revert j. induction sa as [| s sa IH]; intros j; [reflexivity |].
  cbn [List.app join_acc]. apply IH.
Qed.

Lemma join_skip_empty (sa sb : list string) :
  join (sa ++ "" :: sb)%list = join (sa ++ sb)%list.
Proof.
  unfold join. destruct sa as [| s sa].
  - destruct sb; reflexivity.
  - pose proof (join_acc_skip_empty None (s :: sa) sb) as E.
    cbn [List.app] in E |- *. rewrite E. reflexivity.
Qed.

Lemma relative_resolved (cwd f1 t1 f2 t2 : string) :
  resolve1 cwd f1 = resolve1 cwd f2 -> resolve1 cwd t1 = resolve1 cwd t2 ->
  relative cwd f1 t1 = relative cwd f2 t2.
Proof.
  intros Hf Ht. unfold relative. cbv zeta.
  destruct (String.eqb_spec f1 t1) as [<- | H1], (String.eqb_spec f2 t2) as [<- | H2].
  - reflexivity.
  - rewrite <- Hf, <- Ht, String.eqb_refl. reflexivity.
  - rewrite Hf, Ht, String.eqb_refl. reflexivity.
  - rewrite Hf, Ht. reflexivity.
Qed.

Section Wrapper.

Context {FS : Type} (other : host_fn FS) (cwd : string).

Let host := node_host cwd other.

Lemma answer_resolve (w : world FS) (a1 a2 : list value) :
  resolve cwd a1 = resolve cwd a2 -> answer host (Resolve a1) w = answer host (Resolve a2) w.
Proof.
  intros H. unfold answer, host, node_host. cbn [prim_of fst snd].
  unfold NodePosix.path_prim. cbn -[NodePosix.resolve]. rewrite H. reflexivity.
Qed.

(** X14: zero-length arguments of [resolve(...paths)] are ignored. *)
Theorem resolve_ignores_empty (w : world FS) (a b : list value) :
  fst (run host (Resolve (a ++ VStr "" :: b)%list) w) = fst (run host (Resolve (a ++ b)%list) w).
Proof.
  apply fst_run_same_answer; [| reflexivity].
  apply answer_resolve, resolve_skip_empty.
Qed.

(** X15: on an absolute working directory, [resolve()] without arguments
    gives the outcome of [resolve] of the working directory. *)
Theorem resolve_no_arguments (w : world FS) :
  is_slash cwd 0 = true ->
  fst (run host (Resolve []) w) = fst (run host (Resolve [VStr cwd]) w).
Proof.
  intros Hc. apply fst_run_same_answer; [| reflexivity].
  apply answer_resolve, (proj1 (resolve_empty_cwd cwd Hc)).
Qed.

(** X16: zero-length arguments of [join(...paths)] are ignored. *)
Theorem join_ignores_empty (w : world FS) (a b : list value) :
  fst (run host (Join (a ++ VStr "" :: b)%list) w) = fst (run host (Join (a ++ b)%list) w).
Proof.
  apply fst_run_same_answer; [| reflexivity].
  unfold answer, host, node_host. cbn [prim_of fst snd].
  unfold NodePosix.path_prim. cbn -[NodePosix.join NodePosix.all_strings].
  rewrite !all_strings_app. cbn [all_strings].
  destruct (all_strings a), (all_strings b); try reflexivity.
  rewrite join_skip_empty. reflexivity.
Qed.

(** X17: [relative(from, to)] depends on [from] and [to] only through what
    [resolve] makes of each. *)
Theorem relative_depends_on_resolved (w : world FS) (f1 t1 f2 t2 : string) :
  resolve cwd [VStr f1] = resolve cwd [VStr f2] ->
  resolve cwd [VStr t1] = resolve cwd [VStr t2] ->
  fst (run host (Relative (VStr f1) (VStr t1)) w) =
  fst (run host (Relative (VStr f2) (VStr t2)) w).
Proof.
  intros Hf Ht. apply fst_run_same_answer; [| reflexivity].
  unfold answer, host, node_host. cbn [prim_of fst snd].
  unfold NodePosix.path_prim. cbn -[NodePosix.relative].
  rewrite (relative_resolved cwd f1 t1 f2 t2)
    by (unfold resolve1; rewrite ?Hf, ?Ht; reflexivity).
  reflexivity.
Qed.

(** X18: on an absolute working directory, a zero-length [from] or [to] of
    [relative] stands for the working directory. *)
Theorem relative_empty_is_cwd (w : world FS) (f t : string) :
  is_slash cwd 0 = true ->
  fst (run host (Relative (VStr "") (VStr t)) w) =
    fst (run host (Relative (VStr cwd) (VStr t)) w) /\
  fst (run host (Relative (VStr f) (VStr "")) w) =
    fst (run host (Relative (VStr f) (VStr cwd)) w).
Proof.
  intros Hc. pose proof (proj2 (resolve_empty_cwd cwd Hc)) as He.
  split; apply fst_run_same_answer; try reflexivity;
    unfold answer, host, node_host; cbn [prim_of fst snd];
    unfold NodePosix.path_prim; cbn -[NodePosix.relative].
  - rewrite (relative_resolved cwd "" t cwd t) by (unfold resolve1; rewrite ?He; reflexivity).
    reflexivity.
  - rewrite (relative_resolved cwd f "" f cwd) by (unfold resolve1; rewrite ?He; reflexivity).
    reflexivity.
Qed.

End Wrapper.

Lemma resolve_no_arguments_witness :
  is_slash "/home" 0 = true /\
  fst (run (node_host "/home" (Hosts.resolves_with VUndefined)) (Resolve []) Hosts.w0) =
  fst (run (node_host "/home" (Hosts.resolves_with VUndefined)) (Resolve [VStr "/home"]) Hosts.w0).
Proof.
  split; [reflexivity |].
  apply (resolve_no_arguments (Hosts.resolves_with VUndefined) "/home" Hosts.w0).
  reflexivity.
Defined.

Lemma relative_depends_on_resolved_witness :
  resolve "/" [VStr "/a/./b"] = resolve "/" [VStr "/a/b"] /\
  resolve "/" [VStr "/c"] = resolve "/" [VStr "/c//"] /\
  fst (run (node_host "/" (Hosts.resolves_with VUndefined))
         (Relative (VStr "/a/./b") (VStr "/c")) Hosts.w0) =
  fst (run (node_host "/" (Hosts.resolves_with VUndefined))
         (Relative (VStr "/a/b") (VStr "/c//")) Hosts.w0).
Proof.
  split; [reflexivity | split; [reflexivity |]].
  apply (relative_depends_on_resolved (Hosts.resolves_with VUndefined) "/" Hosts.w0);
    reflexivity.
Defined.

Lemma relative_empty_is_cwd_witness :
  is_slash "/home" 0 = true /\
  (fst (run (node_host "/home" (Hosts.resolves_with VUndefined))
          (Relative (VStr "") (VStr "/tmp")) Hosts.w0) =
     fst (run (node_host "/home" (Hosts.resolves_with VUndefined))
          (Relative (VStr "/home") (VStr "/tmp")) Hosts.w0) /\
   fst (run (node_host "/home" (Hosts.resolves_with VUndefined))
          (Relative (VStr "/usr") (VStr "")) Hosts.w0) =
     fst (run (node_host "/home" (Hosts.resolves_with VUndefined))
          (Relative (VStr "/usr") (VStr "/home")) Hosts.w0)).
Proof.
  split; [reflexivity |].
  apply (relative_empty_is_cwd (Hosts.resolves_with VUndefined) "/home" Hosts.w0).
  reflexivity.
Defined.

End ArgFacts.

Module NormStack.
Import Js NodePosix ParseShape ParseFacts PathSegments NameFacts NormFacts SuffixFacts.

Lemma split_aux_app (X cur : string) :
  exists P w, split_aux X cur = (P ++ [w])%list /\
    forall Y, split_aux (X ++ Y) cur = (P ++ split_aux Y w)%list.
Proof.
  revert cur. induction X as [| c X IH]; intros cur.
  - exists [], cur. split; reflexivity.
  - cbn [split_aux String.append]. destruct (Ascii.eqb c "/"%char).
    + destruct (IH "") as [P [w [H1 H2]]]. exists (cur :: P), w.
      split; [rewrite H1; reflexivity | intros Y; rewrite H2; reflexivity].
    + destruct (IH (cur ++ String c "")) as [P [w [H1 H2]]]. exists P, w.
      split; [exact H1 | exact H2].
Qed.

Lemma split_segs_slash (A B : string) :
  split_segs (A ++ "/" ++ B) = (split_segs A ++ split_segs B)%list.
Proof.
  unfold split_segs. destruct (split_aux_app A "") as [P [w [H1 H2]]].
  rewrite H2, H1. change ("/" ++ B) with (String "/" B). cbn [split_aux].
  rewrite <- app_assoc. reflexivity.
Qed.

Lemma split_aux_no_slash (w cur : string) :
  no_slash w -> split_aux w cur = [cur ++ w].
Proof.
  revert cur. induction w as [| c w IH]; intros cur Hw.
  - rewrite app_nil_r_s. reflexivity.
  - destruct Hw as [Hc Hw]. cbn [split_aux].
    rewrite (proj2 (Ascii.eqb_neq c "/"%char) Hc), IH by exact Hw.
    rewrite app_assoc_s. reflexivity.
Qed.

Lemma split_segs_concat (l : list string) :
  l <> [] -> Forall no_slash l -> split_segs (String.concat "/" l) = l.
Proof.
  induction l as [| x l IH]; intros Hl Hf; [congruence |].
  inversion Hf as [| ? ? Hx Hf']; subst.
  destruct l as [| y l].
  - cbn [String.concat]. unfold split_segs. rewrite split_aux_no_slash by exact Hx.
    reflexivity.
  - change (String.concat "/" (x :: y :: l)) with (x ++ "/" ++ String.concat "/" (y :: l)).
    rewrite split_segs_slash, IH by (discriminate || exact Hf').
    unfold split_segs at 1. rewrite split_aux_no_slash by exact Hx. reflexivity.
Qed.

Lemma split_aux_all_no_slash (s cur : string) :
  no_slash cur -> Forall no_slash (split_aux s cur).
Proof.
  revert cur. induction s as [| c s IH]; intros cur Hc; cbn [split_aux].
  - constructor; [exact Hc | constructor].
  - destruct (Ascii.eqb_spec c "/"%char).
    + constructor; [exact Hc | apply IH; exact I].
    + apply IH. apply no_slash_app; [exact Hc | split; [exact n | exact I]].
Qed.

Lemma substring_cons (s : string) (n : nat) (c : Ascii.ascii) :
  String.get n s = Some c ->
  substring n (String.length s - n) s =
  String c (substring (S n) (String.length s - S n) s).
Proof.
  revert n. induction s as [| d s IH]; intros n H; [discriminate H |].
  destruct n as [| n].
  - cbn in H. injection H as ->. cbn [String.length substring].
    replace (S (String.length s) - 1) with (String.length s) by lia.
    rewrite Nat.sub_0_r. reflexivity.
  - cbn [String.get] in H. cbn [String.length substring].
    change (S (String.length s) - S n) with (String.length s - n).
    change (S (String.length s) - S (S n)) with (String.length s - S n).
    apply IH. exact H.
Qed.

Lemma slice_from_cons (s : string) (i : Z) (c : Ascii.ascii) :
  (0 <= i)%Z -> char_at s i = Some c ->
  slice_from s i = String c (slice_from s (i + 1)).
Proof.
  intros Hi Hc. unfold char_at in Hc.
  rewrite (proj2 (Z.ltb_ge i 0)) in Hc by lia.
  assert (Hlt : Z.to_nat i < String.length s).
  { destruct (Nat.lt_ge_cases (Z.to_nat i) (String.length s)) as [H | H]; [exact H |].
    exfalso. clear -Hc H. revert H Hc. generalize (Z.to_nat i). intros n.
    revert n. induction s as [| d s IH]; intros n H Hc; [discriminate Hc |].
    destruct n; cbn in H, Hc; [lia | apply (IH n); [lia | exact Hc]]. }
  unfold slice_from, slice, len.
  replace (Z.to_nat (Z.of_nat (String.length s) - i))
    with (String.length s - Z.to_nat i) by lia.
  replace (Z.to_nat (Z.of_nat (String.length s) - (i + 1)))
    with (String.length s - S (Z.to_nat i)) by lia.
  replace (Z.to_nat (i + 1)) with (S (Z.to_nat i)) by lia.
  apply substring_cons. exact Hc.
Qed.

Lemma slice_from_end (s : string) : slice_from s (len s) = "".
Proof. unfold slice_from. apply slice_empty. Qed.

Lemma concat_rev_cons (w : string) (st : list string) :
  st <> [] ->
  String.concat "/" (rev (w :: st)) = String.concat "/" (rev st) ++ "/" ++ w.
Proof.
  intros H. cbn [rev]. apply concat_snoc.
  intros Hr. apply H. apply (f_equal (@rev string)) in Hr.
  rewrite rev_involutive in Hr. exact Hr.
Qed.

Lemma stack_inv_top (top : string) (rest : list string) (res : string) (lsl : Z) :
  stack_inv (top :: rest) res lsl ->
  exists pre, res = pre ++ top /\
    pre = (match rest with [] => "" | _ => String.concat "/" (rev rest) ++ "/" end).
Proof.
  intros [-> _]. destruct rest as [| h rest].
  - exists "". split; reflexivity.
  - exists (String.concat "/" (rev (h :: rest)) ++ "/"). split; [| reflexivity].
    rewrite concat_rev_cons by discriminate. rewrite app_assoc_s. reflexivity.
Qed.

Lemma last_index_stack (h : string) (rest : list string) :
  Forall (fun w => w <> "" /\ no_slash w) (h :: rest) ->
  last_index_of_slash (String.concat "/" (rev (h :: rest))) =
  match rest with [] => (-1)%Z | _ => len (String.concat "/" (rev rest)) end.
Proof.
  intros Hf. inversion Hf as [| ? ? [_ Hns] _]; subst.
  destruct rest as [| x rest].
  - cbn [rev List.app String.concat]. unfold last_index_of_slash.
    apply last_slash_aux_no_slash. exact Hns.
  - rewrite concat_rev_cons by discriminate.
    unfold last_index_of_slash. rewrite last_slash_aux_app.
    change ("/" ++ h) with (String "/" h). cbn [last_slash_aux].
    rewrite Ascii.eqb_refl, last_slash_aux_no_slash by exact Hns.
    rewrite Nat.add_0_l, <- len_nat. reflexivity.
Qed.

Lemma len_pos_s (s : string) : s <> "" -> (1 <= len s)%Z.
Proof. destruct s; [congruence |]. intros _. unfold len. cbn [String.length]. lia. Qed.

(** The test [normalizeString] makes before removing a segment for ['..']
    holds exactly when the last segment is not ['..']. *)
Lemma up_test (top : string) (rest : list string) (res : string) (lsl : Z) :
  stack_inv (top :: rest) res lsl ->
  ((len res <? 2)%Z || negb (lsl =? 2)%Z
   || negb (is_dot res (len res - 1))
   || negb (is_dot res (len res - 2)))%bool = negb (String.eqb top "..").
Proof.
  intros Hinv. destruct (stack_inv_top _ _ _ _ Hinv) as [pre [Hres _]].
  destruct Hinv as [_ [Hf Hlsl]]. inversion Hf as [| ? ? [Hne _] _]; subst.
  destruct top as [| a [| b [| c t]]]; [congruence | | |].
  - unfold len at 2. cbn [String.length]. cbn -[len is_dot].
    rewrite !Bool.orb_true_r. cbn. destruct (Ascii.eqb a "."%char); reflexivity.
  - assert (E1 : is_dot (pre ++ String a (String b "")) (len (pre ++ String a (String b "")) - 1)
                 = Ascii.eqb b "."%char).
    { rewrite snoc_app, len_app. change (len (String b "")) with 1%Z.
      replace (len (pre ++ String a "") + 1 - 1)%Z with (len (pre ++ String a "")) by lia.
      apply is_dot_at. }
    assert (E2 : is_dot (pre ++ String a (String b "")) (len (pre ++ String a (String b "")) - 2)
                 = Ascii.eqb a "."%char).
    { rewrite len_app. change (len (String a (String b ""))) with 2%Z.
      replace (len pre + 2 - 2)%Z with (len pre) by lia. apply is_dot_at. }
    rewrite E1, E2, len_app. change (len (String a (String b ""))) with 2%Z.
    rewrite (proj2 (Z.ltb_ge (len pre + 2) 2)) by (unfold len; lia).
    change (2 =? 2)%Z with true. cbn [orb negb].
    cbn [String.eqb]. destruct (Ascii.eqb a "."%char), (Ascii.eqb b "."%char); reflexivity.
  - unfold len at 2. cbn [String.length].
    rewrite (proj2 (Z.eqb_neq (Z.of_nat (S (S (S (String.length t))))) 2)) by lia.
    cbn [negb]. rewrite Bool.orb_true_r. cbn [orb String.eqb].
    destruct (Ascii.eqb a "."%char), (Ascii.eqb b "."%char), (Ascii.eqb c "."%char);
      reflexivity.
Qed.

Lemma dots_of_one (w : string) : (dots_of w =? 1)%Z = String.eqb w ".".
Proof.
  apply Bool.eq_iff_eq_true. rewrite Z.eqb_eq, String.eqb_eq. split.
  - unfold dots_of. destruct (all_dots w) eqn:E; [| lia].
    destruct w as [| a [| b w]]; unfold len; cbn [String.length]; [lia | | lia].
    intros _. cbn in E. rewrite Bool.andb_true_r in E.
    apply Ascii.eqb_eq in E. subst. reflexivity.
  - intros ->. reflexivity.
Qed.

Lemma dots_of_two (w : string) : (dots_of w =? 2)%Z = String.eqb w "..".
Proof.
  apply Bool.eq_iff_eq_true. rewrite Z.eqb_eq, String.eqb_eq. split.
  - unfold dots_of. destruct (all_dots w) eqn:E; [| lia].
    destruct w as [| a [| b [| c w]]]; unfold len; cbn [String.length]; [lia | lia | | lia].
    intros _. cbn in E. rewrite Bool.andb_true_r in E.
    apply andb_prop in E as [Ea Eb].
    apply Ascii.eqb_eq in Ea, Eb. subst. reflexivity.
  - intros ->. reflexivity.
Qed.

(** What [normalizeString] does at a separator is one [norm_step]. *)
Lemma step_stack (allow : bool) (w : string) (i ls dots lsl : Z) (st : list string)
    (res res' : string) (lsl' : Z) :
  (ls =? i - 1)%Z = String.eqb w "" -> dots = dots_of w -> no_slash w ->
  (i - ls - 1)%Z = len w ->
  stack_inv st res lsl ->
  (if ((ls =? i - 1)%Z || (dots =? 1)%Z)%bool then
     (res, lsl)
   else if (dots =? 2)%Z then
     let up :=
       if ((len res <? 2)%Z || negb (lsl =? 2)%Z
           || negb (is_dot res (len res - 1))
           || negb (is_dot res (len res - 2)))%bool
       then
         if (2 <? len res)%Z then
           let lastSlashIndex := last_index_of_slash res in
           if (lastSlashIndex =? -1)%Z then Some ("", 0%Z)
           else
             let r := slice res 0 lastSlashIndex in
             Some (r, (len r - 1 - last_index_of_slash r)%Z)
         else if negb (len res =? 0)%Z then Some ("", 0%Z)
         else None
       else None in
     match up with
     | Some st => st
     | None =>
         if allow then
           ((if (0 <? len res)%Z then res ++ "/.." else ".."), 2%Z)
         else (res, lsl)
     end
   else
     ((if (0 <? len res)%Z then res ++ "/" ++ w else w),
      (i - ls - 1)%Z)) = (res', lsl') ->
  stack_inv (norm_step allow st w) res' lsl'.
Proof.
  intros Hls Hd Hns Hlen Hinv E. subst dots.
  rewrite Hls, dots_of_one, dots_of_two in E. unfold norm_step.
  destruct (String.eqb w "" || String.eqb w ".")%bool eqn:C0;
    [injection E as <- <-; exact Hinv |].
  apply Bool.orb_false_iff in C0 as [C0a C0b]. apply String.eqb_neq in C0a.
  destruct (String.eqb w "..") eqn:C2.
  - apply String.eqb_eq in C2. subst w. cbv zeta in E.
    destruct st as [| top rest].
    + destruct Hinv as [-> _]. cbn in E.
      destruct allow; injection E as <- <-;
        (split; [reflexivity | split; [repeat constructor; discriminate | reflexivity]]).
    + rewrite (up_test _ _ _ _ Hinv) in E.
      pose proof Hinv as Hinv'.
      destruct Hinv' as [Hres [Hf Hlsl]]. inversion Hf as [| ? ? [Htop Htopns] Hf']; subst.
      assert (Hpos : (0 <? len (String.concat "/" (rev (top :: rest))))%Z = true).
      { destruct (stack_inv_top _ _ _ _ Hinv) as [pre [Hr _]]. rewrite Hr, len_app.
        pose proof (len_pos_s top Htop). apply Z.ltb_lt. unfold len in *. lia. }
      destruct (String.eqb top "..") eqn:Ct.
      * apply String.eqb_eq in Ct. subst top. cbn [negb] in E. rewrite Hpos in E.
        destruct allow; injection E as <- <-; [| exact Hinv].
        split; [| split; [constructor; [split; [discriminate | repeat split; discriminate] | exact Hf] | reflexivity]].
        rewrite (concat_rev_cons ".." (".." :: rest)) by discriminate. reflexivity.
      * cbn [negb] in E. destruct rest as [| h rest].
        -- cbn [rev List.app String.concat] in E.
           destruct (2 <? len top)%Z.
           ++ pose proof (last_index_stack top [] Hf) as L.
              cbn [rev List.app String.concat] in L. rewrite L in E. cbn in E.
              injection E as <- <-. split; [reflexivity | split; [constructor | exact I]].
           ++ rewrite (proj2 (Z.eqb_neq (len top) 0)) in E
                by (pose proof (len_pos_s top Htop); lia).
              cbn [negb] in E. injection E as <- <-.
              split; [reflexivity | split; [constructor | exact I]].
        -- rewrite (last_index_stack top (h :: rest) Hf) in E.
           set (R := String.concat "/" (rev (h :: rest))) in E.
           assert (HR : String.concat "/" (rev (top :: h :: rest)) = R ++ "/" ++ top)
             by (apply concat_rev_cons; discriminate).
           rewrite HR in E.
           inversion Hf' as [| ? ? [Hh Hhns] Hf'']; subst.
           pose proof (len_pos_s top Htop) as Htl.
           assert (HR0 : (1 <= len R)%Z).
           { unfold R. destruct rest as [| x rest].
             - cbn [rev List.app String.concat]. apply len_pos_s. exact Hh.
             - rewrite concat_rev_cons by discriminate. rewrite !len_app.
               pose proof (len_pos_s h Hh). unfold len in *. lia. }
           rewrite (proj2 (Z.ltb_lt 2 (len (R ++ "/" ++ top)))) in E
             by (rewrite !len_app; change (len "/") with 1%Z; lia).
           rewrite (proj2 (Z.eqb_neq (len R) (-1))) in E by lia.
           rewrite slice_app_l in E by lia. rewrite slice_full in E.
           cbn -[len slice last_index_of_slash String.append String.concat rev] in E.
           injection E as <- <-.
           split; [reflexivity | split; [exact Hf' |]].
           unfold R. rewrite (last_index_stack h rest Hf').
           destruct rest as [| x rest].
           ++ cbn [rev List.app String.concat]. lia.
           ++ rewrite (concat_rev_cons h (x :: rest)) by discriminate.
              rewrite !len_app. change (len "/") with 1%Z. lia.
  - cbv zeta in E. destruct st as [| top rest].
    + destruct Hinv as [-> _]. cbn [len String.length Z.of_nat Z.ltb Z.compare] in E.
      injection E as <- <-.
      split; [reflexivity | split; [constructor; [split; [exact C0a | exact Hns] | constructor] | exact Hlen]].
    + pose proof Hinv as Hinv'. destruct Hinv' as [Hres [Hf Hlsl]].
      inversion Hf as [| ? ? [Htop _] _]; subst res.
      destruct (stack_inv_top _ _ _ _ Hinv) as [pre [Hr _]].
      rewrite (proj2 (Z.ltb_lt 0 _)) in E
        by (rewrite Hr, len_app; pose proof (len_pos_s top Htop); unfold len in *; lia).
      injection E as <- <-.
      split; [| split; [constructor; [split; [exact C0a | exact Hns] | exact Hf] | exact Hlen]].
      rewrite (concat_rev_cons w (top :: rest)) by discriminate. reflexivity.
Qed.

Lemma ls_test (path : string) (ls i : Z) :
  (-1 <= ls < i)%Z -> (i <= len path)%Z ->
  (ls =? i - 1)%Z = String.eqb (slice path (ls + 1) i) "".
Proof.
  intros H1 H2. apply Bool.eq_iff_eq_true. rewrite Z.eqb_eq, String.eqb_eq. split.
  - intros ->. replace (i - 1 + 1)%Z with i by lia. apply slice_empty.
  - intros H. apply (f_equal len) in H. rewrite len_slice in H by lia.
    change (len "") with 0%Z in H. lia.
Qed.

Lemma norm_step_empty (allow : bool) (st : list string) : norm_step allow st "" = st.
Proof. reflexivity. Qed.

(** The loop of [normalizeString] folds [norm_step] over the segments of
    [path]: [P] are the segments it has passed, the current one is
    [slice path (lastSlash + 1) i]. *)
Lemma normalize_loop_stack (path : string) (allow : bool) (fuel : nat) (i : Z)
    (res : string) (lsl ls dots : Z) (cs : bool) (P : list string) :
  (len path + 1 - i <= Z.of_nat fuel)%Z -> (0 <= i <= len path)%Z -> (-1 <= ls < i)%Z ->
  no_slash (slice path (ls + 1) i) -> dots = dots_of (slice path (ls + 1) i) ->
  (cs = true -> ls = (i - 1)%Z) ->
  split_segs path = (P ++ split_aux (slice_from path i) (slice path (ls + 1) i))%list ->
  stack_inv (fold_left (norm_step allow) P []) res lsl ->
  normalize_loop path allow fuel i res lsl ls dots cs =
  String.concat "/" (rev (fold_left (norm_step allow) (split_segs path) [])).
Proof.
  revert i res lsl ls dots cs P.
  induction fuel as [| fuel IH]; intros i res lsl ls dots cs P Hf Hi Hls Hns Hd Hcs Hsp Hinv;
    [lia |].
  cbn [normalize_loop].
  rewrite (proj2 (Z.ltb_ge (len path) i)) by lia.
  cbv zeta.
  assert (Hstep : forall res' lsl',
    (if ((ls =? i - 1)%Z || (dots =? 1)%Z)%bool then
     (res, lsl)
   else if (dots =? 2)%Z then
     let up :=
       if ((len res <? 2)%Z || negb (lsl =? 2)%Z
           || negb (is_dot res (len res - 1))
           || negb (is_dot res (len res - 2)))%bool
       then
         if (2 <? len res)%Z then
           let lastSlashIndex := last_index_of_slash res in
           if (lastSlashIndex =? -1)%Z then Some ("", 0%Z)
           else
             let r := slice res 0 lastSlashIndex in
             Some (r, (len r - 1 - last_index_of_slash r)%Z)
         else if negb (len res =? 0)%Z then Some ("", 0%Z)
         else None
       else None in
     match up with
     | Some st => st
     | None =>
         if allow then
           ((if (0 <? len res)%Z then res ++ "/.." else ".."), 2%Z)
         else (res, lsl)
     end
   else
     ((if (0 <? len res)%Z then res ++ "/" ++ slice path (ls + 1) i
       else slice path (ls + 1) i),
      (i - ls - 1)%Z)) = (res', lsl') ->
    stack_inv (fold_left (norm_step allow) (P ++ [slice path (ls + 1) i]) []) res' lsl').
  { intros res' lsl' E. rewrite fold_left_app. cbn [fold_left].
    eapply step_stack; [| exact Hd | exact Hns | | exact Hinv | exact E].
    - apply ls_test; lia.
    - rewrite len_slice by lia. lia. }
  destruct (i <? len path)%Z eqn:Hlt.
  - apply Z.ltb_lt in Hlt.
    destruct (is_slash path i) eqn:Hs.
    + cbn iota.
      match goal with
      | |- context [if ((ls =? i - 1)%Z || (dots =? 1)%Z)%bool then ?a else ?b] =>
          destruct (if ((ls =? i - 1)%Z || (dots =? 1)%Z)%bool then a else b)
            as [res' lsl'] eqn:E
      end.
      assert (Hc : char_at path i = Some "/"%char).
      { unfold is_slash in Hs. destruct (char_at path i) as [c |]; [| discriminate Hs].
        apply Ascii.eqb_eq in Hs. subst. reflexivity. }
      apply IH with (P := (P ++ [slice path (ls + 1) i])%list).
      * lia.
      * lia.
      * lia.
      * rewrite slice_empty. exact I.
      * rewrite slice_empty. reflexivity.
      * intros _. lia.
      * rewrite Hsp, (slice_from_cons path i "/"%char) by (lia || exact Hc).
        cbn [split_aux Ascii.eqb Bool.eqb]. rewrite slice_empty, <- app_assoc. reflexivity.
      * exact (Hstep _ _ eq_refl).
    + cbn iota.
      destruct (slice_snoc_char path (ls + 1) i) as [c [Hci Hsl]]; [lia | lia |].
      assert (Hcs' : Ascii.eqb c "/"%char = false).
      { unfold is_slash in Hs. rewrite Hci in Hs. exact Hs. }
      apply IH with (P := P).
      * lia.
      * lia.
      * lia.
      * rewrite Hsl. apply no_slash_app; [exact Hns |]. split; [| exact I].
        intros ->. discriminate Hcs'.
      * rewrite Hsl. unfold is_dot. rewrite Hci.
        unfold dots_of in *. rewrite all_dots_snoc.
        destruct (all_dots (slice path (ls + 1) i)).
        -- rewrite Bool.andb_true_l. rewrite len_app. change (len (String c "")) with 1%Z.
           rewrite (proj2 (Z.eqb_neq dots (-1))) by (rewrite Hd; unfold len; lia).
           destruct (Ascii.eqb c "."%char); simpl; lia.
        -- subst dots. rewrite Z.eqb_refl, Bool.andb_false_r. reflexivity.
      * discriminate.
      * rewrite Hsp, (slice_from_cons path i c) by (lia || exact Hci).
        cbn [split_aux]. rewrite Hcs', Hsl. reflexivity.
      * exact Hinv.
  - apply Z.ltb_ge in Hlt. assert (Hil : i = len path) by lia. subst i.
    rewrite slice_from_end in Hsp. cbn [split_aux] in Hsp.
    destruct cs.
    + cbn iota. specialize (Hcs eq_refl). subst ls.
      replace (len path - 1 + 1)%Z with (len path) in Hsp by lia.
      rewrite slice_empty in Hsp. rewrite Hsp, fold_left_app.
      cbn [fold_left]. rewrite norm_step_empty. apply Hinv.
    + cbn iota.
      match goal with
      | |- context [if ((ls =? len path - 1)%Z || (dots =? 1)%Z)%bool then ?a else ?b] =>
          destruct (if ((ls =? len path - 1)%Z || (dots =? 1)%Z)%bool then a else b)
            as [res' lsl'] eqn:E
      end.
      specialize (Hstep _ _ eq_refl). rewrite <- Hsp in Hstep.
      destruct fuel as [| fuel]; cbn [normalize_loop];
        [| rewrite (proj2 (Z.ltb_lt (len path) (len path + 1))) by lia];
        apply Hstep.
Qed.

(** [normalizeString] is the fold of [norm_step] over the segments. *)
Lemma normalizeString_stack (path : string) (allow : bool) :
  normalizeString path allow = norm_spec allow path.
Proof.
  unfold normalizeString, norm_spec.
  apply normalize_loop_stack with (P := []); try (unfold len; lia).
  - change (-1 + 1)%Z with 0%Z. rewrite slice_empty. exact I.
  - change (-1 + 1)%Z with 0%Z. rewrite slice_empty. reflexivity.
  - change (-1 + 1)%Z with 0%Z. rewrite slice_empty.
    unfold slice_from. rewrite slice_full. reflexivity.
  - split; [reflexivity | split; [constructor | exact I]].
Qed.

Lemma split_segs_lead (X : string) : split_segs ("/" ++ X) = "" :: split_segs X.
Proof. exact (split_segs_slash "" X). Qed.

Lemma split_segs_trail (X : string) : split_segs (X ++ "/") = (split_segs X ++ [""])%list.
Proof.
  pose proof (split_segs_slash X "") as H. rewrite app_nil_r_s in H. exact H.
Qed.

Lemma plain_norm_step (allow : bool) (st : list string) (w : string) :
  plain_seg w -> norm_step allow st w = w :: st.
Proof.
  intros (H1 & _ & H2 & H3). unfold norm_step.
  rewrite (proj2 (String.eqb_neq w "") H1), (proj2 (String.eqb_neq w ".") H2),
    (proj2 (String.eqb_neq w "..") H3).
  reflexivity.
Qed.

Lemma fold_plain (allow : bool) (l st : list string) :
  Forall plain_seg l -> fold_left (norm_step allow) l st = (rev l ++ st)%list.
Proof.
  intros Hl. revert st. induction Hl as [| w l Hw _ IH]; intros st; [reflexivity |].
  cbn [fold_left]. rewrite plain_norm_step by exact Hw. rewrite IH.
  cbn [rev]. rewrite <- app_assoc. reflexivity.
Qed.

Lemma fold_ups (allow : bool) (l st : list string) :
  Forall (eq "..") l -> (l <> [] -> allow = true) -> Forall (eq "..") st ->
  fold_left (norm_step allow) l st = (rev l ++ st)%list.
Proof.
  intros Hl. revert st. induction Hl as [| w l Hw _ IH]; intros st Ha Hst; [reflexivity |].
  subst w. rewrite (Ha ltac:(discriminate)) in *.
  cbn [fold_left].
  assert (E : norm_step true st ".." = ".." :: st).
  { destruct st as [| u st]; [reflexivity |].
    inversion Hst; subst. reflexivity. }
  rewrite E, IH.
  - cbn [rev]. rewrite <- app_assoc. reflexivity.
  - intros _. reflexivity.
  - constructor; [reflexivity | exact Hst].
Qed.

Lemma normal_nil (allow : bool) : normal_stack allow [].
Proof. exists [], []. repeat split; constructor. Qed.

Lemma norm_step_normal (allow : bool) (st : list string) (w : string) :
  no_slash w -> normal_stack allow st -> normal_stack allow (norm_step allow st w).
Proof.
  intros Hw Hst. unfold norm_step.
  destruct (String.eqb w "" || String.eqb w ".")%bool eqn:C0; [exact Hst |].
  apply Bool.orb_false_iff in C0 as [C0a C0b].
  apply String.eqb_neq in C0a, C0b.
  destruct Hst as (names & ups & -> & Hn & Hu & Ha).
  destruct (String.eqb_spec w "..") as [-> | C2].
  - destruct names as [| n names].
    + destruct ups as [| u ups].
      * destruct allow.
        -- exists [], [".."].
           split; [reflexivity | split; [constructor | split; [repeat constructor | discriminate]]].
        -- exact (normal_nil false).
      * inversion Hu as [| ? ? Hu0 Hu']; subst u. cbn [List.app].
        change (String.eqb ".." "..") with true. cbv iota.
        destruct allow.
        -- exists [], (".." :: ".." :: ups).
           split; [reflexivity | split; [constructor | split; [| discriminate]]].
           constructor; [reflexivity | constructor; [reflexivity | exact Hu']].
        -- exists [], (".." :: ups).
           split; [reflexivity | split; [constructor | split; [exact Hu | exact Ha]]].
    + inversion Hn as [| ? ? (_ & _ & _ & Hnd) Hn']; subst.
      cbn [List.app]. rewrite (proj2 (String.eqb_neq n "..") Hnd).
      exists names, ups. split; [reflexivity | split; [exact Hn' | split; [exact Hu | exact Ha]]].
  - exists (w :: names), ups.
    split; [reflexivity | split; [| split; [exact Hu | exact Ha]]].
    constructor; [| exact Hn]. split; [exact C0a | split; [exact Hw | split; assumption]].
Qed.

Lemma fold_normal (allow : bool) (l st : list string) :
  Forall no_slash l -> normal_stack allow st ->
  normal_stack allow (fold_left (norm_step allow) l st).
Proof.
  intros Hl. revert st. induction Hl as [| w l Hw _ IH]; intros st Hst; [exact Hst |].
  cbn [fold_left]. apply IH. apply norm_step_normal; assumption.
Qed.

Lemma fold_rev_normal (allow : bool) (st : list string) :
  normal_stack allow st -> fold_left (norm_step allow) (rev st) [] = st.
Proof.
  intros (names & ups & -> & Hn & Hu & Ha).
  rewrite rev_app_distr, fold_left_app.
  rewrite fold_plain by (apply Forall_rev; exact Hn).
  rewrite fold_ups.
  - rewrite app_nil_r, !rev_involutive. reflexivity.
  - apply Forall_rev. exact Hu.
  - intros Hne. destruct allow; [reflexivity |].
    exfalso. apply Hne. rewrite (Ha eq_refl). reflexivity.
  - constructor.
Qed.

Lemma normal_segs (allow : bool) (st : list string) :
  normal_stack allow st -> Forall (fun w => w <> "" /\ no_slash w) st.
Proof.
  intros (names & ups & -> & Hn & Hu & _). apply Forall_app. split.
  - eapply Forall_impl; [| exact Hn]. intros w (H1 & H2 & _). split; assumption.
  - eapply Forall_impl; [| exact Hu]. intros w <-. split; [discriminate | repeat split; discriminate].
Qed.

Lemma concat_rev_top (top : string) (rest : list string) :
  exists pre, String.concat "/" (rev (top :: rest)) = pre ++ top.
Proof.
  destruct rest as [| h rest]; [exists ""; reflexivity |].
  exists (String.concat "/" (rev (h :: rest)) ++ "/").
  rewrite concat_rev_cons by discriminate. rewrite app_assoc_s. reflexivity.
Qed.

Lemma is_slash_last (X : string) (c : Ascii.ascii) :
  is_slash (X ++ String c "") (len (X ++ String c "") - 1) = Ascii.eqb c "/"%char.
Proof.
  rewrite len_snoc. replace (len X + 1 - 1)%Z with (len X) by lia. apply is_slash_at.
Qed.

(** The string of a stack of segments neither starts nor ends with a
    separator. *)
Lemma stack_string_ends (st : list string) :
  Forall (fun w => w <> "" /\ no_slash w) st -> st <> [] ->
  String.concat "/" (rev st) <> "" /\
  is_slash (String.concat "/" (rev st)) 0 = false /\
  exists X c, String.concat "/" (rev st) = X ++ String c "" /\ c <> "/"%char.
Proof.
  intros Hf Hne. destruct st as [| top rest]; [congruence |].
  assert (Hlast : exists X c, String.concat "/" (rev (top :: rest)) = X ++ String c "" /\
                  c <> "/"%char).
  { destruct (concat_rev_top top rest) as [pre ->].
    inversion Hf as [| ? ? [Ht Hts] _]; subst.
    destruct (snoc_view top) as [-> | (t0 & c & ->)]; [congruence |].
    apply no_slash_app_inv in Hts as [_ [Hc _]].
    exists (pre ++ t0), c. split; [rewrite app_assoc_s; reflexivity | exact Hc]. }
  destruct Hlast as (X & c & HX & Hc).
  assert (Hne' : String.concat "/" (rev (top :: rest)) <> "").
  { rewrite HX. destruct X; discriminate. }
  split; [exact Hne' | split; [| exists X, c; split; assumption]].
  assert (Hf' : Forall (fun w => w <> "" /\ no_slash w) (rev (top :: rest)))
    by (apply Forall_rev; exact Hf).
  destruct (rev (top :: rest)) as [| x l] eqn:Er; [exfalso; apply Hne'; reflexivity |].
  inversion Hf' as [| ? ? [Hx Hxs] _]; subst.
  destruct (concat_cons_app x l) as [r ->].
  destruct x as [| d x]; [congruence |]. destruct Hxs as [Hd _].
  unfold is_slash, char_at. cbn.
  destruct (Ascii.eqb_spec d "/"%char); [contradiction | reflexivity].
Qed.

(** [normalizeString] gives back the string of a normal stack, whatever
    root and trailing separator surround it. *)
Lemma normalizeString_stack_fixed (a t : bool) (st : list string) :
  normal_stack (negb a) st ->
  normalizeString ((if a then "/" else "") ++ String.concat "/" (rev st) ++
                   (if t then "/" else "")) (negb a) =
  String.concat "/" (rev st).
Proof.
  intros Hst.
  destruct st as [| top rest]; [destruct a, t; reflexivity |].
  pose proof (normal_segs _ _ Hst) as Hf.
  assert (Hsplit : split_segs (String.concat "/" (rev (top :: rest))) = rev (top :: rest)).
  { apply split_segs_concat.
    - intros Hr. apply (f_equal (@rev string)) in Hr.
      rewrite rev_involutive in Hr. discriminate Hr.
    - apply Forall_rev. eapply Forall_impl; [| exact Hf]. intros w [_ H]. exact H. }
  rewrite normalizeString_stack. unfold norm_spec.
  assert (E' : forall l, fold_left (norm_step (negb a)) (l ++ [""])%list [] =
                         fold_left (norm_step (negb a)) l [])
    by (intros l; rewrite fold_left_app; reflexivity).
  assert (L0 : forall X, "" ++ X = X) by reflexivity.
  destruct a, t; rewrite ?L0, ?app_nil_r_s, ?split_segs_lead, ?split_segs_trail, ?Hsplit;
    cbn [fold_left]; rewrite ?norm_step_empty, ?E';
    rewrite fold_rev_normal by exact Hst; reflexivity.
Qed.

(** [posix.normalize] leaves the string of a normal stack, with its root and
    trailing separator, unchanged. *)
Lemma normalize_stack_fixed (a t : bool) (st : list string) :
  normal_stack (negb a) st -> st <> [] ->
  normalize ((if a then "/" else "") ++ String.concat "/" (rev st) ++ (if t then "/" else "")) =
  (if a then "/" else "") ++ String.concat "/" (rev st) ++ (if t then "/" else "").
Proof.
  intros Hst Hne.
  pose proof (normal_segs _ _ Hst) as Hf.
  destruct (stack_string_ends st Hf Hne) as (Hsne & Hfirst & X & c & HX & Hc).
  pose proof (normalizeString_stack_fixed a t st Hst) as Hnorm.
  remember (String.concat "/" (rev st)) as s eqn:Hs.
  assert (Hq0 : (len ((if a then "/" else "") ++ s ++ (if t then "/" else "")) =? 0)%Z = false).
  { apply Z.eqb_neq. rewrite !len_app. pose proof (len_pos_s s Hsne).
    destruct a, t; unfold len in *; cbn [String.length] in *; lia. }
  assert (Hq1 : is_slash ((if a then "/" else "") ++ s ++ (if t then "/" else "")) 0 = a).
  { destruct a; [reflexivity |]. cbn [String.append].
    rewrite is_slash_app_0 by exact Hsne. exact Hfirst. }
  assert (Hq2 : is_slash ((if a then "/" else "") ++ s ++ (if t then "/" else ""))
                  (len ((if a then "/" else "") ++ s ++ (if t then "/" else "")) - 1) = t).
  { destruct t.
    - rewrite <- app_assoc_s. apply is_slash_last.
    - rewrite app_nil_r_s, HX, <- app_assoc_s, is_slash_last.
      apply Ascii.eqb_neq. exact Hc. }
  unfold normalize. rewrite Hq0. cbv zeta. rewrite Hq1, Hq2, Hnorm.
  rewrite (proj2 (Z.eqb_neq (len s) 0)) by (pose proof (len_pos_s s Hsne); lia).
  destruct a, t; cbn [String.append]; rewrite ?app_nil_r_s; reflexivity.
Qed.

Lemma normalize_spec (p : string) :
  (len p =? 0)%Z = false ->
  normalize p =
  (if (len (norm_spec (negb (is_slash p 0)) p) =? 0)%Z then
     if is_slash p 0 then "/" else if is_slash p (len p - 1) then "./" else "."
   else (if is_slash p 0 then "/" else "") ++ norm_spec (negb (is_slash p 0)) p ++
        (if is_slash p (len p - 1) then "/" else "")).
Proof.
  intros H0. unfold normalize. rewrite H0. cbv zeta. rewrite normalizeString_stack.
  destruct (len (norm_spec (negb (is_slash p 0)) p) =? 0)%Z; [reflexivity |].
  destruct (is_slash p 0), (is_slash p (len p - 1));
    cbn [String.append]; rewrite ?app_nil_r_s; reflexivity.
Qed.

(** X19: the loop of [normalizeString] (used by [posix.normalize], [join] and
    [resolve]) computes the documented reading [norm_spec]: the path is cut
    at each separator, empty and ['.'] segments are dropped, a ['..']
    removes the segment kept before it, and is kept itself only when there
    is none and [allowAboveRoot] holds; the segments kept are joined by
    single separators. *)
Theorem normalizeString_segment_stack (path : string) (allowAboveRoot : bool) :
  normalizeString path allowAboveRoot = norm_spec allowAboveRoot path.
Proof. exact (normalizeString_stack path allowAboveRoot). Qed.

Lemma normalize_normalize (p : string) : normalize (normalize p) = normalize p.
Proof.
  destruct (len p =? 0)%Z eqn:H0.
  - assert (Hp : normalize p = ".") by (unfold normalize; rewrite H0; reflexivity).
    rewrite Hp. reflexivity.
  - rewrite (normalize_spec p H0). unfold norm_spec.
    pose proof (fold_normal (negb (is_slash p 0)) (split_segs p) []
                  (split_aux_all_no_slash p "" I) (normal_nil _)) as Hn.
    destruct (fold_left (norm_step (negb (is_slash p 0))) (split_segs p) [])
      as [| top rest] eqn:Est.
    + destruct (is_slash p 0), (is_slash p (len p - 1)); reflexivity.
    + pose proof (stack_string_ends (top :: rest) (normal_segs _ _ Hn) ltac:(discriminate))
        as (Hsne & _).
      rewrite (proj2 (Z.eqb_neq _ 0)) by (pose proof (len_pos_s _ Hsne); lia).
      apply normalize_stack_fixed; [exact Hn | discriminate].
Qed.

(** X20: [posix.normalize] is idempotent. *)
Theorem normalize_idempotent (p : string) : normalize (normalize p) = normalize p.
Proof. exact (normalize_normalize p). Qed.

(** [posix.normalize] only depends on the first and last characters of the
    path and on what the fold of [norm_step] makes of its segments. *)
Lemma normalize_congr (p q : string) :
  (len p =? 0)%Z = false -> (len q =? 0)%Z = false ->
  is_slash p 0 = is_slash q 0 -> is_slash p (len p - 1) = is_slash q (len q - 1) ->
  (forall allow, fold_left (norm_step allow) (split_segs p) [] =
                 fold_left (norm_step allow) (split_segs q) []) ->
  normalize p = normalize q.
Proof.
  intros Hp Hq H1 H2 H3. rewrite (normalize_spec p Hp), (normalize_spec q Hq).
  unfold norm_spec. rewrite H1, H2, H3. reflexivity.
Qed.

(** Replacing, between [A] and [B], a piece [M] that starts and ends with a
    separator by another such piece [M'] keeps the first and last
    characters. *)
Lemma sandwich_ends (A B M M' X Y X' Y' : string) :
  M = "/" ++ X -> M = Y ++ "/" -> M' = "/" ++ X' -> M' = Y' ++ "/" ->
  (len (A ++ M ++ B) =? 0)%Z = false /\ (len (A ++ M' ++ B) =? 0)%Z = false /\
  is_slash (A ++ M ++ B) 0 = is_slash (A ++ M' ++ B) 0 /\
  is_slash (A ++ M ++ B) (len (A ++ M ++ B) - 1) =
  is_slash (A ++ M' ++ B) (len (A ++ M' ++ B) - 1).
Proof.
  intros E1 E2 E3 E4.
  split; [apply Z.eqb_neq; rewrite !len_app, E1; unfold len; cbn [String.length String.append]; lia |].
  split; [apply Z.eqb_neq; rewrite !len_app, E3; unfold len; cbn [String.length String.append]; lia |].
  split.
  - destruct A as [| c A]; [| reflexivity].
    change ("" ++ M ++ B) with (M ++ B). change ("" ++ M' ++ B) with (M' ++ B).
    rewrite E1, E3. reflexivity.
  - destruct (snoc_view B) as [-> | (B0 & c & ->)].
    + rewrite !app_nil_r_s. rewrite E2 at 1 2. rewrite E4 at 1 2.
      rewrite <- !app_assoc_s, !is_slash_last. reflexivity.
    + rewrite <- !app_assoc_s, !is_slash_last. reflexivity.
Qed.

Lemma split_segs_dot (B : string) : split_segs ("." ++ "/" ++ B) = "." :: split_segs B.
Proof. rewrite split_segs_slash. reflexivity. Qed.

(** X21: [posix.normalize] replaces a run of two separators by one. *)
Theorem normalize_collapses_separators (A B : string) :
  normalize (A ++ "//" ++ B) = normalize (A ++ "/" ++ B).
Proof.
  destruct (sandwich_ends A B "//" "/" "/" "/" "" "") as (H1 & H2 & H3 & H4); try reflexivity.
  apply normalize_congr; try assumption.
  intros allow. change (A ++ "//" ++ B) with (A ++ "/" ++ "/" ++ B).
  rewrite !split_segs_slash, split_segs_lead, !fold_left_app. reflexivity.
Qed.

(** X22: [posix.normalize] drops a ['.'] segment. *)
Theorem normalize_drops_dot_segment (A B : string) :
  normalize (A ++ "/./" ++ B) = normalize (A ++ "/" ++ B).
Proof.
  destruct (sandwich_ends A B "/./" "/" "./" "/." "" "") as (H1 & H2 & H3 & H4); try reflexivity.
  apply normalize_congr; try assumption.
  intros allow. change (A ++ "/./" ++ B) with (A ++ "/" ++ "." ++ "/" ++ B).
  rewrite !split_segs_slash, !fold_left_app. reflexivity.
Qed.

Lemma norm_step_parent (allow : bool) (w : string) (st : list string) :
  w <> ".." -> norm_step allow (w :: st) ".." = st.
Proof.
  intros Hw. unfold norm_step. simpl.
  rewrite (proj2 (String.eqb_neq w "..") Hw). reflexivity.
Qed.

(** X23: in [posix.normalize], a segment followed by ['..'] cancels out, for
    a segment other than [''], ['.'] and ['..']. *)
Theorem normalize_cancels_parent (A w B : string) :
  w <> "" -> no_slash w -> w <> "." -> w <> ".." ->
  normalize (A ++ "/" ++ w ++ "/../" ++ B) = normalize (A ++ "/" ++ B).
Proof.
  intros Hw1 Hw2 Hw3 Hw4.
  destruct (sandwich_ends A B ("/" ++ w ++ "/../") "/" (w ++ "/../") ("/" ++ w ++ "/..") "" "")
    as (H1 & H2 & H3 & H4); try reflexivity.
  { rewrite !app_assoc_s. reflexivity. }
  rewrite !app_assoc_s in H1, H3, H4.
  apply normalize_congr; try assumption.
  intros allow. change (w ++ "/../" ++ B) with (w ++ "/" ++ ".." ++ "/" ++ B).
  rewrite !split_segs_slash, !fold_left_app.
  assert (Ew : split_segs w = [w])
    by (unfold split_segs; rewrite split_aux_no_slash by exact Hw2; reflexivity).
  rewrite Ew. change (split_segs "..") with [".."]. cbn [fold_left].
  rewrite (plain_norm_step allow _ w) by (repeat split; assumption).
  rewrite norm_step_parent by exact Hw4. reflexivity.
Qed.

(** X24: on an absolute working directory, [posix.resolve] maps what it
    returns to itself. *)
Theorem resolve_resolved (cwd p : string) :
  is_slash cwd 0 = true ->
  resolve cwd [VStr (resolve1 cwd p)] = Some (resolve1 cwd p).
Proof.
  intros Hc. unfold resolve1.
  destruct (ResolveFacts.resolve_acc_strings cwd [VStr p] "" Hc) as [rp Hrp].
  { constructor; [eexists; reflexivity | constructor]. }
  unfold resolve at 2 3. cbn [rev List.app] in *. rewrite Hrp. cbn [negb].
  rewrite normalizeString_stack. unfold norm_spec.
  pose proof (fold_normal false (split_segs rp) []
                (split_aux_all_no_slash rp "" I) (normal_nil _)) as Hn.
  set (st := fold_left (norm_step false) (split_segs rp) []) in *.
  unfold resolve. cbn [rev List.app].
  rewrite ResolveFacts.resolve_acc_absolute by reflexivity. cbn [negb].
  rewrite app_nil_r_s, app_assoc_s.
  pose proof (normalizeString_stack_fixed true true st Hn) as E.
  cbn [negb] in E. rewrite E. reflexivity.
Qed.

Lemma normalize_cancels_parent_witness :
  ("x" <> "" /\ no_slash "x" /\ "x" <> "." /\ "x" <> "..") /\
  normalize ("/a" ++ "/" ++ "x" ++ "/../" ++ "b/") = normalize ("/a" ++ "/" ++ "b/").
Proof.
  assert (Hx : no_slash "x") by (simpl; split; [discriminate | exact I]).
  split; [split; [discriminate | split; [exact Hx | split; discriminate]] |].
  exact (normalize_cancels_parent "/a" "x" "b/" ltac:(discriminate) Hx
           ltac:(discriminate) ltac:(discriminate)).
Defined.

Lemma resolve_resolved_witness :
  is_slash "/home" 0 = true /\
  resolve "/home" [VStr (resolve1 "/home" "../x/./y")] = Some (resolve1 "/home" "../x/./y").
Proof.
  split; [reflexivity |].
  exact (resolve_resolved "/home" "../x/./y" eq_refl).
Defined.

End NormStack.

Module RelFacts.
Import Js NodePosix ParseShape ParseFacts PathSegments NormFacts SuffixFacts NormStack.

Lemma is_slash_app_len (X Y : string) : is_slash (X ++ Y) (len X) = is_slash Y 0.
Proof.
  unfold is_slash. rewrite len_nat, <- (Nat.add_0_r (String.length X)), char_at_app.
  reflexivity.
Qed.

Lemma slice_from_app (X Y : string) : slice_from (X ++ Y) (len X) = Y.
Proof. unfold slice_from. apply slice_rest. Qed.

Lemma split_aux_length (Y cur cur' : string) :
  length (split_aux Y cur) = length (split_aux Y cur').
Proof.
  revert cur cur'. induction Y as [| c Y IH]; intros cur cur'; [reflexivity |].
  cbn [split_aux]. destruct (Ascii.eqb c "/"%char); [cbn [length]; f_equal |]; apply IH.
Qed.

Lemma split_segs_cons_length (c : Ascii.ascii) (Y : string) :
  c <> "/"%char -> length (split_segs (String c Y)) = length (split_segs Y).
Proof.
  intros Hc. unfold split_segs. cbn [split_aux]. rewrite (not_slash_eqb c Hc).
  apply split_aux_length.
Qed.

Lemma concat_app_sep (l : list string) (x : string) :
  l <> [] -> String.concat "/" (l ++ [x])%list = String.concat "/" l ++ "/" ++ x.
Proof.
  induction l as [| a l IH]; intros Hl; [congruence |].
  destruct l as [| b l]; [reflexivity |].
  specialize (IH ltac:(discriminate)).
  transitivity (a ++ "/" ++ String.concat "/" ((b :: l) ++ [x])%list); [reflexivity |].
  rewrite IH.
  change (String.concat "/" (a :: b :: l)) with (a ++ "/" ++ String.concat "/" (b :: l)).
  rewrite !app_assoc_s. reflexivity.
Qed.

Lemma concat_ups_snoc (m : nat) :
  String.concat "/" (repeat ".." m) ++ (if (len (String.concat "/" (repeat ".." m)) =? 0)%Z
                                        then ".." else "/..") =
  String.concat "/" (repeat ".." (S m)).
Proof.
  destruct m as [| k]; [reflexivity |].
  destruct (concat_cons_app ".." (repeat ".." k)) as [rest E].
  change (repeat ".." (S k)) with (".." :: repeat ".." k) at 1 2. rewrite E.
  cbn [len String.length String.append].
  replace (S (S k)) with (S k + 1)%nat by lia. rewrite repeat_app.
  change (repeat ".." 1) with [".."].
  rewrite concat_app_sep by discriminate.
  change (repeat ".." (S k)) with (".." :: repeat ".." k). rewrite E. reflexivity.
Qed.

Lemma up_segments_count (Y X : string) (fuel m : nat) :
  (S (String.length Y) <= fuel)%nat ->
  up_segments (X ++ Y) fuel (len X) (len (X ++ Y)) (String.concat "/" (repeat ".." m)) =
  String.concat "/" (repeat ".." (m + length (split_segs Y))).
Proof.
  revert X fuel m. induction Y as [| c Y IH]; intros X fuel m Hf.
  - destruct fuel as [| fuel]; [lia |]. cbn [up_segments].
    rewrite app_nil_r_s, Z.ltb_irrefl, Z.eqb_refl. cbn [orb].
    rewrite concat_ups_snoc. replace (m + length (split_segs ""))%nat with (S m) by
      (cbn; lia).
    destruct fuel as [| fuel]; [reflexivity |]. cbn [up_segments].
    rewrite (proj2 (Z.ltb_lt _ _)) by lia. reflexivity.
  - destruct fuel as [| fuel]; [lia |]. cbn [up_segments].
    rewrite len_app, (proj2 (Z.ltb_ge _ _)) by (pose proof (len_nonneg (String c Y)); lia).
    rewrite (proj2 (Z.eqb_neq _ _)) by (unfold len; cbn [String.length]; lia).
    cbn [orb]. rewrite is_slash_at. rewrite snoc_app.
    replace (len X + 1)%Z with (len (X ++ String c "")) by (rewrite len_snoc; reflexivity).
    replace (len X + len (String c Y))%Z with (len ((X ++ String c "") ++ Y))
      by (rewrite <- snoc_app, len_app; reflexivity).
    destruct (Ascii.eqb_spec c "/"%char) as [-> | Hc].
    + rewrite concat_ups_snoc, IH by (cbn [String.length] in Hf; lia).
      f_equal. f_equal. unfold split_segs. cbn [split_aux]. rewrite Ascii.eqb_refl.
      cbn [length]. lia.
    + rewrite IH by (cbn [String.length] in Hf; lia).
      rewrite split_segs_cons_length by exact Hc. reflexivity.
Qed.

Lemma len_slash_app (A : string) : len ("/" ++ A) = (1 + len A)%Z.
Proof. rewrite len_app. reflexivity. Qed.

Lemma len_cons (c : Ascii.ascii) (A : string) : len (String c A) = (1 + len A)%Z.
Proof. exact (len_slash_app A). Qed.

(** The common-prefix scan of [posix.relative] stops at the first
    difference of [from] and [to] after their leading separator, or at
    [length]; [lastCommonSep] is the last separator it has passed. *)
Lemma common_prefix_spec (fuel : nat) : forall (A f2 t2 : string) (length lcs i j : Z),
  Z.of_nat fuel = (length - len A)%Z ->
  (length <= len A + len f2)%Z -> (length <= len A + len t2)%Z ->
  common_prefix ("/" ++ A ++ f2) ("/" ++ A ++ t2) fuel (len A) length lcs = (i, j) ->
  exists B f3 t3, f2 = B ++ f3 /\ t2 = B ++ t3 /\ i = (len A + len B)%Z /\ (i <= length)%Z /\
    ((i < length)%Z -> exists c1 c2 f4 t4, f3 = String c1 f4 /\ t3 = String c2 t4 /\ c1 <> c2) /\
    ((no_slash B /\ j = lcs) \/
     exists B1 B2, B = B1 ++ "/" ++ B2 /\ no_slash B2 /\ j = (len A + len B1)%Z).
Proof.
  induction fuel as [| fuel IH]; intros A f2 t2 length lcs i j Hfuel Hf Ht Hcp.
  - cbn [common_prefix] in Hcp. injection Hcp as <- <-.
    exists "", f2, t2. split; [reflexivity | split; [reflexivity |]].
    split; [cbn; lia | split; [lia | split; [lia |]]]. left. split; [exact I | reflexivity].
  - cbn [common_prefix] in Hcp.
    rewrite (proj2 (Z.ltb_lt _ _)) in Hcp by lia.
    destruct f2 as [| c1 f2]; [cbn in Hf; lia |].
    destruct t2 as [| c2 t2]; [cbn in Ht; lia |].
    rewrite <- !app_assoc_s in Hcp.
    replace (1 + len A)%Z with (len ("/" ++ A)) in Hcp by apply len_slash_app.
    rewrite !char_at_at, is_slash_at in Hcp. cbn [code_eqb] in Hcp.
    destruct (Ascii.eqb_spec c1 c2) as [<- | Hc]; cbn [negb] in Hcp.
    + rewrite !app_assoc_s, (snoc_app A f2 c1), (snoc_app A t2 c1) in Hcp.
      replace (len A + 1)%Z with (len (A ++ String c1 "")) in Hcp by apply len_snoc.
      destruct (IH (A ++ String c1 "") f2 t2 length
                  (if Ascii.eqb c1 "/"%char then len A else lcs) i j) as
        (B & f3 & t3 & -> & -> & Hi & Hil & Hd & Hj).
      * rewrite len_snoc. lia.
      * rewrite len_snoc. rewrite len_cons in Hf. lia.
      * rewrite len_snoc. rewrite len_cons in Ht. lia.
      * exact Hcp.
      * exists (String c1 B), f3, t3.
        split; [reflexivity | split; [reflexivity |]].
        rewrite len_snoc in Hi, Hj. rewrite len_cons.
        split; [lia | split; [exact Hil | split; [exact Hd |]]].
        destruct Hj as [[HB Hj] | (B1 & B2 & HB & HB2 & Hj)].
        -- destruct (Ascii.eqb_spec c1 "/"%char) as [-> | Hc1].
           ++ right. exists "", B. split; [reflexivity | split; [exact HB |]].
              rewrite Hj. cbn. lia.
           ++ left. split; [split; assumption | exact Hj].
        -- right. exists (String c1 B1), B2. rewrite HB.
           split; [reflexivity | split; [exact HB2 |]]. rewrite len_cons. lia.
    + injection Hcp as <- <-.
      exists "", (String c1 f2), (String c2 t2).
      split; [reflexivity | split; [reflexivity |]].
      split; [cbn; lia | split; [lia | split]].
      * intros _. exists c1, c2, f2, t2. auto.
      * left. split; [exact I | reflexivity].
Qed.

Lemma split_aux_ne (s cur : string) : split_aux s cur <> [].
Proof.
  revert cur. induction s as [| c s IH]; intros cur; cbn [split_aux]; [discriminate |].
  destruct (Ascii.eqb c "/"%char); [discriminate | apply IH].
Qed.

(** A path whose first segment is not empty neither is empty nor starts
    with a separator. *)
Lemma split_head (s w : string) (rest : list string) :
  split_segs s = w :: rest -> w <> "" -> s <> "" /\ is_slash s 0 = false.
Proof.
  unfold split_segs. destruct s as [| c s]; cbn [split_aux].
  - intros E Hw. injection E as <- _. congruence.
  - destruct (Ascii.eqb c "/"%char) eqn:Ec.
    + intros E Hw. injection E as <- _. congruence.
    + intros _ _. split; [discriminate |].
      unfold is_slash, char_at. cbn. exact Ec.
Qed.

Lemma plain_concat (L : list string) :
  Forall plain_seg L -> L <> [] ->
  String.concat "/" L <> "" /\ is_slash (String.concat "/" L) 0 = false /\
  split_segs (String.concat "/" L) = L.
Proof.
  intros HL Hne.
  assert (Hw : Forall (fun w => w <> "" /\ no_slash w) (rev L)).
  { apply Forall_rev. eapply Forall_impl; [| exact HL]. intros w (H1 & H2 & _). auto. }
  assert (Hr : rev L <> []).
  { intros E. apply Hne. rewrite <- (rev_involutive L), E. reflexivity. }
  destruct (stack_string_ends (rev L) Hw Hr) as (H1 & H2 & _).
  rewrite rev_involutive in H1, H2.
  split; [exact H1 | split; [exact H2 |]].
  apply split_segs_concat; [exact Hne |].
  eapply Forall_impl; [| exact HL]. intros w (_ & H & _). exact H.
Qed.

Lemma plain_concat_nil (L : list string) :
  Forall plain_seg L -> String.concat "/" L = "" -> L = [].
Proof.
  intros HL E. destruct L as [| w L]; [reflexivity |].
  exfalso. apply (proj1 (plain_concat (w :: L) HL ltac:(discriminate))). exact E.
Qed.

Lemma plain_concat_inj (L M : list string) :
  Forall plain_seg L -> Forall plain_seg M ->
  String.concat "/" L = String.concat "/" M -> L = M.
Proof.
  intros HL HM E.
  destruct L as [| w L].
  - symmetry. apply plain_concat_nil; [exact HM | rewrite <- E; reflexivity].
  - destruct M as [| v M].
    + exfalso. apply (proj1 (plain_concat (w :: L) HL ltac:(discriminate))). exact E.
    + rewrite <- (proj2 (proj2 (plain_concat (w :: L) HL ltac:(discriminate)))),
        <- (proj2 (proj2 (plain_concat (v :: M) HM ltac:(discriminate)))), E.
      reflexivity.
Qed.

(** [n] times ['..'] joined by separators. *)
Lemma split_ups (n : nat) :
  (1 <= n)%nat -> split_segs (String.concat "/" (repeat ".." n)) = repeat ".." n.
Proof.
  intros Hn. apply split_segs_concat.
  - destruct n; [lia | discriminate].
  - apply Forall_forall. intros x Hx. apply repeat_spec in Hx. subst x.
    split; [discriminate | split; [discriminate | exact I]].
Qed.

Lemma length_split_pos (s : string) : (1 <= length (split_segs s))%nat.
Proof.
  pose proof (split_aux_ne s "") as H. unfold split_segs.
  destruct (split_aux s ""); [congruence | cbn; lia].
Qed.

Lemma up_segments_at (X Y : string) (fuel : nat) (s e : Z) :
  s = len X -> e = len (X ++ Y) -> (S (String.length Y) <= fuel)%nat ->
  up_segments (X ++ Y) fuel s e "" =
  String.concat "/" (repeat ".." (length (split_segs Y))).
Proof. intros -> ->. exact (up_segments_count Y X fuel 0). Qed.

Lemma ups_head (n : nat) (rest : list string) :
  (1 <= n)%nat -> exists tl, (repeat ".." n ++ rest)%list = ".." :: tl.
Proof. intros Hn. destruct n; [lia |]. eexists. reflexivity. Qed.

Lemma forall_app_r (A : Type) (P : A -> Prop) (l1 l2 : list A) :
  Forall P (l1 ++ l2)%list -> Forall P l2.
Proof. intros H. apply Forall_app in H. exact (proj2 H). Qed.

(** The general case of the tail of [posix.relative]: one ['..'] per
    segment of [from] after the last separator the two paths share, then
    what follows that separator in [to]. *)
Lemma relative_tail_up (f' t' B f3 t3 : string) (j : Z) (Fl Tl : list string) :
  Forall plain_seg Fl -> Forall plain_seg Tl ->
  f' = String.concat "/" Fl -> t' = String.concat "/" Tl ->
  f' = B ++ f3 -> t' = B ++ t3 -> f' <> "" -> t' <> "" ->
  ((no_slash B /\ j = (-1)%Z) \/
   exists B1 B2, B = B1 ++ "/" ++ B2 /\ no_slash B2 /\ j = len B1) ->
  exists C Fr Tr, Fl = (C ++ Fr)%list /\ Tl = (C ++ Tr)%list /\
    split_segs (up_segments ("/" ++ f') (S (String.length ("/" ++ f'))) (1 + j + 1)
                  (len ("/" ++ f')) "" ++ slice_from ("/" ++ t') (1 + j)) =
    (repeat ".." (length Fr) ++ Tr)%list.
Proof.
  intros HFl HTl Ef Et Hf3 Ht3 Hf Ht Hj.
  assert (EFl : split_segs f' = Fl).
  { subst f'. apply plain_concat; [exact HFl |]. intros ->. apply Hf. reflexivity. }
  assert (ETl : split_segs t' = Tl).
  { subst t'. apply plain_concat; [exact HTl |]. intros ->. apply Ht. reflexivity. }
  destruct Hj as [[_ ->] | (B1 & B2 & -> & _ & ->)].
  - rewrite (up_segments_at "/" f') by (try reflexivity; rewrite length_app; cbn; lia).
    change (slice_from ("/" ++ t') (1 + -1)) with (slice_from ("" ++ ("/" ++ t')) (len "")).
    rewrite slice_from_app.
    exists [], Fl, Tl. split; [reflexivity | split; [reflexivity |]].
    rewrite split_segs_slash, split_ups by apply length_split_pos.
    rewrite EFl, ETl. reflexivity.
  - assert (Ef2 : "/" ++ f' = ("/" ++ B1 ++ "/") ++ (B2 ++ f3))
      by (rewrite Hf3, !app_assoc_s; reflexivity).
    assert (Et2 : "/" ++ t' = ("/" ++ B1) ++ "/" ++ (B2 ++ t3))
      by (rewrite Ht3, !app_assoc_s; reflexivity).
    rewrite Ef2. rewrite (up_segments_at ("/" ++ B1 ++ "/") (B2 ++ f3)).
    2: { rewrite !len_app. change (len "/") with 1%Z. lia. }
    2: reflexivity.
    2: { rewrite !length_app. cbn [String.length String.append]. lia. }
    rewrite Et2. replace (1 + len B1)%Z with (len ("/" ++ B1)) by apply len_slash_app.
    rewrite slice_from_app.
    exists (split_segs B1), (split_segs (B2 ++ f3)), (split_segs (B2 ++ t3)).
    rewrite <- EFl, <- ETl, Hf3, Ht3, !app_assoc_s, !split_segs_slash.
    split; [reflexivity | split; [reflexivity |]].
    rewrite split_ups by apply length_split_pos. reflexivity.
Qed.

Lemma len_zero (s : string) : len s = 0%Z -> s = "".
Proof. destruct s; [reflexivity | unfold len; cbn [String.length]; lia]. Qed.

Lemma relative_segments (cwd f t : string) (Fl Tl : list string) :
  Forall plain_seg Fl -> Forall plain_seg Tl ->
  resolve1 cwd f = "/" ++ String.concat "/" Fl ->
  resolve1 cwd t = "/" ++ String.concat "/" Tl ->
  String.eqb f t = false -> Fl <> Tl ->
  exists C Fr Tr, Fl = (C ++ Fr)%list /\ Tl = (C ++ Tr)%list /\
    split_segs (relative cwd f t) = (repeat ".." (length Fr) ++ Tr)%list.
Proof.
  intros HFl HTl HF HT Hft Hne.
  remember (relative cwd f t) as r eqn:Er.
  unfold relative in Er. rewrite Hft, HF, HT in Er.
  rewrite (proj2 (String.eqb_neq _ _)) in Er.
  2: { intros E. apply Hne. apply plain_concat_inj; [exact HFl | exact HTl |].
       injection E as E. exact E. }
  cbv zeta in Er.
  remember (String.concat "/" Fl) as f' eqn:Ef.
  remember (String.concat "/" Tl) as t' eqn:Et.
  match type of Er with context [common_prefix ?a ?b ?c ?d ?e ?g] =>
    destruct (common_prefix a b c d e g) as [i j] eqn:Ecp end.
  cbv beta iota in Er. subst r.
  pose proof (len_slash_app f') as Hlf. pose proof (len_slash_app t') as Hlt.
  pose proof (len_nonneg f') as Hf0. pose proof (len_nonneg t') as Ht0.
  set (L := Z.min (len ("/" ++ f') - 1) (len ("/" ++ t') - 1)) in *.
  assert (HL : (0 <= L)%Z) by lia.
  assert (HLf : (L <= len f')%Z) by (unfold L; lia).
  assert (HLt : (L <= len t')%Z) by (unfold L; lia).
  assert (HLm : L = len f' \/ L = len t') by (unfold L; lia).
  destruct (common_prefix_spec (Z.to_nat L) "" f' t' L (-1) i j)
    as (B & f3 & t3 & Hf3 & Ht3 & Hi & HiL & Hd & Hj).
  { rewrite Z2Nat.id by lia. change (len "") with 0%Z. lia. }
  { change (len "") with 0%Z. lia. }
  { change (len "") with 0%Z. lia. }
  { exact Ecp. }
  change (len "") with 0%Z in Hi, Hj. rewrite Z.add_0_l in Hi.
  assert (Hlf3 : len f' = (len B + len f3)%Z) by (rewrite Hf3, len_app; reflexivity).
  assert (Hlt3 : len t' = (len B + len t3)%Z) by (rewrite Ht3, len_app; reflexivity).
  pose proof (len_nonneg f3) as Hf30. pose proof (len_nonneg t3) as Ht30.
  assert (Hnf : f' <> "" -> split_segs f' = Fl).
  { intros H. subst f'. apply plain_concat; [exact HFl |]. intros ->. apply H. reflexivity. }
  assert (Hnt : t' <> "" -> split_segs t' = Tl).
  { intros H. subst t'. apply plain_concat; [exact HTl |]. intros ->. apply H. reflexivity. }
  assert (Hsf : f' <> "" -> is_slash f' 0 = false).
  { intros H. subst f'. apply plain_concat; [exact HFl |]. intros ->. apply H. reflexivity. }
  assert (Hst : t' <> "" -> is_slash t' 0 = false).
  { intros H. subst t'. apply plain_concat; [exact HTl |]. intros ->. apply H. reflexivity. }
  assert (Hne' : f' <> t').
  { intros E. apply Hne. apply plain_concat_inj; [exact HFl | exact HTl |]. congruence. }
  destruct (Z.eqb_spec i L) as [HiL' | HiL'].
  - destruct (Z.ltb_spec L (len ("/" ++ t') - 1)) as [Hlt' | Hlt'].
    + (* [from] is a prefix of [to] *)
      assert (Ef3 : f3 = "") by (apply len_zero; lia). subst f3.
      rewrite app_nil_r_s in Hf3.
      destruct t3 as [| c t4]; [change (len "") with 0%Z in Hlt3; lia |].
      assert (Hs : is_slash ("/" ++ t') (1 + i) = Ascii.eqb c "/"%char).
      { rewrite Ht3, <- app_assoc_s, Hi, <- len_slash_app. apply is_slash_at. }
      rewrite Hs.
      destruct (Ascii.eqb_spec c "/"%char) as [-> | Hc].
      * assert (Hr : slice_from ("/" ++ t') (1 + i + 1) = t4).
        { rewrite Ht3, Hi.
          replace (1 + len B + 1)%Z with (len ("/" ++ B ++ "/"))
            by (rewrite !len_app; change (len "/") with 1%Z; lia).
          replace ("/" ++ B ++ String "/" t4) with (("/" ++ B ++ "/") ++ t4)
            by (rewrite !app_assoc_s; reflexivity).
          apply slice_from_app. }
        rewrite Hr.
        assert (HB : B <> "").
        { intros ->. assert (Ht'' : t' <> "") by (rewrite Ht3; discriminate).
          specialize (Hst Ht''). rewrite Ht3 in Hst. discriminate. }
        exists Fl, [], (split_segs t4).
        split; [rewrite app_nil_r; reflexivity | split; [| reflexivity]].
        rewrite <- Hnt by (rewrite Ht3; destruct B; discriminate).
        rewrite <- Hnf by (rewrite Hf3; exact HB).
        rewrite Ht3, Hf3. change (String "/" t4) with ("/" ++ t4).
        apply split_segs_slash.
      * cbv iota.
        destruct (Z.eqb_spec i 0) as [Hi0 | Hi0].
        -- assert (EB : B = "") by (apply len_zero; lia). rewrite EB in Hf3, Ht3, Hi.
           cbn [String.append] in Hf3, Ht3.
           assert (EFl : Fl = []) by (apply plain_concat_nil; [exact HFl | congruence]).
           rewrite Hi0. change (1 + 0)%Z with (len "/"). rewrite slice_from_app.
           exists [], [], Tl. rewrite EFl.
           split; [reflexivity | split; [reflexivity |]].
           apply Hnt. rewrite Ht3. discriminate.
        -- cbv iota.
           apply (relative_tail_up f' t' B "" (String c t4) j Fl Tl HFl HTl Ef Et);
             try assumption.
           ++ rewrite app_nil_r_s. exact Hf3.
           ++ intros E. rewrite E in Hlf3. change (len "") with 0%Z in Hlf3. lia.
           ++ rewrite Ht3. destruct B; discriminate.
    + destruct (Z.ltb_spec L (len ("/" ++ f') - 1)) as [Hlf' | Hlf'].
      * (* [to] is a prefix of [from] *)
        assert (Et3 : t3 = "") by (apply len_zero; lia). subst t3.
        rewrite app_nil_r_s in Ht3.
        destruct f3 as [| c f4]; [change (len "") with 0%Z in Hlf3; lia |].
        assert (Hs : is_slash ("/" ++ f') (1 + i) = Ascii.eqb c "/"%char).
        { rewrite Hf3, <- app_assoc_s, Hi, <- len_slash_app. apply is_slash_at. }
        rewrite Hs.
        assert (Hf'' : f' <> "") by (rewrite Hf3; destruct B; discriminate).
        destruct (Ascii.eqb_spec c "/"%char) as [-> | Hc].
        -- cbv iota.
           assert (HB : B <> "").
           { intros ->. specialize (Hsf Hf''). rewrite Hf3 in Hsf. discriminate. }
           assert (Ef2 : "/" ++ f' = ("/" ++ B ++ "/") ++ f4)
             by (rewrite Hf3, !app_assoc_s; reflexivity).
           rewrite Ef2, (up_segments_at ("/" ++ B ++ "/") f4).
           2: { rewrite Hi, !len_app. change (len "/") with 1%Z. lia. }
           2: reflexivity.
           2: { rewrite !length_app. cbn [String.length String.append]. lia. }
           rewrite Ht3, Hi, <- len_slash_app, slice_from_end, app_nil_r_s.
           exists Tl, (split_segs f4), [].
           split; [| split; [rewrite app_nil_r; reflexivity |]].
           ++ rewrite <- (Hnf Hf''), <- Hnt by (rewrite Ht3; exact HB).
              rewrite Hf3, Ht3. change (String "/" f4) with ("/" ++ f4).
              apply split_segs_slash.
           ++ rewrite app_nil_r. apply split_ups. apply length_split_pos.
        -- cbv iota.
           destruct (Z.eqb_spec i 0) as [Hi0 | Hi0].
           ++ assert (EB : B = "") by (apply len_zero; lia). rewrite EB in Hf3, Ht3, Hi.
              cbn [String.append] in Hf3, Ht3.
              assert (ETl : Tl = []) by (apply plain_concat_nil; [exact HTl | congruence]).
              assert (Ef2 : "/" ++ f' = ("/" ++ String c "") ++ f4) by (rewrite Hf3; reflexivity).
              rewrite Ef2, (up_segments_at ("/" ++ String c "") f4).
              2: reflexivity.
              2: reflexivity.
              2: { rewrite !length_app. cbn [String.length String.append]. lia. }
              rewrite Ht3. change (slice_from ("/" ++ "") (1 + 0)) with "".
              rewrite app_nil_r_s.
              exists [], Fl, []. rewrite ETl.
              split; [reflexivity | split; [reflexivity |]].
              rewrite app_nil_r, split_ups by apply length_split_pos.
              rewrite <- (Hnf Hf''), Hf3, (split_segs_cons_length c f4 Hc). reflexivity.
           ++ apply (relative_tail_up f' t' B (String c f4) "" j Fl Tl HFl HTl Ef Et);
                try assumption.
              ** rewrite app_nil_r_s. exact Ht3.
              ** intros E. rewrite E in Hlt3. change (len "") with 0%Z in Hlt3. lia.
      * exfalso. apply Hne'.
        assert (Ef3 : f3 = "") by (apply len_zero; lia).
        assert (Et3 : t3 = "") by (apply len_zero; lia).
        rewrite Hf3, Ht3, Ef3, Et3. reflexivity.
  - destruct (Hd ltac:(lia)) as (c1 & c2 & f4 & t4 & -> & -> & _).
    apply (relative_tail_up f' t' B (String c1 f4) (String c2 t4) j Fl Tl HFl HTl Ef Et);
      try assumption.
    + rewrite Hf3. destruct B; discriminate.
    + rewrite Ht3. destruct B; discriminate.
Qed.

Lemma resolve_acc_empty (rest : list value) (acc : string) :
  resolve_acc (VStr "" :: rest) acc = resolve_acc rest acc.
Proof. reflexivity. Qed.

Lemma resolve_acc_rel (p : string) (rest : list value) (acc : string) :
  p <> "" -> is_slash p 0 = false ->
  resolve_acc (VStr p :: rest) acc = resolve_acc rest (p ++ "/" ++ acc).
Proof.
  intros Hp Hs. cbn [resolve_acc].
  replace (len p =? 0)%Z with false by (destruct p; [congruence | reflexivity]).
  rewrite Hs. reflexivity.
Qed.

Lemma resolve_acc_pair (cwd f : string) :
  is_slash cwd 0 = true ->
  exists X, forall acc, resolve_acc [VStr f; VStr cwd] acc = Some (X ++ "/" ++ acc, true).
Proof.
  intros Hc. destruct (String.eqb_spec f "") as [-> | Hf0].
  - exists cwd. intros acc. rewrite resolve_acc_empty.
    apply ResolveFacts.resolve_acc_absolute. exact Hc.
  - destruct (is_slash f 0) eqn:Hs.
    + exists f. intros acc. apply ResolveFacts.resolve_acc_absolute. exact Hs.
    + exists (cwd ++ "/" ++ f). intros acc.
      rewrite resolve_acc_rel by assumption.
      rewrite ResolveFacts.resolve_acc_absolute by exact Hc.
      rewrite !app_assoc_s. reflexivity.
Qed.

(** [resolve(f, r)] continues from the stack of segments of [resolve(f)]. *)
Lemma resolve_then (cwd f : string) :
  is_slash cwd 0 = true ->
  exists st, normal_stack false st /\
    resolve1 cwd f = "/" ++ String.concat "/" (rev st) /\
    resolve cwd [VStr f; VStr ""] = Some (resolve1 cwd f) /\
    forall r, r <> "" -> is_slash r 0 = false ->
      resolve cwd [VStr f; VStr r] =
      Some ("/" ++ String.concat "/"
              (rev (fold_left (norm_step false) (split_segs r ++ [""])%list st))).
Proof.
  intros Hc. destruct (resolve_acc_pair cwd f Hc) as [X HX].
  set (st := fold_left (norm_step false) (split_segs X) []).
  assert (R1 : resolve cwd [VStr f] = Some ("/" ++ String.concat "/" (rev st))).
  { unfold resolve. cbn [rev List.app]. rewrite HX. cbv beta iota zeta. cbn [negb].
    rewrite normalizeString_stack. unfold norm_spec.
    rewrite split_segs_slash, fold_left_app. change (split_segs "") with [""].
    cbn [fold_left]. rewrite norm_step_empty. reflexivity. }
  exists st. split.
  { apply fold_normal; [apply split_aux_all_no_slash; exact I | apply normal_nil]. }
  assert (E1 : resolve1 cwd f = "/" ++ String.concat "/" (rev st))
    by (unfold resolve1; rewrite R1; reflexivity).
  split; [exact E1 | split].
  - rewrite E1. change (resolve cwd [VStr f; VStr ""]) with (resolve cwd [VStr f]).
    exact R1.
  - intros r Hr Hrs. unfold resolve. cbn [rev List.app].
    rewrite resolve_acc_rel by assumption. rewrite HX. cbv beta iota zeta. cbn [negb].
    rewrite normalizeString_stack. unfold norm_spec.
    rewrite split_segs_slash, split_segs_slash, fold_left_app.
    change (split_segs "") with [""]. reflexivity.
Qed.

Lemma normal_false_plain (st : list string) : normal_stack false st -> Forall plain_seg st.
Proof. intros (names & ups & -> & Hn & _ & Ha). rewrite (Ha eq_refl), app_nil_r. exact Hn. Qed.

Lemma fold_pops (R st : list string) :
  Forall plain_seg R ->
  fold_left (norm_step false) (repeat ".." (length R)) (R ++ st)%list = st.
Proof.
  intros HR. induction HR as [| x R (_ & _ & _ & Hx) _ IH]; [reflexivity |].
  cbn [length repeat fold_left List.app]. rewrite norm_step_parent by exact Hx. exact IH.
Qed.

(** [relative] gives a path without a leading separator, from which
    [resolve] leads back to [to]. *)
Lemma relative_resolves (cwd from to : string) :
  is_slash cwd 0 = true ->
  resolve cwd [VStr from; VStr (relative cwd from to)] = Some (resolve1 cwd to) /\
  is_slash (relative cwd from to) 0 = false.
Proof.
  intros Hc.
  destruct (resolve_then cwd from Hc) as (st & Hst & HF & H0 & Hr).
  destruct (resolve_then cwd to Hc) as (sT & HsT & HT & _ & _).
  pose proof (Forall_rev (normal_false_plain st Hst)) as HFl.
  pose proof (Forall_rev (normal_false_plain sT HsT)) as HTl.
  destruct (String.eqb from to) eqn:Eft.
  - apply String.eqb_eq in Eft. subst to.
    unfold relative. rewrite String.eqb_refl. split; [exact H0 | reflexivity].
  - destruct (list_eq_dec string_dec (rev st) (rev sT)) as [Eq | Hne].
    + assert (Er : relative cwd from to = "").
      { unfold relative. rewrite Eft, HF, HT, Eq, String.eqb_refl. reflexivity. }
      rewrite Er, H0, HF, HT, Eq. split; reflexivity.
    + destruct (relative_segments cwd from to (rev st) (rev sT) HFl HTl HF HT Eft Hne)
        as (C & Fr & Tr & EF & ET & Es).
      assert (Hhead : exists w rest, split_segs (relative cwd from to) = w :: rest /\ w <> "").
      { rewrite Es. destruct Fr as [| x Fr].
        - destruct Tr as [| w Tr].
          + exfalso. apply Hne. rewrite EF, ET. reflexivity.
          + exists w, Tr. split; [reflexivity |].
            rewrite ET in HTl. apply forall_app_r in HTl.
            inversion HTl as [| ? ? (Hw & _) _]. exact Hw.
        - eexists; eexists. split; [reflexivity | discriminate]. }
      destruct Hhead as (w & rest & Hw & Hwne).
      destruct (split_head _ w rest Hw Hwne) as [Hrne Hrs].
      split; [| exact Hrs].
      rewrite (Hr _ Hrne Hrs), Es, !fold_left_app.
      rewrite <- (rev_involutive st), EF, rev_app_distr.
      rewrite <- (length_rev Fr), fold_pops.
      2: { apply Forall_rev. rewrite EF in HFl. apply forall_app_r in HFl. exact HFl. }
      rewrite (fold_plain false Tr).
      2: { rewrite ET in HTl. apply forall_app_r in HTl. exact HTl. }
      cbn [fold_left]. rewrite norm_step_empty.
      rewrite <- rev_app_distr, <- ET, rev_involutive, HT. reflexivity.
Qed.

(** X25: on an absolute working directory, [posix.resolve(from,
    posix.relative(from, to))] is [posix.resolve(to)]: [relative] is the
    reverse transform of [resolve]. *)
Theorem resolve_relative (cwd from to : string) :
  is_slash cwd 0 = true ->
  resolve cwd [VStr from; VStr (relative cwd from to)] = Some (resolve1 cwd to).
Proof. intros Hc. exact (proj1 (relative_resolves cwd from to Hc)). Qed.

(** X26: on an absolute working directory, [posix.relative(from, to)] is
    empty only when [from] and [to] resolve to the same path. *)
Theorem relative_empty_iff (cwd from to : string) :
  is_slash cwd 0 = true ->
  (relative cwd from to = "" <-> resolve1 cwd from = resolve1 cwd to).
Proof.
  intros Hc. split.
  - intros Hr0. destruct (relative_resolves cwd from to Hc) as [H _].
    destruct (resolve_then cwd from Hc) as (_ & _ & _ & H0 & _).
    rewrite Hr0, H0 in H. injection H as H. exact H.
  - intros E. unfold relative. destruct (String.eqb from to); [reflexivity |].
    rewrite E, String.eqb_refl. reflexivity.
Qed.

(** X27: on an absolute working directory, [posix.relative] never returns
    an absolute path. *)
Theorem relative_not_absolute (cwd from to : string) :
  is_slash cwd 0 = true -> isAbsolute (relative cwd from to) = false.
Proof.
  intros Hc. unfold isAbsolute.
  rewrite (proj2 (relative_resolves cwd from to Hc)). apply andb_false_r.
Qed.

Lemma resolve_relative_witness :
  is_slash "/home/u" 0 = true /\
  resolve "/home/u" [VStr "docs/a"; VStr (relative "/home/u" "docs/a" "/tmp/b/c")] =
  Some (resolve1 "/home/u" "/tmp/b/c").
Proof. split; [reflexivity | exact (resolve_relative "/home/u" "docs/a" "/tmp/b/c" eq_refl)]. Defined.

Lemma relative_empty_iff_witness :
  is_slash "/home/u" 0 = true /\
  (relative "/home/u" "../u/x/.." "/home/u/" = "" <->
   resolve1 "/home/u" "../u/x/.." = resolve1 "/home/u" "/home/u/").
Proof. split; [reflexivity | exact (relative_empty_iff "/home/u" "../u/x/.." "/home/u/" eq_refl)]. Defined.

Lemma relative_not_absolute_witness :
  is_slash "/home/u" 0 = true /\ isAbsolute (relative "/home/u" "/a/b" "/c") = false.
Proof. split; [reflexivity | exact (relative_not_absolute "/home/u" "/a/b" "/c" eq_refl)]. Defined.

End RelFacts.

Module JoinFacts.
Import Js NodePosix ParseShape ParseFacts PathSegments NormFacts SuffixFacts NormStack RelFacts.

Lemma fold_wrapped (a t : bool) (st : list string) :
  normal_stack (negb a) st -> st <> [] ->
  fold_left (norm_step (negb a))
    (split_segs ((if a then "/" else "") ++ String.concat "/" (rev st) ++
                 (if t then "/" else ""))) [] = st.
Proof.
  intros Hst Hne.
  assert (Hr : rev st <> []).
  { intros E. apply Hne. rewrite <- (rev_involutive st), E. reflexivity. }
  assert (Hs : split_segs (String.concat "/" (rev st)) = rev st).
  { apply split_segs_concat; [exact Hr |]. apply Forall_rev.
    eapply Forall_impl; [| exact (normal_segs _ _ Hst)]. intros w [_ H]. exact H. }
  assert (Ht : fold_left (norm_step (negb a))
                 (split_segs (String.concat "/" (rev st) ++ (if t then "/" else ""))) [] = st).
  { destruct t.
    - rewrite split_segs_trail, fold_left_app, Hs, fold_rev_normal by exact Hst.
      apply norm_step_empty.
    - rewrite app_nil_r_s, Hs. apply fold_rev_normal. exact Hst. }
  destruct a; [| exact Ht].
  cbn [String.append]. change (String "/" ?x) with ("/" ++ x).
  rewrite split_segs_lead. cbn [fold_left]. rewrite norm_step_empty. exact Ht.
Qed.

(** The segments of [normalize X] fold to the stack of [X], for the
    [allowAboveRoot] that [normalize] uses on [X]. *)
Lemma normalize_fold (X : string) :
  X <> "" ->
  normalize X <> "" /\ is_slash (normalize X) 0 = is_slash X 0 /\
  fold_left (norm_step (negb (is_slash X 0))) (split_segs (normalize X)) [] =
  fold_left (norm_step (negb (is_slash X 0))) (split_segs X) [].
Proof.
  intros HX.
  assert (H0 : (len X =? 0)%Z = false) by (apply Z.eqb_neq; pose proof (len_pos X HX); lia).
  rewrite (normalize_spec X H0). unfold norm_spec.
  pose proof (fold_normal (negb (is_slash X 0)) (split_segs X) []
                (split_aux_all_no_slash X "" I) (normal_nil _)) as Hn.
  destruct (fold_left (norm_step (negb (is_slash X 0))) (split_segs X) [])
    as [| top rest] eqn:Est.
  - destruct (is_slash X 0), (is_slash X (len X - 1));
      (split; [discriminate | split; reflexivity]).
  - pose proof (stack_string_ends (top :: rest) (normal_segs _ _ Hn) ltac:(discriminate))
      as (Hsne & Hfirst & _).
    rewrite (proj2 (Z.eqb_neq _ 0)) by (pose proof (len_pos_s _ Hsne); lia).
    split; [| split].
    + destruct (is_slash X 0); [discriminate |]. cbn [String.append].
      apply app_ne_nil_s. exact Hsne.
    + destruct (is_slash X 0) eqn:Ea; [reflexivity |].
      cbn [String.append]. rewrite is_slash_app_0 by exact Hsne. exact Hfirst.
    + rewrite <- Est at 2. rewrite Est.
      destruct (is_slash X 0) eqn:Ea.
      * exact (fold_wrapped true _ (top :: rest) Hn ltac:(discriminate)).
      * exact (fold_wrapped false _ (top :: rest) Hn ltac:(discriminate)).
Qed.

Lemma is_slash_last_app (A B : string) :
  B <> "" -> is_slash (A ++ B) (len (A ++ B) - 1) = is_slash B (len B - 1).
Proof.
  intros HB. destruct (snoc_view B) as [-> | (B' & c & ->)]; [congruence |].
  rewrite <- app_assoc_s, !is_slash_last. reflexivity.
Qed.

Lemma normalize_prefix (X Y : string) :
  X <> "" -> normalize (normalize X ++ "/" ++ Y) = normalize (X ++ "/" ++ Y).
Proof.
  intros HX. destruct (normalize_fold X HX) as (HN & HN0 & Hf).
  assert (L1 : (len (normalize X ++ "/" ++ Y) =? 0)%Z = false).
  { apply Z.eqb_neq. pose proof (len_pos _ (app_ne_nil_s _ ("/" ++ Y) HN)). lia. }
  assert (L2 : (len (X ++ "/" ++ Y) =? 0)%Z = false).
  { apply Z.eqb_neq. pose proof (len_pos _ (app_ne_nil_s _ ("/" ++ Y) HX)). lia. }
  rewrite (normalize_spec _ L1), (normalize_spec _ L2).
  rewrite (is_slash_app_0 (normalize X) _ HN), (is_slash_app_0 X _ HX), HN0.
  rewrite (is_slash_last_app (normalize X) ("/" ++ Y)), (is_slash_last_app X ("/" ++ Y))
    by discriminate.
  unfold norm_spec. rewrite !split_segs_slash, !fold_left_app, Hf. reflexivity.
Qed.

Lemma join_acc_app (o : option string) (l1 l2 : list string) :
  join_acc o (l1 ++ l2)%list = join_acc (join_acc o l1) l2.
Proof. revert o. induction l1 as [| x l1 IH]; intros o; [reflexivity | apply IH]. Qed.

Lemma join_acc_some (args : list string) : forall o : option string,
  match o with Some j => j <> "" | None => exists a, In a args /\ a <> "" end ->
  exists J, join_acc o args = Some J /\ J <> "".
Proof.
  induction args as [| x args IH]; intros o Ho.
  - destruct o as [j |]; [exists j; split; [reflexivity | exact Ho] |].
    destruct Ho as (a & [] & _).
  - cbn [join_acc]. apply IH.
    destruct (0 <? len x)%Z eqn:Ex.
    + destruct o as [j |]; [apply app_ne_nil_s; exact Ho |].
      intros ->. discriminate.
    + destruct o as [j |]; [exact Ho |].
      destruct Ho as (a & [<- | Ha] & Hne).
      * exfalso. pose proof (len_pos x Hne). apply Z.ltb_ge in Ex. lia.
      * exists a. split; assumption.
Qed.

(** X28: [posix.normalize] gives the same result on a path extended after
    a non-empty prefix whether or not that prefix was normalized first. *)
Theorem normalize_absorbs_prefix (X Y : string) :
  X <> "" -> normalize (normalize X ++ "/" ++ Y) = normalize (X ++ "/" ++ Y).
Proof. exact (normalize_prefix X Y). Qed.

(** X29: once one of its arguments is non-empty, [posix.join] can be
    computed one argument at a time: [join(...args, c)] is
    [join(join(...args), c)]. *)
Theorem join_snoc (args : list string) (c : string) :
  (exists a, In a args /\ a <> "") -> join (args ++ [c])%list = join [join args; c].
Proof.
  intros Ha. destruct (join_acc_some args None Ha) as (J & HJ & HJne).
  assert (Eargs : join args = normalize J).
  { unfold join. destruct args as [| x args]; [destruct Ha as (? & [] & _) |].
    rewrite HJ. reflexivity. }
  assert (Eapp : join (args ++ [c])%list =
                 match join_acc None (args ++ [c])%list with
                 | None => "." | Some j => normalize j end).
  { unfold join. destruct (args ++ [c])%list eqn:E; [| reflexivity].
    apply app_eq_nil in E. destruct E as [_ E]. discriminate. }
  rewrite Eapp, join_acc_app, HJ, Eargs.
  destruct (normalize_fold J HJne) as (HN & _ & _).
  unfold join at 1. cbn [join_acc].
  replace (0 <? len (normalize J))%Z with true
    by (symmetry; apply Z.ltb_lt; pose proof (len_pos _ HN); lia).
  destruct (0 <? len c)%Z.
  - symmetry. apply normalize_prefix. exact HJne.
  - symmetry. apply normalize_normalize.
Qed.

Lemma normalize_absorbs_prefix_witness :
  "a/../b" <> "" /\
  normalize (normalize "a/../b" ++ "/" ++ "../c/") = normalize ("a/../b" ++ "/" ++ "../c/").
Proof. split; [discriminate | exact (normalize_absorbs_prefix "a/../b" "../c/" ltac:(discriminate))]. Defined.

Lemma join_snoc_witness :
  (exists a, In a ["" ; "x/"] /\ a <> "") /\
  join (["" ; "x/"] ++ ["../y"])%list = join [join ["" ; "x/"]; "../y"].
Proof.
  assert (H : exists a, In a ["" ; "x/"] /\ a <> "")
    by (exists "x/"; split; [right; left; reflexivity | discriminate]).
  split; [exact H | exact (join_snoc ["" ; "x/"] "../y" H)].
Defined.

End JoinFacts.

Module FormatFacts.
Import Js NodePosix.

(** X30: the priorities of [posix.format]: once [pathObject.base] is set,
    [name] and [ext] play no part in the result; once [pathObject.dir] is
    set, [root] plays no part either, except through the check
    [dir === pathObject.root] that leaves out the separator. *)
Theorem format_priority (h : heap) (po1 po2 : value) :
  (get h po1 "dir" = get h po2 "dir" ->
   get h po1 "root" = get h po2 "root" ->
   get h po1 "base" = get h po2 "base" ->
   truthy (get h po1 "base") = true ->
   format_fields h po1 = format_fields h po2) /\
  (get h po1 "dir" = get h po2 "dir" ->
   truthy (get h po1 "dir") = true ->
   strict_eqb (get h po1 "dir") (get h po1 "root") = false ->
   strict_eqb (get h po2 "dir") (get h po2 "root") = false ->
   get h po1 "base" = get h po2 "base" ->
   get h po1 "name" = get h po2 "name" ->
   get h po1 "ext" = get h po2 "ext" ->
   format_fields h po1 = format_fields h po2).
Proof.
  split.
  - intros Hd Hr Hb Ht. unfold format_fields.
    rewrite <- Hd, <- Hr, <- Hb, Ht. reflexivity.
  - intros Hd Ht Hs1 Hs2 Hb Hn He. unfold format_fields, js_or.
    rewrite Hd in Ht, Hs1 |- *. rewrite Hb, Hn, He, Ht.
    cbn [negb]. rewrite Hs1, Hs2. reflexivity.
Qed.

Lemma format_priority_witness :
  format_fields
    [ORecord [("dir", VStr "/a"); ("root", VStr "/"); ("base", VStr "f.txt");
              ("name", VStr "g"); ("ext", VStr ".md")];
     ORecord [("dir", VStr "/a"); ("root", VStr "/"); ("base", VStr "f.txt")]]
    (VRef 0) =
  format_fields
    [ORecord [("dir", VStr "/a"); ("root", VStr "/"); ("base", VStr "f.txt");
              ("name", VStr "g"); ("ext", VStr ".md")];
     ORecord [("dir", VStr "/a"); ("root", VStr "/"); ("base", VStr "f.txt")]]
    (VRef 1) /\
  format_fields
    [ORecord [("dir", VStr "/a"); ("root", VStr "/"); ("name", VStr "f"); ("ext", VStr "txt")];
     ORecord [("dir", VStr "/a"); ("name", VStr "f"); ("ext", VStr "txt")]]
    (VRef 0) =
  format_fields
    [ORecord [("dir", VStr "/a"); ("root", VStr "/"); ("name", VStr "f"); ("ext", VStr "txt")];
     ORecord [("dir", VStr "/a"); ("name", VStr "f"); ("ext", VStr "txt")]]
    (VRef 1).
Proof.
  split.
  - apply (proj1 (format_priority
      [ORecord [("dir", VStr "/a"); ("root", VStr "/"); ("base", VStr "f.txt");
                ("name", VStr "g"); ("ext", VStr ".md")];
       ORecord [("dir", VStr "/a"); ("root", VStr "/"); ("base", VStr "f.txt")]]
      (VRef 0) (VRef 1))); reflexivity.
  - apply (proj2 (format_priority
      [ORecord [("dir", VStr "/a"); ("root", VStr "/"); ("name", VStr "f"); ("ext", VStr "txt")];
       ORecord [("dir", VStr "/a"); ("name", VStr "f"); ("ext", VStr "txt")]]
      (VRef 0) (VRef 1))); reflexivity.
Defined.

End FormatFacts.
